(** * Executor / IbexRun: a shallow embedding and its verified properties

    The development embeds the two modules of the package:

    - [executor/executor.py]: class [Executor], the lifecycle
      prepare -> execute -> check exit code -> isFailed -> finish / fail,
      with [cleanup] in a [finally] clause;
    - [executor/ibex.py]: class [IbexRun], which plans a job array, renders
      an [sbatch] script and scrapes the job id from the reply.

    Conventions of the embedding.

    - Python [int] is [Z].  The quotient [a / b] of two [int]s is the
      binary64 value nearest to the exact quotient (ties to even), or
      [OverflowError] beyond the range of the format; [np.ceil],
      [np.floor] and [int] act on that value.  Below 2^53 the rounding is
      invisible ([py_truediv_small]); above it the plan and the time
      budget drift from the exact ceiling and floor, as they do in the
      source.
    - Python [str] is [string], holding the UTF-8 bytes of the text.  The
      characters of a string are cut out by [chars]; the class [\d] of
      [re] and the white space of [str.split] are the Unicode sets
      (version 14.0, as in CPython 3.11).
    - A [pathlib.Path] is the list of its components below the root, for
      an absolute path free of [..].  [p / name] parses [name]: an
      absolute name replaces [p], a relative one is appended component by
      component.
    - Exceptions are values of [exn]; fallible code returns [result].
    - The file system is a map [path -> option node] whose operations
      raise [OSError] as the calls of the source do (missing parent, name
      taken, not a directory).
    - The world outside is an oracle: it says how the launch of the
      program ends (an exit code with the decoded output, an [OSError],
      output that cannot be decoded, or no memory left) and which name
      [tempfile.mkdtemp] picks.  The oracle covers a program that leaves
      the directories and files of the model alone, and a temporary
      directory that can be created. *)

From Stdlib Require Import ZArith NArith String Ascii List Lia Bool.
From Stdlib Require Import DecimalString DecimalPos.
Import ListNotations.
Open Scope string_scope.
Open Scope Z_scope.

(* ================================================================== *)
(** ** Exceptions and the error monad *)

Inductive exn : Type :=
| ZeroDivisionError
| OverflowError
| UnicodeDecodeError
| IndexError
| AttributeError (msg : string)
| TypeError
| MemoryError
| OSError (strerror : string)
| RunError (payload : string)
| CalledProcessError (returncode : Z) (cmd : list string) (output : string).

Inductive result (A : Type) : Type :=
| Ok (a : A)
| Raise (e : exn).
Arguments Ok {A} a.
Arguments Raise {A} e.

Definition bind {A B} (r : result A) (k : A -> result B) : result B :=
  match r with
  | Ok a => k a
  | Raise e => Raise e
  end.

Notation "x <- c ;; k" := (bind c (fun x => k))
  (at level 61, c at next level, right associativity).

(* ================================================================== *)
(** ** Python's integer rendering *)

(** [str(z)] for an [int]. *)
Definition py_str (z : Z) : string := NilZero.string_of_int (Z.to_int z).

Fixpoint zeros (n : nat) : string :=
  match n with
  | O => EmptyString
  | S k => String "0" (zeros k)
  end.

(** [f'{z:0w}']: sign-aware zero padding to a minimum width [w]. *)
Definition py_format_0 (w : nat) (z : Z) : string :=
  if (z <? 0)%Z
  then let d := py_str (- z) in
       "-" ++ zeros (Nat.pred w - String.length d)%nat ++ d
  else let d := py_str z in
       zeros (w - String.length d)%nat ++ d.

(** The line feed. *)
Definition nl : string := String "010" EmptyString.

(* ================================================================== *)
(** ** Python's [str]: characters *)

(** A [str] is held as its UTF-8 bytes, one [ascii] per byte.  A byte
    [10xxxxxx] continues the character begun before it. *)
Definition is_continuation (c : ascii) : bool :=
  ((128 <=? N_of_ascii c) && (N_of_ascii c <? 192))%N.

Definition starts_with_continuation (s : string) : bool :=
  match s with
  | String c _ => is_continuation c
  | EmptyString => false
  end.

(** The characters of a string, each with its bytes. *)
Fixpoint chars (s : string) : list string :=
  match s with
  | EmptyString => []
  | String c s' =>
      match chars s' with
      | ch :: rest =>
          if starts_with_continuation ch then String c ch :: rest
          else String c EmptyString :: ch :: rest
      | [] => [String c EmptyString]
      end
  end.

(** The six payload bits of a continuation byte. *)
Definition low6 (c : ascii) : N := (N_of_ascii c - 128)%N.

(** The code point a character encodes; [None] for bytes that are no
    character in shortest form. *)
Definition code_point (ch : string) : option N :=
  match ch with
  | String a EmptyString =>
      if (N_of_ascii a <? 128)%N then Some (N_of_ascii a) else None
  | String a (String b EmptyString) =>
      let cp := ((N_of_ascii a - 192) * 64 + low6 b)%N in
      if ((192 <=? N_of_ascii a) && (N_of_ascii a <? 224) &&
          is_continuation b && (128 <=? cp))%N
      then Some cp else None
  | String a (String b (String c EmptyString)) =>
      let cp := (((N_of_ascii a - 224) * 64 + low6 b) * 64 + low6 c)%N in
      if ((224 <=? N_of_ascii a) && (N_of_ascii a <? 240) &&
          is_continuation b && is_continuation c && (2048 <=? cp) &&
          negb ((55296 <=? cp) && (cp <=? 57343)))%N
      then Some cp else None
  | String a (String b (String c (String d EmptyString))) =>
      let cp := ((((N_of_ascii a - 240) * 64 + low6 b) * 64 + low6 c) * 64
                 + low6 d)%N in
      if ((240 <=? N_of_ascii a) && (N_of_ascii a <? 248) &&
          is_continuation b && is_continuation c && is_continuation d &&
          (65536 <=? cp) && (cp <=? 1114111))%N
      then Some cp else None
  | _ => None
  end.

Definition in_ranges (table : list (N * N)) (cp : N) : bool :=
  existsb (fun r => ((fst r <=? cp) && (cp <=? snd r))%N) table.

(** The decimal digits of Unicode 14.0 (category Nd), which the class
    [\d] of [re] matches in a [str] pattern. *)
Definition decimal_digits : list (N * N) :=
  (
  [ (48, 57); (1632, 1641); (1776, 1785); (1984, 1993); (2406, 2415);
    (2534, 2543); (2662, 2671); (2790, 2799); (2918, 2927); (3046, 3055);
    (3174, 3183); (3302, 3311); (3430, 3439); (3558, 3567); (3664, 3673);
    (3792, 3801); (3872, 3881); (4160, 4169); (4240, 4249); (6112, 6121);
    (6160, 6169); (6470, 6479); (6608, 6617); (6784, 6793); (6800, 6809);
    (6992, 7001); (7088, 7097); (7232, 7241); (7248, 7257); (42528, 42537);
    (43216, 43225); (43264, 43273); (43472, 43481); (43504, 43513);
    (43600, 43609); (44016, 44025); (65296, 65305); (66720, 66729);
    (68912, 68921); (69734, 69743); (69872, 69881); (69942, 69951);
    (70096, 70105); (70384, 70393); (70736, 70745); (70864, 70873);
    (71248, 71257); (71360, 71369); (71472, 71481); (71904, 71913);
    (72016, 72025); (72784, 72793); (73040, 73049); (73120, 73129);
    (92768, 92777); (92864, 92873); (93008, 93017); (120782, 120831);
    (123200, 123209); (123632, 123641); (125264, 125273); (130032, 130041) ])%N.

(** The white space [str.split()] cuts at ([str.isspace]). *)
Definition white_space : list (N * N) :=
  (
  [ (9, 13); (28, 32); (133, 133); (160, 160); (5760, 5760); (8192, 8202);
    (8232, 8233); (8239, 8239); (8287, 8287); (12288, 12288) ])%N.

Definition is_digit (ch : string) : bool :=
  match code_point ch with
  | Some cp => in_ranges decimal_digits cp
  | None => false
  end.

Definition is_space (ch : string) : bool :=
  match code_point ch with
  | Some cp => in_ranges white_space cp
  | None => false
  end.

(** [s.split()] over the characters, with the word under construction
    in [cur]. *)
Fixpoint split_go (cur : string) (cs : list string) : list string :=
  match cs with
  | [] => match cur with EmptyString => [] | _ => [cur] end
  | ch :: cs' =>
      if is_space ch
      then match cur with
           | EmptyString => split_go EmptyString cs'
           | _ => cur :: split_go EmptyString cs'
           end
      else split_go (cur ++ ch) cs'
  end.

Definition split_ws (s : string) : list string := split_go EmptyString (chars s).

(** The longest prefix of digits. *)
Fixpoint take_digits (cs : list string) : string :=
  match cs with
  | [] => EmptyString
  | ch :: cs' => if is_digit ch then ch ++ take_digits cs' else EmptyString
  end.

Fixpoint search_digits (cs : list string) : option string :=
  match cs with
  | [] => None
  | ch :: cs' =>
      if is_digit ch then Some (ch ++ take_digits cs')
      else search_digits cs'
  end.

(** [re.search(r'\d+', s)]: the leftmost match, taken greedily. *)
Definition re_search_digits (s : string) : option string :=
  search_digits (chars s).

(* ================================================================== *)
(** ** Paths *)

Definition path : Type := list string.

(** The pieces of a string between its slashes, with the piece under
    construction in [cur]. *)
Fixpoint split_slash (cur : string) (s : string) : list string :=
  match s with
  | EmptyString => [cur]
  | String c s' =>
      if Ascii.eqb c "/" then cur :: split_slash EmptyString s'
      else split_slash (cur ++ String c EmptyString) s'
  end.

(** The components of a path written as a string: [pathlib] drops the
    empty pieces and the pieces ["."], and keeps [".."]. *)
Definition path_components (s : string) : list string :=
  filter (fun c => negb (String.eqb c "" || String.eqb c "."))
         (split_slash EmptyString s).

Definition is_absolute (s : string) : bool :=
  match s with
  | String c _ => Ascii.eqb c "/"
  | EmptyString => false
  end.

(** [p / name]: an absolute [name] replaces [p]; a relative one is
    appended, component by component. *)
Definition path_join (p : path) (name : string) : path :=
  if is_absolute name then path_components name
  else (p ++ path_components name)%list.

Fixpoint path_components_str (p : path) : string :=
  match p with
  | [] => ""
  | c :: rest => "/" ++ c ++ path_components_str rest
  end.

(** [str(p)] *)
Definition path_str (p : path) : string :=
  match p with
  | [] => "/"
  | _ => path_components_str p
  end.

(* ================================================================== *)
(** ** ibex.py: the batch plan *)

(** A finite binary64 value, counted in units of [2^-1074], the smallest
    positive value of the format. *)
Record float64 : Type := Float { units : Z }.

(** [1.0] in units. *)
Definition one : Z := 2 ^ 1074.

(** The integer nearest to [n / d], a tie going to the even one. *)
Definition round_half_even (n d : Z) : Z :=
  let q := n / d in
  match 2 * (n mod d) ?= d with
  | Lt => q
  | Gt => q + 1
  | Eq => if Z.even q then q else q + 1
  end.

(** The binary64 value nearest to [n / d] for [0 <= n] and [0 < d], in
    units: the quotient keeps 53 significant bits, and no bit below the
    unit. *)
Definition round_binary64 (n d : Z) : Z :=
  let scaled := n * one in
  let t := Z.max 0 (Z.log2 (scaled / d) - 52) in
  round_half_even scaled (d * 2 ^ t) * 2 ^ t.

(** [a / b] on two [int]s: the correctly rounded quotient. *)
Definition py_truediv (a b : Z) : result float64 :=
  if b =? 0 then Raise ZeroDivisionError
  else
    let u := round_binary64 (Z.abs a) (Z.abs b) in
    if 2 ^ 1024 * one <=? u then Raise OverflowError
    else Ok (Float (Z.sgn a * Z.sgn b * u)).

(** [np.ceil], [np.floor] and [int] on a binary64 value. *)
Definition np_ceil (x : float64) : float64 :=
  Float (- ((- units x) / one) * one).

Definition np_floor (x : float64) : float64 :=
  Float (units x / one * one).

Definition py_int (x : float64) : Z := Z.quot (units x) one.

(** [int(np.ceil(a / b))] *)
Definition np_ceil_div (a b : Z) : result Z :=
  q <- py_truediv a b ;;
  Ok (py_int (np_ceil q)).

(** [IbexRun.time_str].  The remainder [total_minutes % 60] is an [int]
    between 0 and 59, which [np.ceil] takes to binary64 unchanged. *)
Definition time_str (commands_per_job t_per_command : Z) : result string :=
  let total_minutes := commands_per_job * t_per_command in
  q <- py_truediv total_minutes 60 ;;
  let hours := np_floor q in
  let minutes := np_ceil (Float ((total_minutes mod 60) * one)) in
  Ok (py_format_0 2 (py_int hours) ++ ":" ++
      py_format_0 2 (py_int minutes) ++ ":00").

(* ================================================================== *)
(** ** The file system seen by the lifecycle *)

Inductive node : Type :=
| Dir
| File (contents : string).

Definition fs : Type := path -> option node.

Definition path_eqb (p q : path) : bool :=
  if list_eq_dec string_dec p q then true else false.

(** [is_prefix p q]: [q] is [p] or lies below [p]. *)
Fixpoint is_prefix (p q : path) : bool :=
  match p, q with
  | [], _ => true
  | a :: p', b :: q' => (if string_dec a b then true else false) && is_prefix p' q'
  | _ :: _, [] => false
  end.

(** The root always is a directory. *)
Definition lookup (f : fs) (p : path) : option node :=
  match p with
  | [] => Some Dir
  | _ => f p
  end.

Definition update (f : fs) (p : path) (n : node) : fs :=
  fun q => if path_eqb p q then Some n else f q.

(** [p.exists()] *)
Definition exists_ (f : fs) (p : path) : bool :=
  match lookup f p with Some _ => true | None => false end.

Definition is_dir (f : fs) (p : path) : bool :=
  match lookup f p with Some Dir => true | _ => false end.

Definition parent (p : path) : path := removelast p.

(** [p.mkdir()]: the parent must be a directory, [p] must be new. *)
Definition mkdir (f : fs) (p : path) : result fs :=
  match lookup f p with
  | Some _ => Raise (OSError "File exists")
  | None =>
      match lookup f (parent p) with
      | Some Dir => Ok (update f p Dir)
      | Some (File _) => Raise (OSError "Not a directory")
      | None => Raise (OSError "No such file or directory")
      end
  end.

(** [p.mkdir(parents=True)]: walks down from [base], creating what is
    missing; a file on the way or an existing target raises. *)
Fixpoint mkdir_from (f : fs) (base : path) (rest : list string) : result fs :=
  match rest with
  | [] => Raise (OSError "File exists")
  | c :: rest' =>
      let d := (base ++ [c])%list in
      match rest' with
      | [] =>
          match lookup f d with
          | Some _ => Raise (OSError "File exists")
          | None => Ok (update f d Dir)
          end
      | _ :: _ =>
          match lookup f d with
          | Some (File _) => Raise (OSError "Not a directory")
          | Some Dir => mkdir_from f d rest'
          | None => mkdir_from (update f d Dir) d rest'
          end
      end
  end.

Definition mkdir_parents (f : fs) (p : path) : result fs := mkdir_from f [] p.

(** [with open(p, 'w') as h: h.write(s)] *)
Definition write_text (f : fs) (p : path) (s : string) : result fs :=
  match lookup f p with
  | Some Dir => Raise (OSError "Is a directory")
  | _ =>
      match lookup f (parent p) with
      | Some Dir => Ok (update f p (File s))
      | Some (File _) => Raise (OSError "Not a directory")
      | None => Raise (OSError "No such file or directory")
      end
  end.

(** [shutil.rmtree(p)] *)
Definition rmtree (f : fs) (p : path) : result fs :=
  match lookup f p with
  | Some Dir => Ok (fun q => if is_prefix p q then None else f q)
  | Some (File _) => Raise (OSError "Not a directory")
  | None => Raise (OSError "No such file or directory")
  end.

(* ================================================================== *)
(** ** The world outside: the process and the temporary names *)

(** How [subprocess.run(..., text=True)] ends: with an [OSError], with
    output that cannot be decoded, out of memory, or with the exit code
    and the decoded output of the program. *)
Inductive launch_result : Type :=
| LaunchError (strerror : string)
| LaunchUndecodable
| LaunchOutOfMemory
| Exited (returncode : Z) (stdout : string).

Record world : Type := {
  (** what [subprocess.run(args, cwd=cwd)] does in a given file system *)
  subprocess_run : fs -> list string -> path -> launch_result;
  (** [tempfile.gettempdir()] *)
  gettempdir : path;
  (** the unique suffix [tempfile.mkdtemp] picks for a prefix *)
  mkdtemp_suffix : fs -> string -> string
}.

(** The directory [tempfile.mkdtemp(prefix=prefix)] creates, for a
    [prefix] without directory part and a temporary directory of the
    world in which it can be created. *)
Definition mkdtemp (w : world) (f : fs) (prefix : string) : path :=
  (gettempdir w ++ [(prefix ++ mkdtemp_suffix w f prefix)%string])%list.

(* ================================================================== *)
(** ** executor.py: the instance and its state *)

(** [catch_out] is a [bool] or a file name. *)
Inductive catch_out_t : Type :=
| CatchBool (b : bool)
| CatchName (name : string).

(** Python truthiness of [catch_out]. *)
Definition catch_truthy (c : catch_out_t) : bool :=
  match c with
  | CatchBool b => b
  | CatchName EmptyString => false
  | CatchName _ => true
  end.

Record CompletedProcess : Type := {
  cp_args : list string;
  cp_returncode : Z;
  cp_stdout : string
}.

(** [self.error] holds the class [RunError] or a caught instance. *)
Inductive error_slot : Type :=
| ErrRunErrorClass
| ErrInstance (e : exn).

Record Executor : Type := {
  program : string;
  args : list string;
  catch_out : catch_out_t;
  keep_tempdir : bool;
  cwd : path;
  tempdir : option path;
  verbose : bool;
  dir_out : option path;
  f_stdout : option path;          (* unset when [catch_out] is [False] *)
  completed_process : option CompletedProcess;
  failed_message : option string;  (* [None] stands for [None] and [False] *)
  error : option error_slot
}.

(** [Executor.__init__] *)
Definition Executor_init (args : list string) (catch_out : catch_out_t)
    (dir_out tempdir : option path) (keep_tempdir : bool) (cwd : path)
    (verbose : bool) : result Executor :=
  match args with
  | [] => Raise IndexError
  | prog :: _ =>
      Ok {| program := prog; args := args; catch_out := catch_out;
            keep_tempdir := keep_tempdir; cwd := cwd; tempdir := tempdir;
            verbose := verbose; dir_out := dir_out;
            f_stdout :=
              match catch_out with
              | CatchBool true => Some (path_join cwd (prog ++ ".out"))
              | CatchBool false => None
              | CatchName name => Some (path_join cwd name)
              end;
            completed_process := None; failed_message := None;
            error := None |}
  end.

Definition set_tempdir (e : Executor) (t : option path) : Executor :=
  {| program := program e; args := args e; catch_out := catch_out e;
     keep_tempdir := keep_tempdir e; cwd := cwd e; tempdir := t;
     verbose := verbose e; dir_out := dir_out e; f_stdout := f_stdout e;
     completed_process := completed_process e;
     failed_message := failed_message e; error := error e |}.

Definition set_completed_process (e : Executor) (c : option CompletedProcess)
  : Executor :=
  {| program := program e; args := args e; catch_out := catch_out e;
     keep_tempdir := keep_tempdir e; cwd := cwd e; tempdir := tempdir e;
     verbose := verbose e; dir_out := dir_out e; f_stdout := f_stdout e;
     completed_process := c;
     failed_message := failed_message e; error := error e |}.

Definition set_failed_message (e : Executor) (m : option string) : Executor :=
  {| program := program e; args := args e; catch_out := catch_out e;
     keep_tempdir := keep_tempdir e; cwd := cwd e; tempdir := tempdir e;
     verbose := verbose e; dir_out := dir_out e; f_stdout := f_stdout e;
     completed_process := completed_process e;
     failed_message := m; error := error e |}.

Definition set_error (e : Executor) (x : option error_slot) : Executor :=
  {| program := program e; args := args e; catch_out := catch_out e;
     keep_tempdir := keep_tempdir e; cwd := cwd e; tempdir := tempdir e;
     verbose := verbose e; dir_out := dir_out e; f_stdout := f_stdout e;
     completed_process := completed_process e;
     failed_message := failed_message e; error := x |}.

(** The mutable state a method sees: the instance and the disk. *)
Record state : Type := { self : Executor; disk : fs }.

(** Effectful code over a state [S]: the state survives an exception. *)
Definition Mon (S A : Type) : Type := S -> result A * S.

Definition ret {S A} (a : A) : Mon S A := fun s => (Ok a, s).
Definition raise {S A} (e : exn) : Mon S A := fun s => (Raise e, s).
Definition mbind {S A B} (m : Mon S A) (k : A -> Mon S B) : Mon S B :=
  fun s => match m s with
           | (Ok a, s') => k a s'
           | (Raise e, s') => (Raise e, s')
           end.

Notation "x <~ c ;; k" := (mbind c (fun x => k))
  (at level 61, c at next level, right associativity).
Notation "c ;;; k" := (mbind c (fun _ => k))
  (at level 61, right associativity).

(** [try: body except e: handler e]; [handler] answers [None] for an
    exception no clause matches.  An exception raised by a handler is
    not offered to the sibling clauses. *)
Definition try_except {S A} (body : Mon S A) (handler : exn -> option (Mon S A))
  : Mon S A :=
  fun s => match body s with
           | (Ok a, s') => (Ok a, s')
           | (Raise e, s') =>
               match handler e with
               | Some h => h s'
               | None => (Raise e, s')
               end
           end.

(** [try: body finally: fin]; an exception of [fin] replaces the pending
    outcome. *)
Definition try_finally {S A} (body : Mon S A) (fin : Mon S unit) : Mon S A :=
  fun s => match body s with
           | (r, s') =>
               match fin s' with
               | (Ok _, s'') => (r, s'')
               | (Raise e, s'') => (Raise e, s'')
               end
           end.

(** Methods run over the instance and the disk. *)
Definition M : Type -> Type := Mon state.

Definition get_self : M Executor := fun s => (Ok (self s), s).
Definition get_disk : M fs := fun s => (Ok (disk s), s).
Definition put_self (e : Executor) : M unit :=
  fun s => (Ok tt, {| self := e; disk := disk s |}).

(** A file-system call: the disk changes when it succeeds. *)
Definition fs_call (op : fs -> result fs) : M unit :=
  fun s => match op (disk s) with
           | Ok f => (Ok tt, {| self := self s; disk := f |})
           | Raise e => (Raise e, s)
           end.

(* ================================================================== *)
(** ** executor.py: the methods *)

(** The override points of a subclass. *)
Record hooks (R : Type) : Type := {
  class_name_lower : string;
  prepare : world -> M unit;
  isFailed : M (option string);
  finish : M R
}.
Arguments class_name_lower {R} h.
Arguments prepare {R} h w.
Arguments isFailed {R} h.
Arguments finish {R} h.

(** [Executor.prepare], first half: the temporary directory. *)
Definition prepare_tempdir (cls : string) (w : world) : M unit :=
  e <~ get_self ;;
  d <~ get_disk ;;
  match tempdir e with
  | Some t => if exists_ d t then ret tt else fs_call (fun f => mkdir f t)
  | None =>
      let t := mkdtemp w d (program e ++ "_" ++ cls ++ "_") in
      fs_call (fun f => Ok (update f t Dir)) ;;;
      put_self (set_tempdir e (Some t))
  end.

(** [Executor.prepare], second half: the output directory. *)
Definition prepare_dir_out : M unit :=
  e <~ get_self ;;
  d <~ get_disk ;;
  match dir_out e with
  | Some o => if exists_ d o then ret tt
              else fs_call (fun f => mkdir_parents f o)
  | None => ret tt
  end.

(** [Executor.prepare]; [cls] is the lower-cased name of the class. *)
Definition Executor_prepare (cls : string) (w : world) : M unit :=
  prepare_tempdir cls w ;;; prepare_dir_out.

(** [Executor.execute]; the run time is not part of the model. *)
Definition execute (w : world) : M CompletedProcess :=
  e <~ get_self ;;
  d <~ get_disk ;;
  if is_dir d (cwd e)
  then match subprocess_run w d (args e) (cwd e) with
       | LaunchError msg => raise (OSError msg)
       | LaunchUndecodable => raise UnicodeDecodeError
       | LaunchOutOfMemory => raise MemoryError
       | Exited rc out =>
           ret {| cp_args := args e; cp_returncode := rc; cp_stdout := out |}
       end
  else raise (OSError (if exists_ d (cwd e) then "Not a directory"
                       else "No such file or directory")).

(** [CompletedProcess.check_returncode] *)
Definition check_returncode (c : CompletedProcess) : M unit :=
  if cp_returncode c =? 0 then ret tt
  else raise (CalledProcessError (cp_returncode c) (cp_args c) (cp_stdout c)).

Fixpoint join_space (l : list string) : string :=
  match l with
  | [] => ""
  | [a] => a
  | a :: rest => a ++ " " ++ join_space rest
  end.

(** Python truthiness of [failed_message]. *)
Definition message_truthy (m : option string) : bool :=
  match m with
  | Some (String _ _) => true
  | _ => false
  end.

Definition error_string (e : Executor) : string :=
  nl ++ program e ++ " EXECUTION FAILED." ++ nl ++
  "Command: " ++ join_space (args e) ++ nl ++
  match completed_process e with
  | Some c => "Returncode: " ++ py_str (cp_returncode c) ++ nl ++
              "stdout: " ++ nl ++ cp_stdout c
  | None => ""
  end.

(** Writing to [self.f_stdout]; the attribute is missing when the
    constructor did not set it. *)
Definition write_f_stdout (text : string) : M unit :=
  e <~ get_self ;;
  match f_stdout e with
  | Some p => fs_call (fun f => write_text f p text)
  | None => raise (AttributeError "f_stdout")
  end.

(** [Executor.fail]: always raises. *)
Definition fail {A} : M A :=
  e <~ get_self ;;
  (if catch_truthy (catch_out e) then write_f_stdout (error_string e)
   else ret tt) ;;;
  match error e with
  | None => raise (AttributeError "error")
  | Some ErrRunErrorClass =>
      match failed_message e with
      | Some (String a m) => raise (RunError (String a m))
      | _ => raise (RunError "")
      end
  | Some (ErrInstance x) =>
      if message_truthy (failed_message e) then raise TypeError else raise x
  end.

(** [Executor.isFailed] *)
Definition Executor_isFailed : M (option string) := ret None.

(** [Executor.finish] *)
Definition Executor_finish : M (list string * Z * string) :=
  e <~ get_self ;;
  match completed_process e with
  | None => raise (AttributeError "stdout")
  | Some c =>
      (if catch_truthy (catch_out e) then write_f_stdout (cp_stdout c)
       else ret tt) ;;;
      ret (cp_args c, cp_returncode c, cp_stdout c)
  end.

(** [Executor.cleanup] *)
Definition cleanup : M unit :=
  e <~ get_self ;;
  d <~ get_disk ;;
  match tempdir e with
  | Some t =>
      if exists_ d t
      then (if keep_tempdir e then ret tt else fs_call (fun f => rmtree f t))
      else ret tt
  | None => ret tt
  end.

Definition Executor_hooks : hooks (list string * Z * string) :=
  {| class_name_lower := "executor";
     prepare := Executor_prepare "executor";
     isFailed := Executor_isFailed;
     finish := Executor_finish |}.

(** A subclass that overrides [isFailed] alone, by a predicate that reads
    the instance and answers [False] ([None]) or a message. *)
Definition Executor_hooks_with (cls : string)
    (predicate : Executor -> option string)
  : hooks (list string * Z * string) :=
  {| class_name_lower := cls;
     prepare := Executor_prepare cls;
     isFailed := (e <~ get_self ;; ret (predicate e));
     finish := Executor_finish |}.

(* ================================================================== *)
(** ** executor.py: [run] *)

(** The steps [run] enters, in order. *)
Inductive step : Type :=
| StepPrepare | StepExecute | StepFinish | StepFail | StepCleanup.

Definition step_eq_dec (a b : step) : {a = b} + {a <> b}.
Proof. decide equality. Defined.

(** [run] threads the methods' state and records the steps it enters. *)
Definition L : Type -> Type := Mon (state * list step).

Definition lift {A} (m : M A) : L A :=
  fun '(s, tr) => match m s with (r, s') => (r, (s', tr)) end.

Definition enter (x : step) : L unit :=
  fun '(s, tr) => (Ok tt, (s, (tr ++ [x])%list)).

Definition modify_self (g : Executor -> Executor) : M unit :=
  e <~ get_self ;; put_self (g e).

Definition launch_failure_text (strerror : string) : string :=
  "Couldn't run or communicate with external program: " ++ strerror.

(** The body of the [try] statement. *)
Definition run_body {R} (h : hooks R) (w : world) : L R :=
  enter StepPrepare ;;;
  lift (prepare h w) ;;;
  enter StepExecute ;;;
  c <~ lift (execute w) ;;
  lift (modify_self (fun e => set_completed_process e (Some c))) ;;;
  lift (check_returncode c) ;;;
  m <~ lift (isFailed h) ;;
  lift (modify_self (fun e => set_failed_message e m)) ;;;
  if message_truthy m
  then lift (modify_self (fun e => set_error e (Some ErrRunErrorClass))) ;;;
       enter StepFail ;;;
       lift fail
  else enter StepFinish ;;;
       lift (finish h).

(** The [except] clauses. *)
Definition run_handler {R} (x : exn) : option (L R) :=
  match x with
  | OSError strerror => Some (raise (RunError (launch_failure_text strerror)))
  | MemoryError | CalledProcessError _ _ _ =>
      Some (lift (modify_self (fun e => set_error e (Some (ErrInstance x)))) ;;;
            enter StepFail ;;;
            lift fail)
  | _ => None
  end.

(** [Executor.run] *)
Definition run {R} (h : hooks R) (w : world) : L R :=
  lift (modify_self (fun e =>
          set_failed_message (set_completed_process e None) None)) ;;;
  try_finally
    (try_except (run_body h w) run_handler)
    (enter StepCleanup ;;; lift cleanup).

(** Running a freshly constructed instance on a disk. *)
Definition run_on {R} (h : hooks R) (w : world) (e : Executor) (d : fs)
  : result R * (state * list step) :=
  run h w ({| self := e; disk := d |}, []).

Definition outcome {R} (x : result R * (state * list step)) : result R := fst x.
Definition final_disk {R} (x : result R * (state * list step)) : fs :=
  disk (fst (snd x)).
Definition final_self {R} (x : result R * (state * list step)) : Executor :=
  self (fst (snd x)).
Definition steps {R} (x : result R * (state * list step)) : list step :=
  snd (snd x).

(* ================================================================== *)
(** ** ibex.py: [IbexRun] *)

Record IbexRun : Type := {
  base : Executor;
  time_per_command : Z;
  jobname : string;
  partition : string;
  out_ibex : path;
  ntasks : Z;
  cpus_per_task : Z;
  mem_per_cpu : Z;
  ncommands : Z;
  max_jobs : Z;
  commands_per_job : Z;
  njobs : Z;
  time_per_job : string;
  script_file : path
}.

(** The keyword arguments handed on to [Executor.__init__]. *)
Record executor_kw : Type := {
  kw_catch_out : catch_out_t;
  kw_dir_out : option path;
  kw_tempdir : option path;
  kw_keep_tempdir : bool;
  kw_cwd : path;
  kw_verbose : bool
}.

(** [IbexRun.__init__] *)
Definition IbexRun_init (time_per_command : Z) (out_ibex : path)
    (ncommands : Z) (jobname partition : string)
    (ntasks cpus_per_task mem_per_cpu max_jobs : Z) (kw : executor_kw)
  : result IbexRun :=
  cpj <- np_ceil_div ncommands max_jobs ;;
  nj <- np_ceil_div ncommands cpj ;;
  tpj <- time_str cpj time_per_command ;;
  let sf := path_join out_ibex "script.sh" in
  b <- Executor_init (split_ws ("sbatch " ++ path_str sf))
         (kw_catch_out kw) (kw_dir_out kw) (kw_tempdir kw)
         (kw_keep_tempdir kw) (kw_cwd kw) (kw_verbose kw) ;;
  Ok {| base := b; time_per_command := time_per_command;
        jobname := jobname; partition := partition; out_ibex := out_ibex;
        ntasks := ntasks; cpus_per_task := cpus_per_task;
        mem_per_cpu := mem_per_cpu; ncommands := ncommands;
        max_jobs := max_jobs; commands_per_job := cpj; njobs := nj;
        time_per_job := tpj;
        script_file := sf |}.

(** The placeholder body of the script. *)
Definition script_body : string := "echo 'Hello world!'" ++ nl.

(** [self.script] of [IbexRun.prepare] *)
Definition script (ib : IbexRun) : string :=
  "#!/bin/bash" ++ nl ++
  "#SBATCH --job-name=" ++ jobname ib ++ nl ++
  "#SBATCH --partition=" ++ partition ib ++ nl ++
  "#SBATCH --output=" ++ path_str (out_ibex ib) ++ "/%J.out" ++ nl ++
  "#SBATCH --time=" ++ time_per_job ib ++ nl ++
  "#SBATCH --ntasks=" ++ py_str (ntasks ib) ++ nl ++
  "#SBATCH --cpus-per-task=" ++ py_str (cpus_per_task ib) ++ nl ++
  "#SBATCH --mem-per-cpu=" ++ py_str (mem_per_cpu ib) ++ "G" ++ nl ++
  "#SBATCH --array=0-" ++ py_str (njobs ib - 1) ++ nl ++
  nl ++
  script_body.

(** [IbexRun.prepare] *)
Definition IbexRun_prepare (ib : IbexRun) (w : world) : M unit :=
  d <~ get_disk ;;
  (if exists_ d (out_ibex ib) then ret tt
   else fs_call (fun f => mkdir_parents f (out_ibex ib))) ;;;
  fs_call (fun f => write_text f (script_file ib) (script ib)).

(** [IbexRun.finish] *)
Definition IbexRun_finish : M string :=
  e <~ get_self ;;
  match completed_process e with
  | None => raise (AttributeError "stdout")
  | Some c =>
      match re_search_digits (cp_stdout c) with
      | Some d => ret d
      | None => raise (AttributeError "'NoneType' object has no attribute 'group'")
      end
  end.

Definition IbexRun_hooks (ib : IbexRun) : hooks string :=
  {| class_name_lower := "ibexrun";
     prepare := IbexRun_prepare ib;
     isFailed := Executor_isFailed;
     finish := IbexRun_finish |}.

(** [IbexRun(...).run()] *)
Definition IbexRun_run (ib : IbexRun) (w : world) (d : fs)
  : result string * (state * list step) :=
  run_on (IbexRun_hooks ib) w (base ib) d.

(* ================================================================== *)
(** ** The specification's vocabulary *)

(** [q] is the ceiling of the rational [a / b]. *)
Definition is_ceil (a b q : Z) : Prop :=
  (0 < b /\ b * (q - 1) < a <= b * q) \/
  (b < 0 /\ b * q <= a < b * (q - 1)).

(** Zero padding to two digits, as the specification words it. *)
Definition pad2 (n : Z) : string :=
  if n <? 10 then "0" ++ py_str n else py_str n.

(** Default keyword arguments of [Executor.__init__], run from [/work]. *)
Definition default_kw : executor_kw :=
  {| kw_catch_out := CatchBool true; kw_dir_out := None; kw_tempdir := None;
     kw_keep_tempdir := false; kw_cwd := ["work"]; kw_verbose := true |}.

(** A string put together from characters. *)
Fixpoint join_chars (cs : list string) : string :=
  match cs with
  | [] => EmptyString
  | ch :: cs' => ch ++ join_chars cs'
  end.

(** A string none of whose characters is a decimal digit. *)
Definition no_digit (s : string) : bool :=
  forallb (fun ch => negb (is_digit ch)) (chars s).

(** [d] is the first contiguous run of decimal digits of [s]: no
    character before it is a digit, it is not empty, and it cannot be
    extended. *)
Definition first_digit_run (s d : string) : Prop :=
  exists pre run post,
    chars s = (pre ++ run ++ post)%list /\
    forallb (fun ch => negb (is_digit ch)) pre = true /\
    run <> [] /\
    forallb is_digit run = true /\
    d = join_chars run /\
    match post with
    | [] => True
    | ch :: _ => is_digit ch = false
    end.

(** A name that is one component of a path: not empty, without a slash,
    and neither ["."] nor [".."]. *)
Fixpoint no_slash (s : string) : bool :=
  match s with
  | EmptyString => true
  | String c s' => negb (Ascii.eqb c "/") && no_slash s'
  end.

Definition file_name (s : string) : bool :=
  no_slash s &&
  negb (String.eqb s "" || String.eqb s "." || String.eqb s "..").

(** An [int] that binary64 holds exactly, with room for the rounding of
    a quotient to go unnoticed. *)
Definition fits53 (z : Z) : Prop := Z.abs z < 2 ^ 53.

(** The name of the capture file: [<program>.out], or the caller's name. *)
Definition capture_name (c : catch_out_t) (prog : string) : string :=
  match c with
  | CatchBool _ => prog ++ ".out"
  | CatchName name => name
  end.

(** The header of the submission script, one directive per line, as the
    specification lists them. *)
Definition script_header (jn pt : string) (out : path) (time : string)
    (nt cpt mem slot_count : Z) : list string :=
  [ "#SBATCH --job-name=" ++ jn;
    "#SBATCH --partition=" ++ pt;
    "#SBATCH --output=" ++ path_str out ++ "/%J.out";
    "#SBATCH --time=" ++ time;
    "#SBATCH --ntasks=" ++ py_str nt;
    "#SBATCH --cpus-per-task=" ++ py_str cpt;
    "#SBATCH --mem-per-cpu=" ++ py_str mem ++ "G";
    "#SBATCH --array=0-" ++ py_str (slot_count - 1) ].

Fixpoint unlines (l : list string) : string :=
  match l with
  | [] => EmptyString
  | a :: rest => a ++ nl ++ unlines rest
  end.

(** The state with the instance changed by [g]. *)
Definition with_self (g : Executor -> Executor) (s : state) : state :=
  {| self := g (self s); disk := disk s |}.

(** The assignments [run] makes to the instance. *)
Definition set_cp (c : CompletedProcess) : state -> state :=
  with_self (fun e => set_completed_process e (Some c)).
Definition set_fm (m : option string) : state -> state :=
  with_self (fun e => set_failed_message e m).
Definition set_err (x : error_slot) : state -> state :=
  with_self (fun e => set_error e (Some x)).

(** What [run] resets before the [try] statement. *)
Definition reset (e : Executor) : Executor :=
  set_failed_message (set_completed_process e None) None.

(** The exception [fail] raises once the report is written. *)
Definition fail_exn (e : Executor) : exn :=
  match error e with
  | None => AttributeError "error"
  | Some ErrRunErrorClass =>
      match failed_message e with
      | Some (String a m) => RunError (String a m)
      | _ => RunError ""
      end
  | Some (ErrInstance x) =>
      if message_truthy (failed_message e) then TypeError else x
  end.

(** What the [except] clauses make of the outcome of the [try] body. *)
Definition handled {R} (x : result R * (state * list step))
  : result R * (state * list step) :=
  match x with
  | (Ok a, st) => (Ok a, st)
  | (Raise e, (s, tr)) =>
      match e with
      | OSError strerror => (Raise (RunError (launch_failure_text strerror)), (s, tr))
      | MemoryError | CalledProcessError _ _ _ =>
          match fail (set_err (ErrInstance e) s) with
          | (r, s') => (r, (s', (tr ++ [StepFail])%list))
          end
      | _ => (Raise e, (s, tr))
      end
  end.

(** What the [finally] clause makes of a pending outcome. *)
Definition cleaned {R} (x : result R * (state * list step))
  : result R * (state * list step) :=
  match x with
  | (r, (s, tr)) =>
      match cleanup s with
      | (Ok _, s') => (r, (s', (tr ++ [StepCleanup])%list))
      | (Raise e, s') => (Raise e, (s', (tr ++ [StepCleanup])%list))
      end
  end.

(** No directory of [d] is lost in [d']. *)
Definition dir_preserving (d d' : fs) : Prop :=
  forall q, is_dir d q = true -> is_dir d' q = true.

(** The instance [e'] has the keep flag of [e], and its temporary
    directory when [e] has one. *)
Definition keeps_temp (e e' : Executor) : Prop :=
  keep_tempdir e' = keep_tempdir e /\
  forall t, tempdir e = Some t -> tempdir e' = Some t.

(** A method that loses no directory and leaves the temporary-directory
    settings of the instance alone. *)
Definition preserves {A} (m : M A) : Prop :=
  forall s r s', m s = (r, s') ->
    dir_preserving (disk s) (disk s') /\ keeps_temp (self s) (self s').

(** A method that assigns no attribute of the instance but [tempdir]. *)
Definition instance_stable {A} (m : M A) : Prop :=
  forall s r s', m s = (r, s') ->
    self s' = set_tempdir (self s) (tempdir (self s')).

(** Override points that respect this frame. *)
Class Framed {R} (h : hooks R) (w : world) : Prop := {
  prepare_frame : preserves (prepare h w);
  isFailed_frame : preserves (isFailed h);
  finish_frame : preserves (finish h);
  prepare_stable : instance_stable (prepare h w);
  isFailed_stable : instance_stable (isFailed h);
  finish_stable : instance_stable (finish h)
}.

(** The report of [fail] can be written: capture is off, or the capture
    file takes the text. *)
Definition report_writable (s : state) : bool :=
  if catch_truthy (catch_out (self s))
  then match f_stdout (self s) with
       | Some p =>
           match write_text (disk s) p (error_string (self s)) with
           | Ok _ => true
           | Raise _ => false
           end
       | None => false
       end
  else true.

(** The state [fail] leaves. *)
Definition after_fail (s : state) : state := snd (@fail unit s).

(** [cleanup] does not raise. *)
Definition cleanup_succeeds (s : state) : bool :=
  match fst (cleanup s) with
  | Ok _ => true
  | Raise _ => false
  end.

(** The temporary directory [t] is created by the lifecycle itself: it is
    the fresh one of [mkdtemp], or the caller named a directory that does
    not exist yet and whose parent does. *)
Definition created_by_lifecycle (cls : string) (w : world) (e : Executor)
    (d : fs) (t : path) : Prop :=
  (tempdir e = None /\
   t = mkdtemp w d (program e ++ "_" ++ cls ++ "_")) \/
  (tempdir e = Some t /\ exists_ d t = false /\ is_dir d (parent t) = true).

(** ** Concrete worlds and disks for the examples *)

(** A disk with the directories [/work] and [/tmp] only. *)
Definition disk0 : fs :=
  update (update (fun _ => None) ["work"] Dir) ["tmp"] Dir.

(** [disk0] with a caller-owned directory [/tmp/mine] holding one file. *)
Definition disk_mine : fs :=
  update (update disk0 ["tmp"; "mine"] Dir)
         ["tmp"; "mine"; "notes.txt"] (File "keep me").

(** [disk0] where the place of the capture file [/work/ls.out] is taken
    by a directory. *)
Definition disk_capture_taken : fs := update disk0 ["work"; "ls.out"] Dir.

(** A world whose program exits with [rc] after printing [out]. *)
Definition world_exit (rc : Z) (out : string) : world :=
  {| subprocess_run := fun _ _ _ => Exited rc out;
     gettempdir := ["tmp"];
     mkdtemp_suffix := fun _ _ => "k3x9" |}.

(** A world whose launch ends as [l] says. *)
Definition world_launch (l : launch_result) : world :=
  {| subprocess_run := fun _ _ _ => l;
     gettempdir := ["tmp"];
     mkdtemp_suffix := fun _ _ => "k3x9" |}.

(** [disk_mine] with a directory [/tmp/vtools]. *)
Definition disk_vtools : fs := update disk_mine ["tmp"; "vtools"] Dir.

(** [Executor(['ls', '.'], catch_out=False, tempdir=t, keep_tempdir=k,
    cwd=/work)] *)
Definition ls_executor (t : option path) (k : bool) : Executor :=
  {| program := "ls"; args := ["ls"; "."]; catch_out := CatchBool false;
     keep_tempdir := k; cwd := ["work"]; tempdir := t; verbose := false;
     dir_out := None; f_stdout := None; completed_process := None;
     failed_message := None; error := None |}.

(** [Executor(['ls', '.'], catch_out=True, tempdir=t, keep_tempdir=k,
    cwd=/work, verbose=False)] *)
Definition ls_capture (t : option path) (k : bool) : Executor :=
  {| program := "ls"; args := ["ls"; "."]; catch_out := CatchBool true;
     keep_tempdir := k; cwd := ["work"]; tempdir := t; verbose := false;
     dir_out := None; f_stdout := Some ["work"; "ls.out"];
     completed_process := None; failed_message := None; error := None |}.

(** The instance of the unit test: [IbexRun(time_per_command=1,
    out_ibex=/tmp/ibextest, jobname='ibex_unittest', partition='debug',
    verbose=False)], constructed from [/work]. *)
Definition ibex_unittest : result IbexRun :=
  IbexRun_init 1 ["tmp"; "ibextest"] 1 "ibex_unittest" "debug" 1 1 2 1990
    {| kw_catch_out := CatchBool true; kw_dir_out := None;
       kw_tempdir := None; kw_keep_tempdir := false; kw_cwd := ["work"];
       kw_verbose := false |}.

(** ** Vocabulary of the further properties *)

(** A string none of whose characters is white space. *)
Definition no_space (s : string) : bool :=
  forallb (fun ch => negb (is_space ch)) (chars s).

(** The bytes of the words of a list. *)
Fixpoint total_length (words : list string) : nat :=
  match words with
  | [] => 0%nat
  | word :: rest => (String.length word + total_length rest)%nat
  end.

(** The bytes of the characters of a list. *)
Fixpoint bytes_of (cs : list string) : nat :=
  match cs with
  | [] => 0%nat
  | ch :: cs' => (String.length ch + bytes_of cs')%nat
  end.

(** Every node of [d] is in [d'], unchanged. *)
Definition nodes_kept (d d' : fs) : Prop :=
  forall q n, lookup d q = Some n -> lookup d' q = Some n.

(** Every node of [d] but the one at [p] is in [d'], unchanged. *)
Definition nodes_kept_but (p : option path) (d d' : fs) : Prop :=
  forall q n, Some q <> p -> lookup d q = Some n -> lookup d' q = Some n.

(** The capture file takes [text]: capture is off, or the write succeeds. *)
Definition capture_writable (s : state) (text : string) : bool :=
  if catch_truthy (catch_out (self s))
  then match f_stdout (self s) with
       | Some p =>
           match write_text (disk s) p text with
           | Ok _ => true
           | Raise _ => false
           end
       | None => false
       end
  else true.

(** The traces [run] can leave. *)
Definition run_traces : list (list step) :=
  [ [StepPrepare; StepCleanup];
    [StepPrepare; StepFail; StepCleanup];
    [StepPrepare; StepExecute; StepCleanup];
    [StepPrepare; StepExecute; StepFail; StepCleanup];
    [StepPrepare; StepExecute; StepFinish; StepCleanup];
    [StepPrepare; StepExecute; StepFinish; StepFail; StepCleanup] ].

(** A subclass that keeps [Executor.prepare] and [isFailed] and scrapes a
    job identifier in [finish], as [IbexRun.finish] does. *)
Definition IbexRun_hooks_base_prepare : hooks string :=
  {| class_name_lower := "jobid";
     prepare := Executor_prepare "jobid";
     isFailed := Executor_isFailed;
     finish := IbexRun_finish |}.

(* ================================================================== *)
(** * Properties *)

(** ** Binary64: where the rounding is invisible *)

Lemma one_pos : 0 < one.
Proof. unfold one. apply Z.pow_pos_nonneg; lia. Qed.

Lemma py_int_np_ceil (x : float64) :
  py_int (np_ceil x) = - ((- units x) / one).
Proof.
  unfold py_int, np_ceil. cbn [units].
  apply Z.quot_mul. pose proof one_pos. lia.
Qed.

Lemma py_int_np_floor (x : float64) : py_int (np_floor x) = units x / one.
Proof.
  unfold py_int, np_floor. cbn [units].
  apply Z.quot_mul. pose proof one_pos. lia.
Qed.

(** The rounded integer is within half a step of the quotient. *)
Lemma round_half_even_near (n d : Z) :
  0 < d ->
  2 * (round_half_even n d * d - n) <= d /\
  2 * (n - round_half_even n d * d) <= d.
Proof.
  intros Hd. unfold round_half_even.
  pose proof (Z.div_mod n d ltac:(lia)) as Hdm.
  pose proof (Z.mod_pos_bound n d Hd) as Hm.
  destruct (Z.compare_spec (2 * (n mod d)) d) as [He|Hl|Hg].
  - destruct (Z.even (n / d)); nia.
  - nia.
  - nia.
Qed.

(** The scale of the rounding below 2^53: a step of [2 ^ t] units with
    [t <= 1074], fine enough for more than [d / 2] steps in [1.0]. *)
Lemma scale_small (n d : Z) :
  0 < n < 2 ^ 53 -> 0 < d < 2 ^ 53 ->
  let t := Z.max 0 (Z.log2 (n * one / d) - 52) in
  0 <= t <= 1074 /\ d * 2 ^ t < 2 * one.
Proof.
  intros Hn Hd t.
  pose proof one_pos as H1.
  assert (Hq : 0 <= n * one / d) by (apply Z.div_pos; nia).
  assert (Hqle : n * one / d <= n * one).
  { apply Z.div_le_upper_bound; nia. }
  assert (Hlt : n * one < 2 ^ 1127).
  { change (2 ^ 1127) with (2 ^ 53 * one). nia. }
  destruct (Z.max_spec 0 (Z.log2 (n * one / d) - 52)) as [[Hl Ht]|[Hl Ht]];
    fold t in Ht; rewrite Ht.
  - assert (Hqpos : 0 < n * one / d).
    { destruct (Z.eq_dec (n * one / d) 0) as [E|]; [|lia].
      rewrite E in Hl. simpl in Hl. lia. }
    assert (Hlog : Z.log2 (n * one / d) < 1127).
    { apply Z.log2_lt_pow2; lia. }
    split; [lia|].
    pose proof (Z.log2_spec _ Hqpos) as [Hlo _].
    set (l := Z.log2 (n * one / d)) in *.
    assert (Hmul : d * (n * one / d) <= n * one).
    { apply Z.mul_div_le; lia. }
    assert (Hp : 2 ^ l = 2 ^ 52 * 2 ^ (l - 52)).
    { rewrite <- Z.pow_add_r by lia. f_equal. lia. }
    assert (Hpp : 0 < 2 ^ (l - 52)) by (apply Z.pow_pos_nonneg; lia).
    assert (Hb1 : d * 2 ^ l <= d * (n * one / d))
      by (apply Z.mul_le_mono_nonneg_l; lia).
    assert (Hb2 : n * one < 2 ^ 53 * one)
      by (apply Z.mul_lt_mono_pos_r; lia).
    rewrite Hp in Hb1.
    assert (Hb : 2 ^ 52 * (d * 2 ^ (l - 52)) < 2 ^ 52 * (2 * one)).
    { change (2 ^ 53) with (2 ^ 52 * 2) in Hb2. lia. }
    apply Z.mul_lt_mono_pos_l in Hb; [exact Hb | reflexivity].
  - split; [lia|]. change (2 ^ 0) with 1.
    change (2 ^ 53) with (2 * 2 ^ 52) in Hd.
    assert (2 ^ 52 < one) by (unfold one; apply Z.pow_lt_mono_r; lia).
    lia.
Qed.

(** Below 2^53 the floor and the ceiling of the rounded quotient are
    those of the exact quotient. *)
Lemma round_binary64_small (n d : Z) :
  0 < n < 2 ^ 53 -> 0 < d < 2 ^ 53 ->
  round_binary64 n d / one = n / d /\
  - ((- round_binary64 n d) / one) = - ((- n) / d).
Proof.
  intros Hn Hd. unfold round_binary64.
  destruct (scale_small n d Hn Hd) as [Ht Hs].
  set (t := Z.max 0 (Z.log2 (n * one / d) - 52)) in *.
  pose proof one_pos as H1.
  assert (Hpt : 0 < 2 ^ t) by (apply Z.pow_pos_nonneg; lia).
  assert (Hone : one = 2 ^ t * 2 ^ (1074 - t)).
  { unfold one. rewrite <- Z.pow_add_r by lia. f_equal. lia. }
  set (P := 2 ^ (1074 - t)) in *.
  assert (HP : 0 < P) by (apply Z.pow_pos_nonneg; lia).
  set (T := 2 ^ t) in *.
  destruct (round_half_even_near (n * one) (d * T) ltac:(nia)) as [Hup Hlo].
  set (m := round_half_even (n * one) (d * T)) in *.
  assert (HdP : d < 2 * P) by nia.
  split.
  - pose proof (Z.div_mod n d ltac:(lia)) as Hdm.
    pose proof (Z.mod_pos_bound n d ltac:(lia)) as Hm.
    set (q := n / d) in *.
    symmetry. apply Z.div_unique with (r := m * T - q * one).
    + left. rewrite Hone in *.
      assert (Hlow : q * P <= m).
      { assert (2 * (q * P) * (d * T) <= 2 * m * (d * T) + d * T) by nia.
        assert (2 * (q * P) <= 2 * m + 1) by nia. lia. }
      assert (Hhigh : m < (q + 1) * P).
      { assert (2 * m * (d * T) < 2 * ((q + 1) * P) * (d * T)).
        { assert (n + 1 <= (q + 1) * d) by nia.
          assert (2 * (n * (T * P)) + 2 * (T * P)
                  <= 2 * ((q + 1) * d) * (T * P)) by nia.
          nia. }
        nia. }
      nia.
    + lia.
  - pose proof (Z.div_mod (- n) d ltac:(lia)) as Hdm.
    pose proof (Z.mod_pos_bound (- n) d ltac:(lia)) as Hm.
    set (q := (- n) / d) in *.
    f_equal. symmetry. apply Z.div_unique with (r := - (m * T) - q * one).
    + left. rewrite Hone in *.
      assert (Hhigh : m <= - q * P).
      { assert (2 * m * (d * T) <= 2 * (- q * P) * (d * T) + d * T) by nia.
        assert (2 * m <= 2 * (- q * P) + 1) by nia. lia. }
      assert (Hlow : - (q + 1) * P < m).
      { assert (2 * (- (q + 1) * P) * (d * T) < 2 * m * (d * T)).
        { assert (- (q + 1) * d + 1 <= n) by nia.
          assert (2 * (- (q + 1) * d) * (T * P) + 2 * (T * P)
                  <= 2 * (n * (T * P))) by nia.
          nia. }
        nia. }
      nia.
    + lia.
Qed.

Lemma round_binary64_zero (d : Z) : 0 < d -> round_binary64 0 d = 0.
Proof.
  intros Hd. unfold round_binary64. rewrite Z.mul_0_l, Z.div_0_l by lia.
  change (Z.max 0 (Z.log2 0 - 52)) with 0. change (2 ^ 0) with 1.
  rewrite !Z.mul_1_r.
  unfold round_half_even. rewrite Z.div_0_l, Z.mod_0_l by lia.
  destruct (Z.compare_spec (2 * 0) d); try lia; reflexivity.
Qed.

Lemma py_truediv_opp (a b : Z) : py_truediv (- a) (- b) = py_truediv a b.
Proof.
  unfold py_truediv. rewrite !Z.abs_opp, !Z.sgn_opp.
  replace (- Z.sgn a * - Z.sgn b) with (Z.sgn a * Z.sgn b) by lia.
  destruct (Z.eqb_spec (- b) 0), (Z.eqb_spec b 0); try lia; reflexivity.
Qed.

Lemma py_truediv_small_pos (a b : Z) :
  fits53 a -> 0 < b < 2 ^ 53 ->
  exists x, py_truediv a b = Ok x /\
    py_int (np_ceil x) = - ((- a) / b) /\
    py_int (np_floor x) = a / b.
Proof.
  unfold fits53. intros Ha Hb. unfold py_truediv.
  destruct (Z.eqb_spec b 0) as [|_]; [lia|].
  pose proof one_pos as H1.
  rewrite (Z.abs_eq b), (Z.sgn_pos b), Z.mul_1_r by lia.
  destruct (Z.eq_dec a 0) as [->|Ha0].
  - change (Z.abs 0) with 0. rewrite (round_binary64_zero _ (proj1 Hb)).
    destruct (Z.leb_spec (2 ^ 1024 * one) 0) as [Hle|_]; [nia|].
    eexists. split; [reflexivity|].
    rewrite py_int_np_ceil, py_int_np_floor. cbn [units].
    rewrite Z.mul_0_r. change (- 0) with 0. rewrite !Z.div_0_l by lia.
    split; reflexivity.
  - assert (Hn : 0 < Z.abs a < 2 ^ 53) by lia.
    destruct (round_binary64_small _ _ Hn Hb) as [Hfl Hce].
    set (u := round_binary64 (Z.abs a) b) in *.
    assert (Hu : u < 2 ^ 1024 * one).
    { assert (Hq : u / one < 2 ^ 53).
      { rewrite Hfl. apply Z.div_lt_upper_bound; nia. }
      pose proof (Z.div_mod u one ltac:(lia)) as Hdm.
      pose proof (Z.mod_pos_bound u one H1) as Hm.
      assert (2 ^ 53 + 1 <= 2 ^ 1024) by (vm_compute; discriminate).
      nia. }
    destruct (Z.leb_spec (2 ^ 1024 * one) u) as [Hle|_]; [lia|].
    eexists. split; [reflexivity|].
    rewrite py_int_np_ceil, py_int_np_floor. cbn [units].
    destruct (Z_lt_ge_dec a 0) as [Hneg|Hpos].
    + rewrite (Z.abs_neq a) in Hfl, Hce by lia.
      rewrite (Z.sgn_neg a) by lia.
      replace (-1 * u) with (- u) by lia.
      rewrite Z.opp_involutive in *. split; [rewrite Hfl; reflexivity | lia].
    + rewrite (Z.abs_eq a) in Hfl, Hce by lia.
      rewrite (Z.sgn_pos a) by lia. rewrite Z.mul_1_l.
      split; assumption.
Qed.

(** Within 53 bits the quotient of two [int]s never overflows, and its
    rounding is invisible to [np.ceil] and [np.floor]. *)
Lemma py_truediv_small (a b : Z) :
  fits53 a -> fits53 b -> b <> 0 ->
  exists x, py_truediv a b = Ok x /\
    py_int (np_ceil x) = - ((- a) / b) /\
    py_int (np_floor x) = a / b.
Proof.
  unfold fits53. intros Ha Hb Hb0.
  destruct (Z_lt_ge_dec 0 b) as [Hpos|Hneg].
  - apply py_truediv_small_pos; [exact Ha | lia].
  - destruct (py_truediv_small_pos (- a) (- b)) as (x & Hx & Hc & Hf);
      [unfold fits53; lia | lia |].
    rewrite py_truediv_opp in Hx. exists x. split; [exact Hx|].
    rewrite Hc, Hf. rewrite !Z.div_opp_opp by lia. split; reflexivity.
Qed.

Lemma py_truediv_raises (a b : Z) (e : exn) :
  py_truediv a b = Raise e ->
  (b = 0 /\ e = ZeroDivisionError) \/ (b <> 0 /\ e = OverflowError).
Proof.
  unfold py_truediv. destruct (Z.eqb_spec b 0) as [Hb|Hb].
  - intros H. inversion H. auto.
  - destruct (2 ^ 1024 * one <=? _); intros H; inversion H. auto.
Qed.

(** ** Arithmetic of the plan *)

Lemma np_ceil_div_small (a b : Z) :
  fits53 a -> fits53 b -> b <> 0 -> np_ceil_div a b = Ok (- ((- a) / b)).
Proof.
  intros Ha Hb Hb0. unfold np_ceil_div.
  destruct (py_truediv_small a b Ha Hb Hb0) as (x & -> & Hc & _).
  cbn [bind]. rewrite Hc. reflexivity.
Qed.

Lemma np_ceil_div_zero (a : Z) : np_ceil_div a 0 = Raise ZeroDivisionError.
Proof. reflexivity. Qed.

Lemma np_ceil_div_raises (a b : Z) (e : exn) :
  np_ceil_div a b = Raise e ->
  (b = 0 /\ e = ZeroDivisionError) \/ (b <> 0 /\ e = OverflowError).
Proof.
  unfold np_ceil_div. destruct (py_truediv a b) as [x|e'] eqn:E; cbn [bind].
  - discriminate.
  - intros H. inversion H. subst e'. apply (py_truediv_raises _ _ _ E).
Qed.

Lemma np_ceil_div_ok (a b q : Z) :
  fits53 a -> fits53 b ->
  np_ceil_div a b = Ok q -> b <> 0 /\ q = - ((- a) / b).
Proof.
  intros Ha Hb H.
  assert (Hb0 : b <> 0).
  { intros ->. rewrite np_ceil_div_zero in H. discriminate. }
  rewrite (np_ceil_div_small a b Ha Hb Hb0) in H. inversion H. auto.
Qed.

Lemma ceil_div_is_ceil (a b : Z) : b <> 0 -> is_ceil a b (- ((- a) / b)).
Proof.
  intros Hb. unfold is_ceil.
  pose proof (Z.div_mod (- a) b Hb) as Hdm.
  destruct (Z_lt_ge_dec 0 b) as [Hpos | Hneg].
  - left. pose proof (Z.mod_pos_bound (- a) b Hpos). split; [assumption|nia].
  - right. assert (Hlt : b < 0) by lia.
    pose proof (Z.mod_neg_bound (- a) b Hlt). split; [assumption|nia].
Qed.

Lemma is_ceil_unique (a b q q' : Z) : is_ceil a b q -> is_ceil a b q' -> q = q'.
Proof. unfold is_ceil. intros [[? ?]|[? ?]] [[? ?]|[? ?]]; nia. Qed.

(** The ceiling of a quotient is no larger in magnitude than the
    dividend. *)
Lemma ceil_fits53 (a b : Z) : b <> 0 -> fits53 a -> fits53 (- ((- a) / b)).
Proof.
  unfold fits53. intros Hb Ha.
  destruct (ceil_div_is_ceil a b Hb) as [[Hp Hc]|[Hn Hc]];
    set (q := - ((- a) / b)) in *; nia.
Qed.

(** ** The characters of a string *)

Lemma chars_cons (c : ascii) (s : string) :
  exists ch rest, chars (String c s) = String c ch :: rest.
Proof.
  simpl. destruct (chars s) as [|ch rest]; [eauto|].
  destruct (starts_with_continuation ch); eauto.
Qed.

(** A byte that is followed by the start of a character is a character of
    its own. *)
Lemma chars_plain (c : ascii) (s : string) :
  starts_with_continuation s = false ->
  chars (String c s) = String c EmptyString :: chars s.
Proof.
  destruct s as [|c' s']; [reflexivity|]. intros Hs.
  destruct (chars_cons c' s') as (ch & rest & E).
  change (chars (String c (String c' s')))
    with (match chars (String c' s') with
          | ch :: rest =>
              if starts_with_continuation ch then String c ch :: rest
              else String c EmptyString :: ch :: rest
          | [] => [String c EmptyString]
          end).
  rewrite E. cbn [starts_with_continuation] in *. rewrite Hs. reflexivity.
Qed.

Lemma join_chars_chars (s : string) : join_chars (chars s) = s.
Proof.
  induction s as [|c s IH]; [reflexivity|]. simpl.
  destruct (chars s) as [|ch rest]; simpl in *.
  - rewrite <- IH. reflexivity.
  - destruct (starts_with_continuation ch); simpl; rewrite <- IH; reflexivity.
Qed.

Lemma path_str_slash (p : path) : exists r, path_str p = String "/" r.
Proof. destruct p as [|c rest]; simpl; eauto. Qed.

Lemma split_ws_sbatch (p : path) :
  split_ws ("sbatch " ++ path_str p) = "sbatch" :: split_ws (path_str p).
Proof.
  destruct (path_str_slash p) as (r & ->). unfold split_ws.
  cbn [append].
  rewrite !chars_plain by reflexivity.
  reflexivity.
Qed.

Lemma time_str_small (c t : Z) :
  fits53 (c * t) ->
  time_str c t =
    Ok (py_format_0 2 ((c * t) / 60) ++ ":" ++
        py_format_0 2 ((c * t) mod 60) ++ ":00").
Proof.
  intros Hf. unfold time_str.
  destruct (py_truediv_small (c * t) 60 Hf) as (x & -> & _ & Hfl);
    [unfold fits53; vm_compute; reflexivity | discriminate |].
  cbn [bind]. rewrite Hfl, py_int_np_ceil. cbn [units].
  rewrite <- Z.mul_opp_l, Z.div_mul by (pose proof one_pos; lia).
  rewrite Z.opp_involutive. reflexivity.
Qed.

Lemma time_str_raises (c t : Z) (e : exn) :
  time_str c t = Raise e -> e = OverflowError.
Proof.
  unfold time_str. destruct (py_truediv (c * t) 60) as [x|e'] eqn:E;
    cbn [bind]; [discriminate|].
  intros H. inversion H. subst e'.
  destruct (py_truediv_raises _ _ _ E) as [[? _]|[_ ?]]; [discriminate|assumption].
Qed.

Lemma IbexRun_init_inv tpc out n jn pt nt cpt mem m kw ib :
  IbexRun_init tpc out n jn pt nt cpt mem m kw = Ok ib ->
  np_ceil_div n m = Ok (commands_per_job ib) /\
  np_ceil_div n (commands_per_job ib) = Ok (njobs ib) /\
  time_str (commands_per_job ib) tpc = Ok (time_per_job ib) /\
  script_file ib = path_join out "script.sh" /\
  out_ibex ib = out /\ ncommands ib = n /\ max_jobs ib = m.
Proof.
  unfold IbexRun_init.
  destruct (np_ceil_div n m) as [cpj|] eqn:E1; [|discriminate]. cbn [bind].
  destruct (np_ceil_div n cpj) as [nj|] eqn:E2; [|discriminate]. cbn [bind].
  destruct (time_str cpj tpc) as [tpj|] eqn:E3; [|discriminate]. cbn [bind].
  rewrite split_ws_sbatch. cbn [Executor_init bind].
  intros H. inversion H. simpl. auto 10.
Qed.

(** The constructor returns as soon as its three computations do. *)
Lemma IbexRun_init_total tpc out n jn pt nt cpt mem m kw cpj nj tpj :
  np_ceil_div n m = Ok cpj ->
  np_ceil_div n cpj = Ok nj ->
  time_str cpj tpc = Ok tpj ->
  exists ib, IbexRun_init tpc out n jn pt nt cpt mem m kw = Ok ib.
Proof.
  intros H1 H2 H3. unfold IbexRun_init. rewrite H1. cbn [bind].
  rewrite H2. cbn [bind]. rewrite H3. cbn [bind].
  rewrite split_ws_sbatch. cbn [Executor_init bind]. eauto.
Qed.

(** C1 (amended).  For every [IbexRun] that is constructed from an item
    count and a slot maximum below 2^53 in magnitude, the items per slot
    are the ceiling of [ncommands / max_jobs] with no clamp applied (the
    value is at least 1 as soon as both inputs are at least 1), the slot
    count is the ceiling of [ncommands / commands_per_job], and for
    [ncommands = 1990], [max_jobs = 1990], [time_per_command = 1] the plan
    is 1 item per slot, 1990 slots and the time ["00:01:00"]. *)
Theorem C1_batch_plan tpc out n jn pt nt cpt mem m kw ib :
  fits53 n -> fits53 m ->
  IbexRun_init tpc out n jn pt nt cpt mem m kw = Ok ib ->
  is_ceil n m (commands_per_job ib) /\
  is_ceil n (commands_per_job ib) (njobs ib) /\
  (1 <= n -> 1 <= m -> commands_per_job ib = Z.max 1 (commands_per_job ib)) /\
  (n = 1990 -> m = 1990 -> tpc = 1 ->
   commands_per_job ib = 1 /\ njobs ib = 1990 /\ time_per_job ib = "00:01:00").
Proof.
  intros Fn Fm Hinit.
  destruct (IbexRun_init_inv _ _ _ _ _ _ _ _ _ _ _ Hinit)
    as (H1 & H2 & Ht & _).
  apply (np_ceil_div_ok _ _ _ Fn Fm) in H1 as [Hm Hc].
  assert (Fc : fits53 (commands_per_job ib))
    by (rewrite Hc; apply ceil_fits53; assumption).
  apply (np_ceil_div_ok _ _ _ Fn Fc) in H2 as [Hc0 Hj].
  pose proof (ceil_div_is_ceil n m Hm) as C1. rewrite <- Hc in C1.
  pose proof (ceil_div_is_ceil n _ Hc0) as C2. rewrite <- Hj in C2.
  repeat split; try assumption.
  - intros Hn Hm1. destruct C1 as [[_ C1]|[C1 _]]; [|lia].
    assert (1 <= commands_per_job ib) by nia. lia.
  - subst n m. rewrite Hc. reflexivity.
  - subst n m. rewrite Hj, Hc. reflexivity.
  - subst n m tpc. rewrite Hc in Ht.
    change (- (- 1990 / 1990)) with 1 in Ht.
    rewrite time_str_small in Ht by (unfold fits53; vm_compute; reflexivity).
    inversion Ht. reflexivity.
Qed.

Lemma C1_batch_plan_witness :
  exists ib,
    IbexRun_init 1 ["out"] 1990 "IbexRun" "batch" 1 1 2 1990 default_kw = Ok ib /\
    (is_ceil 1990 1990 (commands_per_job ib) /\
     is_ceil 1990 (commands_per_job ib) (njobs ib) /\
     (1 <= 1990 -> 1 <= 1990 ->
      commands_per_job ib = Z.max 1 (commands_per_job ib)) /\
     (1990 = 1990 -> 1990 = 1990 -> 1 = 1 ->
      commands_per_job ib = 1 /\ njobs ib = 1990 /\
      time_per_job ib = "00:01:00")).
Proof.
  eexists. split.
  - vm_compute. reflexivity.
  - apply (C1_batch_plan 1 ["out"] 1990 "IbexRun" "batch" 1 1 2 1990 default_kw);
      [unfold fits53; vm_compute; reflexivity
      | unfold fits53; vm_compute; reflexivity
      | vm_compute; reflexivity].
Defined.

(** C1 as stated fails: with [ncommands = -1990] and [max_jobs = 1990] the
    instance is constructed with [-1] items per slot, not with the ceiling
    clamped to 1. *)
Lemma C1_counterexample :
  exists ib,
    IbexRun_init 1 ["out"] (-1990) "IbexRun" "batch" 1 1 2 1990 default_kw = Ok ib /\
    ~ (exists q, is_ceil (-1990) 1990 q /\ commands_per_job ib = Z.max 1 q).
Proof.
  eexists. split; [vm_compute; reflexivity|].
  cbn [commands_per_job]. intros (q & Hq & Hc). unfold is_ceil in Hq. lia.
Qed.

(** Beyond 53 bits the quotient is rounded before its ceiling is taken:
    of 2^53 + 1 items in one slot, the plan holds 2^53. *)
Example plan_rounded :
  exists ib,
    IbexRun_init 1 ["out"] (2 ^ 53 + 1) "IbexRun" "batch" 1 1 2 1 default_kw
      = Ok ib /\
    commands_per_job ib = 2 ^ 53 /\ njobs ib = 1.
Proof. eexists. split; [vm_compute; reflexivity|]. split; reflexivity. Qed.

(** Beyond the range of binary64 there is no plan at all. *)
Example plan_overflow :
  IbexRun_init 1 ["out"] (10 ^ 400) "IbexRun" "batch" 1 1 2 1990 default_kw
    = Raise OverflowError.
Proof. vm_compute. reflexivity. Qed.

(** C2 (amended).  For every [IbexRun] constructed from a non-negative item
    count and a positive slot maximum, both below 2^53: [njobs <= max_jobs],
    [commands_per_job * njobs >= ncommands] and [commands_per_job >= 1]. *)
Theorem C2_plan_invariant tpc out n jn pt nt cpt mem m kw ib :
  0 <= n < 2 ^ 53 -> 0 < m < 2 ^ 53 ->
  IbexRun_init tpc out n jn pt nt cpt mem m kw = Ok ib ->
  njobs ib <= m /\
  commands_per_job ib * njobs ib >= n /\
  commands_per_job ib >= 1.
Proof.
  intros Hn Hm Hinit.
  assert (Fn : fits53 n) by (unfold fits53; lia).
  assert (Fm : fits53 m) by (unfold fits53; lia).
  destruct (IbexRun_init_inv _ _ _ _ _ _ _ _ _ _ _ Hinit)
    as (H1 & H2 & _).
  apply (np_ceil_div_ok _ _ _ Fn Fm) in H1 as [Hm0 Hc].
  assert (Fc : fits53 (commands_per_job ib))
    by (rewrite Hc; apply ceil_fits53; assumption).
  apply (np_ceil_div_ok _ _ _ Fn Fc) in H2 as [Hc0 Hj].
  pose proof (ceil_div_is_ceil n m Hm0) as C1. rewrite <- Hc in C1.
  pose proof (ceil_div_is_ceil n _ Hc0) as C2. rewrite <- Hj in C2.
  destruct C1 as [[_ C1]|[C1 _]]; [|lia].
  assert (Hpos : 1 <= commands_per_job ib) by nia.
  destruct C2 as [[_ C2]|[C2 _]]; [|lia].
  repeat split; nia.
Qed.

Lemma C2_plan_invariant_witness :
  exists ib,
    IbexRun_init 1 ["out"] 4000 "IbexRun" "batch" 1 1 2 1990 default_kw = Ok ib /\
    (njobs ib <= 1990 /\
     commands_per_job ib * njobs ib >= 4000 /\
     commands_per_job ib >= 1).
Proof.
  eexists. split.
  - vm_compute. reflexivity.
  - apply (C2_plan_invariant 1 ["out"] 4000 "IbexRun" "batch" 1 1 2 1990
             default_kw); [lia | lia | vm_compute; reflexivity].
Defined.

(** C2 as stated fails: [ncommands = -1990] with the positive maximum 1990
    is constructed, with [commands_per_job = -1]. *)
Lemma C2_counterexample :
  exists ib,
    IbexRun_init 1 ["out"] (-1990) "IbexRun" "batch" 1 1 2 1990 default_kw = Ok ib /\
    0 < max_jobs ib /\
    ~ (njobs ib <= max_jobs ib /\
       commands_per_job ib * njobs ib >= ncommands ib /\
       commands_per_job ib >= 1).
Proof.
  eexists. split; [vm_compute; reflexivity|].
  cbn [max_jobs njobs commands_per_job ncommands]. split; [lia|]. lia.
Qed.

(** The invariant needs the bound: of 2^53 + 1 items the rounded plan
    covers 2^53. *)
Example plan_rounded_short :
  exists ib,
    IbexRun_init 1 ["out"] (2 ^ 53 + 1) "IbexRun" "batch" 1 1 2 1 default_kw
      = Ok ib /\
    commands_per_job ib * njobs ib < ncommands ib.
Proof. eexists. split; [vm_compute; reflexivity|]. reflexivity. Qed.

(** Every plan with at least one item and at least one slot (and a time
    budget within 53 bits) is constructed; an empty plan, or no slot at
    all, raises [ZeroDivisionError]. *)
Lemma IbexRun_init_positive tpc out n jn pt nt cpt mem m kw :
  1 <= n < 2 ^ 53 -> 1 <= m < 2 ^ 53 -> fits53 (n * tpc) ->
  exists ib, IbexRun_init tpc out n jn pt nt cpt mem m kw = Ok ib.
Proof.
  intros Hn Hm Ht.
  assert (Fn : fits53 n) by (unfold fits53; lia).
  assert (Fm : fits53 m) by (unfold fits53; lia).
  assert (Hm0 : m <> 0) by lia.
  pose proof (ceil_div_is_ceil n m Hm0) as C.
  set (cpj := - ((- n) / m)) in *.
  assert (Hc : 1 <= cpj <= n) by (destruct C as [[_ C]|[C _]]; nia).
  apply (IbexRun_init_total _ _ _ _ _ _ _ _ _ _ cpj (- ((- n) / cpj))
           (py_format_0 2 ((cpj * tpc) / 60) ++ ":" ++
            py_format_0 2 ((cpj * tpc) mod 60) ++ ":00")).
  - apply np_ceil_div_small; assumption.
  - apply np_ceil_div_small; [assumption | unfold fits53; lia | lia].
  - apply time_str_small. unfold fits53 in *. nia.
Qed.

Lemma IbexRun_init_zero tpc out jn pt nt cpt mem m kw :
  fits53 m ->
  IbexRun_init tpc out 0 jn pt nt cpt mem m kw = Raise ZeroDivisionError.
Proof.
  intros Fm. unfold IbexRun_init.
  destruct (Z.eq_dec m 0) as [->|Hm]; [reflexivity|].
  rewrite (np_ceil_div_small 0 m) by (assumption || (unfold fits53; vm_compute; reflexivity)).
  cbn [bind]. change (- 0) with 0. rewrite Z.div_0_l by assumption.
  reflexivity.
Qed.

(** ** The time budget *)

Lemma py_str_two_digits (n : Z) :
  10 <= n -> (2 <= String.length (py_str n))%nat.
Proof.
  intros Hn. destruct n as [|p|p]; try lia.
  unfold py_str. simpl.
  pose proof (Unsigned.of_to p) as Hp.
  destruct (Pos.to_uint p) as [|d|d|d|d|d|d|d|d|d|d] eqn:E;
    try (destruct d; simpl; try lia; simpl in Hp; vm_compute in Hp; lia).
  simpl in Hp. discriminate.
Qed.

Lemma py_format_0_pad2 (n : Z) : 0 <= n -> py_format_0 2 n = pad2 n.
Proof.
  intros Hn. unfold py_format_0, pad2.
  destruct (Z.ltb_spec n 0); [lia|].
  destruct (Z.ltb_spec n 10) as [Hlt | Hge].
  - rewrite <- (Z2Nat.id n Hn).
    assert (Hk : (Z.to_nat n < 10)%nat) by lia.
    revert Hk. generalize (Z.to_nat n). intros k Hk.
    do 10 (destruct k as [|k]; [reflexivity|]). lia.
  - pose proof (py_str_two_digits n Hge) as Hlen.
    replace (2 - String.length (py_str n))%nat with 0%nat by lia.
    reflexivity.
Qed.

(** C6 (amended).  For non-negative [commands_per_job] and [t_per_command]
    whose product [m] stays below 2^53, [time_str] returns
    [pad2 (m / 60) ++ ":" ++ pad2 (m mod 60) ++ ":00"]: the hours are the
    floor of [m / 60], the minutes the remainder (an integer, hence its own
    ceiling), both zero-padded to two digits. *)
Theorem C6_time_str (c t : Z) :
  0 <= c -> 0 <= t -> c * t < 2 ^ 53 ->
  time_str c t =
    Ok (pad2 ((c * t) / 60) ++ ":" ++ pad2 ((c * t) mod 60) ++ ":00").
Proof.
  intros Hc Ht Hb.
  assert (Hm : 0 <= c * t) by nia.
  rewrite time_str_small by (unfold fits53; lia).
  rewrite !py_format_0_pad2.
  - reflexivity.
  - apply Z.mod_pos_bound. lia.
  - apply Z.div_pos; lia.
Qed.

Lemma C6_time_str_witness :
  time_str 7 25 =
    Ok (pad2 ((7 * 25) / 60) ++ ":" ++ pad2 ((7 * 25) mod 60) ++ ":00").
Proof. apply (C6_time_str 7 25); lia. Defined.

(** C6 as stated fails for a large budget: the hours are the floor of the
    rounded quotient.  With 16888498602639419 minutes the exact quotient
    by 60 is 281474976710656 and 59/60, which binary64 rounds up to
    281474976710657, and that is the hour field. *)
Lemma C6_counterexample :
  0 <= 16888498602639419 /\ 0 <= 1 /\
  time_str 16888498602639419 1 = Ok "281474976710657:59:00" /\
  pad2 ((16888498602639419 * 1) / 60) ++ ":" ++
  pad2 ((16888498602639419 * 1) mod 60) ++ ":00" = "281474976710656:59:00".
Proof. repeat split; try lia; vm_compute; reflexivity. Qed.

Example time_str_1_1 : time_str 1 1 = Ok "00:01:00".
Proof. vm_compute. reflexivity. Qed.

Example time_str_7_25 : time_str 7 25 = Ok "02:55:00".
Proof. vm_compute. reflexivity. Qed.

Example time_str_long : time_str 100 61 = Ok "101:40:00".
Proof. vm_compute. reflexivity. Qed.

(** A budget beyond the range of binary64 has no rendering. *)
Example time_str_overflow : time_str (10 ^ 400) 1 = Raise OverflowError.
Proof. vm_compute. reflexivity. Qed.

(** ** The lifecycle: how [run] unfolds *)

Lemma modify_self_eq (g : Executor -> Executor) (s : state) :
  modify_self g s = (Ok tt, with_self g s).
Proof. reflexivity. Qed.

Lemma mbind_ok {S A B} (m : Mon S A) (k : A -> Mon S B) s a s' :
  m s = (Ok a, s') -> mbind m k s = k a s'.
Proof. unfold mbind. intros ->. reflexivity. Qed.

Lemma mbind_raise {S A B} (m : Mon S A) (k : A -> Mon S B) s e s' :
  m s = (Raise e, s') -> mbind m k s = (Raise e, s').
Proof. unfold mbind. intros ->. reflexivity. Qed.

Lemma lift_eq {A} (m : M A) s tr r s' :
  m s = (r, s') -> lift m (s, tr) = (r, (s', tr)).
Proof. unfold lift. intros ->. reflexivity. Qed.

Lemma enter_eq (x : step) s tr : enter x (s, tr) = (Ok tt, (s, (tr ++ [x])%list)).
Proof. reflexivity. Qed.

Lemma lift_bind {A B} (m : M A) (k : A -> L B) s tr a s' :
  m s = (Ok a, s') -> mbind (lift m) k (s, tr) = k a (s', tr).
Proof. intros H. apply mbind_ok. apply lift_eq. exact H. Qed.

Lemma lift_bind_raise {A B} (m : M A) (k : A -> L B) s tr e s' :
  m s = (Raise e, s') -> mbind (lift m) k (s, tr) = (Raise e, (s', tr)).
Proof. intros H. apply mbind_raise. apply lift_eq. exact H. Qed.

Lemma enter_bind {B} (x : step) (k : unit -> L B) s tr :
  mbind (enter x) k (s, tr) = k tt (s, (tr ++ [x])%list).
Proof. reflexivity. Qed.

(** [run] is the [try] body, then the [except] clauses, then [finally]. *)
Lemma run_eq {R} (h : hooks R) (w : world) s tr :
  run h w (s, tr) = cleaned (handled (run_body h w (with_self reset s, tr))).
Proof.
  unfold run.
  rewrite (lift_bind _ _ s tr tt (with_self reset s)) by reflexivity.
  unfold try_finally, try_except.
  destruct (run_body h w (with_self reset s, tr)) as [[a|e] [s1 tr1]];
    unfold cleaned, handled, mbind, enter, lift.
  - destruct (cleanup s1) as [[[]|e] s2]; reflexivity.
  - destruct e; cbn -[fail cleanup];
      try (destruct (cleanup s1) as [[[]|e'] s2]; reflexivity);
      destruct (fail _) as [r s2];
      destruct (cleanup s2) as [[[]|e'] s3]; destruct r; reflexivity.
Qed.

Lemma execute_eq (w : world) (s : state) :
  execute w s =
  (if is_dir (disk s) (cwd (self s))
   then match subprocess_run w (disk s) (args (self s)) (cwd (self s)) with
        | LaunchError msg => Raise (OSError msg)
        | LaunchUndecodable => Raise UnicodeDecodeError
        | LaunchOutOfMemory => Raise MemoryError
        | Exited rc out =>
            Ok {| cp_args := args (self s); cp_returncode := rc;
                  cp_stdout := out |}
        end
   else Raise (OSError (if exists_ (disk s) (cwd (self s))
                        then "Not a directory"
                        else "No such file or directory")), s).
Proof.
  unfold execute, mbind, get_self, get_disk, ret, raise.
  destruct (is_dir (disk s) (cwd (self s))); [|reflexivity].
  destruct (subprocess_run w (disk s) (args (self s)) (cwd (self s)));
    reflexivity.
Qed.

Lemma execute_state (w : world) s r s' : execute w s = (r, s') -> s' = s.
Proof. rewrite execute_eq. intros H. inversion H. reflexivity. Qed.

Section RunBody.
Context {R : Type} (h : hooks R) (w : world).
Variables (s : state) (tr : list step).


Lemma run_body_prepare_raises e s1 :
  prepare h w s = (Raise e, s1) ->
  run_body h w (s, tr) = (Raise e, (s1, tr ++ [StepPrepare])%list).
Proof.
  intros Hp. unfold run_body. rewrite enter_bind.
  rewrite (lift_bind_raise _ _ _ _ _ _ Hp). reflexivity.
Qed.

Lemma run_body_execute_raises s1 e :
  prepare h w s = (Ok tt, s1) ->
  execute w s1 = (Raise e, s1) ->
  run_body h w (s, tr) =
    (Raise e, (s1, tr ++ [StepPrepare; StepExecute])%list).
Proof.
  intros Hp He. unfold run_body. rewrite enter_bind.
  rewrite (lift_bind _ _ _ _ _ _ Hp), enter_bind.
  rewrite (lift_bind_raise _ _ _ _ _ _ He), <- app_assoc. reflexivity.
Qed.

Lemma run_body_nonzero s1 c :
  prepare h w s = (Ok tt, s1) ->
  execute w s1 = (Ok c, s1) ->
  cp_returncode c <> 0 ->
  run_body h w (s, tr) =
    (Raise (CalledProcessError (cp_returncode c) (cp_args c) (cp_stdout c)),
     (set_cp c s1, tr ++ [StepPrepare; StepExecute])%list).
Proof.
  intros Hp He Hc. unfold run_body. rewrite enter_bind.
  rewrite (lift_bind _ _ _ _ _ _ Hp), enter_bind.
  rewrite (lift_bind _ _ _ _ _ _ He).
  rewrite (lift_bind _ _ _ _ _ _ (modify_self_eq _ _)).
  rewrite (lift_bind_raise (check_returncode c) _ _ _
             (CalledProcessError (cp_returncode c) (cp_args c) (cp_stdout c))
             (set_cp c s1)), <- app_assoc; [reflexivity|].
  unfold check_returncode. destruct (Z.eqb_spec (cp_returncode c) 0);
    [contradiction | reflexivity].
Qed.

Lemma run_body_isFailed_raises s1 c e s2 :
  prepare h w s = (Ok tt, s1) ->
  execute w s1 = (Ok c, s1) ->
  cp_returncode c = 0 ->
  isFailed h (set_cp c s1) = (Raise e, s2) ->
  run_body h w (s, tr) =
    (Raise e, (s2, tr ++ [StepPrepare; StepExecute])%list).
Proof.
  intros Hp He Hc Hf. unfold run_body. rewrite enter_bind.
  rewrite (lift_bind _ _ _ _ _ _ Hp), enter_bind.
  rewrite (lift_bind _ _ _ _ _ _ He).
  rewrite (lift_bind _ _ _ _ _ _ (modify_self_eq _ _)).
  rewrite (lift_bind (check_returncode c) _ _ _ tt (set_cp c s1)).
  2:{ unfold check_returncode. rewrite Hc. reflexivity. }
  rewrite (lift_bind_raise _ _ _ _ _ _ Hf), <- app_assoc. reflexivity.
Qed.

Lemma run_body_domain_failure s1 c m s2 :
  prepare h w s = (Ok tt, s1) ->
  execute w s1 = (Ok c, s1) ->
  cp_returncode c = 0 ->
  isFailed h (set_cp c s1) = (Ok m, s2) ->
  message_truthy m = true ->
  run_body h w (s, tr) =
    (let (r, s3) := @fail R (set_err ErrRunErrorClass (set_fm m s2)) in
     (r, (s3, tr ++ [StepPrepare; StepExecute; StepFail])%list)).
Proof.
  intros Hp He Hc Hf Hm. unfold run_body. rewrite enter_bind.
  rewrite (lift_bind _ _ _ _ _ _ Hp), enter_bind.
  rewrite (lift_bind _ _ _ _ _ _ He).
  rewrite (lift_bind _ _ _ _ _ _ (modify_self_eq _ _)).
  rewrite (lift_bind (check_returncode c) _ _ _ tt (set_cp c s1)).
  2:{ unfold check_returncode. rewrite Hc. reflexivity. }
  rewrite (lift_bind _ _ _ _ _ _ Hf).
  rewrite (lift_bind _ _ _ _ _ _ (modify_self_eq _ _)).
  rewrite Hm.
  rewrite (lift_bind _ _ _ _ _ _ (modify_self_eq _ _)), enter_bind.
  unfold lift. rewrite <- !app_assoc. reflexivity.
Qed.

Lemma run_body_finish s1 c m s2 :
  prepare h w s = (Ok tt, s1) ->
  execute w s1 = (Ok c, s1) ->
  cp_returncode c = 0 ->
  isFailed h (set_cp c s1) = (Ok m, s2) ->
  message_truthy m = false ->
  run_body h w (s, tr) =
    (let (r, s3) := finish h (set_fm m s2) in
     (r, (s3, tr ++ [StepPrepare; StepExecute; StepFinish])%list)).
Proof.
  intros Hp He Hc Hf Hm. unfold run_body. rewrite enter_bind.
  rewrite (lift_bind _ _ _ _ _ _ Hp), enter_bind.
  rewrite (lift_bind _ _ _ _ _ _ He).
  rewrite (lift_bind _ _ _ _ _ _ (modify_self_eq _ _)).
  rewrite (lift_bind (check_returncode c) _ _ _ tt (set_cp c s1)).
  2:{ unfold check_returncode. rewrite Hc. reflexivity. }
  rewrite (lift_bind _ _ _ _ _ _ Hf).
  rewrite (lift_bind _ _ _ _ _ _ (modify_self_eq _ _)).
  rewrite Hm, enter_bind.
  unfold lift. rewrite <- !app_assoc. reflexivity.
Qed.
End RunBody.

(** Case analysis on the [try] body: each branch rewrites [run_body] to
    its outcome and keeps the equations of the steps taken. *)
Ltac run_body_cases h w s tr :=
  let s1 := fresh "s1" in let s1' := fresh "s1'" in let s2 := fresh "s2" in
  let e := fresh "e" in let c := fresh "c" in let m := fresh "m" in
  let Hp := fresh "Hprep" in let He := fresh "Hexec" in
  let Hc := fresh "Hcode" in let Hf := fresh "Hpred" in
  let Hm := fresh "Hmsg" in let Hs := fresh "Hs" in
  destruct (prepare h w s) as [[[]|e] s1] eqn:Hp;
  [ destruct (execute w s1) as [[c|e] s1'] eqn:He;
    pose proof (execute_state _ _ _ _ He) as Hs; subst s1';
    [ destruct (Z.eq_dec (cp_returncode c) 0) as [Hc|Hc];
      [ destruct (isFailed h (set_cp c s1)) as [[m|e] s2] eqn:Hf;
        [ destruct (message_truthy m) eqn:Hm;
          [ rewrite (run_body_domain_failure h w s tr s1 c m s2 Hp He Hc Hf Hm)
          | rewrite (run_body_finish h w s tr s1 c m s2 Hp He Hc Hf Hm) ]
        | rewrite (run_body_isFailed_raises h w s tr s1 c e s2 Hp He Hc Hf) ]
      | rewrite (run_body_nonzero h w s tr s1 c Hp He Hc) ]
    | rewrite (run_body_execute_raises h w s tr s1 e Hp He) ]
  | rewrite (run_body_prepare_raises h w s tr e s1 Hp) ].

Lemma write_f_stdout_eq (text : string) (s : state) :
  write_f_stdout text s =
  match f_stdout (self s) with
  | None => (Raise (AttributeError "f_stdout"), s)
  | Some p =>
      match write_text (disk s) p text with
      | Ok d => (Ok tt, {| self := self s; disk := d |})
      | Raise x => (Raise x, s)
      end
  end.
Proof.
  unfold write_f_stdout, mbind, get_self, fs_call, raise.
  destruct (f_stdout (self s)); reflexivity.
Qed.

Lemma fail_eq {A} (s : state) :
  @fail A s =
  if catch_truthy (catch_out (self s))
  then match f_stdout (self s) with
       | None => (Raise (AttributeError "f_stdout"), s)
       | Some p =>
           match write_text (disk s) p (error_string (self s)) with
           | Ok d => (Raise (fail_exn (self s)), {| self := self s; disk := d |})
           | Raise x => (Raise x, s)
           end
       end
  else (Raise (fail_exn (self s)), s).
Proof.
  unfold fail, fail_exn, mbind at 1, get_self.
  destruct (catch_truthy (catch_out (self s))).
  - unfold mbind at 1. rewrite write_f_stdout_eq.
    destruct (f_stdout (self s)) as [p|]; [|reflexivity].
    destruct (write_text (disk s) p (error_string (self s))) as [d|x];
      [|reflexivity].
    destruct (error (self s)) as [[|x]|]; try reflexivity.
    + destruct (failed_message (self s)) as [[|a m]|]; reflexivity.
    + cbn. destruct (message_truthy (failed_message (self s))); reflexivity.
  - unfold mbind, ret, raise.
    destruct (error (self s)) as [[|x]|]; try reflexivity.
    + destruct (failed_message (self s)) as [[|a m]|]; reflexivity.
    + destruct (message_truthy (failed_message (self s))); reflexivity.
Qed.

Lemma fail_raises {A} (s : state) :
  exists e s', @fail A s = (Raise e, s') /\ self s' = self s.
Proof.
  rewrite fail_eq.
  destruct (catch_truthy (catch_out (self s))); [|eauto].
  destruct (f_stdout (self s)) as [p|]; [|eauto].
  destruct (write_text (disk s) p (error_string (self s))); eauto.
Qed.

Lemma cleanup_eq (s : state) :
  cleanup s =
  match tempdir (self s) with
  | Some t =>
      if exists_ (disk s) t
      then if keep_tempdir (self s) then (Ok tt, s)
           else match rmtree (disk s) t with
                | Ok d => (Ok tt, {| self := self s; disk := d |})
                | Raise e => (Raise e, s)
                end
      else (Ok tt, s)
  | None => (Ok tt, s)
  end.
Proof.
  unfold cleanup, mbind, get_self, get_disk, ret, fs_call.
  destruct (tempdir (self s)) as [t|]; [|reflexivity].
  destruct (exists_ (disk s) t); [|reflexivity].
  destruct (keep_tempdir (self s)); reflexivity.
Qed.

(** ** Cleanup runs once, and last *)

Lemma run_body_trace {R} (h : hooks R) (w : world) s tr :
  exists ext,
    snd (snd (run_body h w (s, tr))) = (tr ++ ext)%list /\
    ~ In StepCleanup ext.
Proof.
  run_body_cases h w s tr.
  - destruct (fail _) as [r s3]. eexists. split; [reflexivity|].
    simpl. intuition discriminate.
  - destruct (finish h _) as [r s3]. eexists. split; [reflexivity|].
    simpl. intuition discriminate.
  - eexists. split; [reflexivity|]. simpl. intuition discriminate.
  - eexists. split; [reflexivity|]. simpl. intuition discriminate.
  - eexists. split; [reflexivity|]. simpl. intuition discriminate.
  - eexists. split; [reflexivity|]. simpl. intuition discriminate.
Qed.

Lemma handled_trace {R} (x : result R * (state * list step)) :
  exists ext,
    snd (snd (handled x)) = (snd (snd x) ++ ext)%list /\
    ~ In StepCleanup ext.
Proof.
  destruct x as [[a|e] [s tr]].
  - exists []. simpl. rewrite app_nil_r. auto.
  - destruct e; simpl;
      try (exists []; simpl; rewrite app_nil_r; split; [reflexivity | tauto]);
      destruct (fail _) as [r s']; exists [StepFail]; simpl;
      (split; [reflexivity | intuition discriminate]).
Qed.

Lemma cleaned_trace {R} (x : result R * (state * list step)) :
  snd (snd (cleaned x)) = (snd (snd x) ++ [StepCleanup])%list.
Proof.
  destruct x as [r [s tr]]. simpl.
  destruct (cleanup s) as [[[]|e] s']; reflexivity.
Qed.

Lemma run_trace {R} (h : hooks R) (w : world) s :
  exists ext,
    snd (snd (run h w (s, []))) = (ext ++ [StepCleanup])%list /\
    ~ In StepCleanup ext.
Proof.
  rewrite run_eq, cleaned_trace.
  destruct (handled_trace (run_body h w (with_self reset s, []))) as (e2 & H2 & N2).
  destruct (run_body_trace h w (with_self reset s) []) as (e1 & H1 & N1).
  rewrite H2, H1. exists (e1 ++ e2)%list. split; [reflexivity|].
  rewrite in_app_iff. tauto.
Qed.

(** ** The file system *)

Lemma path_eqb_eq (p q : path) : path_eqb p q = true <-> p = q.
Proof.
  unfold path_eqb. destruct (list_eq_dec string_dec p q); split;
    congruence.
Qed.

Lemma path_eqb_refl (p : path) : path_eqb p p = true.
Proof. apply path_eqb_eq. reflexivity. Qed.

Lemma is_prefix_refl (p : path) : is_prefix p p = true.
Proof.
  induction p as [|a p IH]; [reflexivity|]. simpl.
  destruct (string_dec a a); [exact IH | contradiction].
Qed.

Lemma lookup_update_same (f : fs) (p : path) (n : node) :
  p <> [] -> lookup (update f p n) p = Some n.
Proof.
  intros Hp. destruct p; [contradiction|].
  unfold lookup, update. rewrite path_eqb_refl. reflexivity.
Qed.

Lemma lookup_update_other (f : fs) (p q : path) (n : node) :
  p <> q -> lookup (update f p n) q = lookup f q.
Proof.
  intros Hpq. destruct q; [reflexivity|].
  unfold lookup, update.
  destruct (path_eqb p (s :: q)) eqn:E; [|reflexivity].
  apply path_eqb_eq in E. contradiction.
Qed.

Lemma is_dir_update_dir (f : fs) (p q : path) :
  is_dir f q = true -> is_dir (update f p Dir) q = true.
Proof.
  unfold is_dir. intros H.
  destruct (list_eq_dec string_dec p q) as [->|Hne].
  - destruct q; [reflexivity|]. rewrite lookup_update_same by discriminate.
    reflexivity.
  - rewrite lookup_update_other by assumption. exact H.
Qed.

Lemma dir_preserving_refl (d : fs) : dir_preserving d d.
Proof. intros q H. exact H. Qed.

Lemma dir_preserving_trans (a b c : fs) :
  dir_preserving a b -> dir_preserving b c -> dir_preserving a c.
Proof. intros H1 H2 q H. apply H2, H1, H. Qed.

Lemma mkdir_preserving (f f' : fs) (p : path) :
  mkdir f p = Ok f' -> dir_preserving f f' /\ is_dir f' p = true.
Proof.
  unfold mkdir. destruct (lookup f p) eqn:E; [discriminate|].
  destruct (lookup f (parent p)) as [[|]|]; try discriminate.
  intros H. inversion H. subst f'. split.
  - intros q Hq. apply is_dir_update_dir. exact Hq.
  - unfold is_dir. destruct p; [discriminate|].
    rewrite lookup_update_same by discriminate. reflexivity.
Qed.

Lemma mkdir_from_preserving (rest : list string) :
  forall f base f', mkdir_from f base rest = Ok f' -> dir_preserving f f'.
Proof.
  induction rest as [|c rest IH]; intros f base f'; simpl; [discriminate|].
  destruct rest as [|c' rest'].
  - destruct (lookup f (base ++ [c])%list); [discriminate|].
    intros H. inversion H. intros q Hq. apply is_dir_update_dir. exact Hq.
  - destruct (lookup f (base ++ [c])%list) as [[|]|]; try discriminate.
    + apply IH.
    + intros H. apply IH in H. intros q Hq. apply H.
      apply is_dir_update_dir. exact Hq.
Qed.

Lemma write_text_preserving (f f' : fs) (p : path) (s : string) :
  write_text f p s = Ok f' ->
  dir_preserving f f' /\ f' = update f p (File s).
Proof.
  unfold write_text. intros H.
  assert (Hnd : lookup f p <> Some Dir /\ f' = update f p (File s)).
  { destruct (lookup f p) as [[|]|]; try discriminate;
      destruct (lookup f (parent p)) as [[|]|]; try discriminate;
      inversion H; split; congruence. }
  destruct Hnd as [Hnd ->]. split; [|reflexivity].
  intros q Hq. unfold is_dir in *.
  destruct (list_eq_dec string_dec p q) as [->|Hne].
  - destruct (lookup f q) as [[|]|]; congruence.
  - rewrite lookup_update_other by assumption. exact Hq.
Qed.

Lemma rmtree_ok (f : fs) (p : path) :
  is_dir f p = true ->
  rmtree f p = Ok (fun q => if is_prefix p q then None else f q).
Proof.
  unfold is_dir, rmtree. destruct (lookup f p) as [[|]|]; try discriminate.
  reflexivity.
Qed.

Lemma exists_after_rmtree (f : fs) (p : path) :
  p <> [] ->
  exists_ (fun q => if is_prefix p q then None else f q) p = false.
Proof.
  intros Hp. destruct p; [contradiction|].
  unfold exists_, lookup. rewrite is_prefix_refl. reflexivity.
Qed.

Lemma is_dir_exists (f : fs) (p : path) : is_dir f p = true -> exists_ f p = true.
Proof.
  unfold is_dir, exists_. destruct (lookup f p); [reflexivity|discriminate].
Qed.

Lemma exists_nonroot (f : fs) (p : path) : exists_ f p = false -> p <> [].
Proof. intros H ->. discriminate. Qed.

(** ** Frames of the methods *)

Lemma keeps_temp_refl (e : Executor) : keeps_temp e e.
Proof. split; auto. Qed.

Lemma keeps_temp_trans (a b c : Executor) :
  keeps_temp a b -> keeps_temp b c -> keeps_temp a c.
Proof.
  intros [K1 T1] [K2 T2]. split; [congruence|]. intros t Ht. auto.
Qed.

Lemma fs_call_frame (op : fs -> result fs) :
  (forall f f', op f = Ok f' -> dir_preserving f f') ->
  preserves (fs_call op).
Proof.
  intros Hop s r s'. unfold fs_call.
  destruct (op (disk s)) as [f|e] eqn:E; intros H; inversion H; subst; simpl.
  - split; [apply (Hop _ _ E) | apply keeps_temp_refl].
  - split; [apply dir_preserving_refl | apply keeps_temp_refl].
Qed.

Lemma ret_frame {A} (a : A) : preserves (@ret state A a).
Proof.
  intros s r s' H. inversion H. subst.
  split; [apply dir_preserving_refl | apply keeps_temp_refl].
Qed.

Lemma raise_frame {A} (e : exn) : preserves (@raise state A e).
Proof.
  intros s r s' H. inversion H. subst.
  split; [apply dir_preserving_refl | apply keeps_temp_refl].
Qed.

Lemma bind_frame {A B} (m : M A) (k : A -> M B) :
  preserves m -> (forall a, preserves (k a)) -> preserves (mbind m k).
Proof.
  intros Hm Hk s r s'. unfold mbind.
  destruct (m s) as [[a|e] s1] eqn:E; intros H.
  - destruct (Hm _ _ _ E) as [D1 K1]. destruct (Hk a _ _ _ H) as [D2 K2].
    split; [eapply dir_preserving_trans | eapply keeps_temp_trans]; eauto.
  - inversion H. subst. apply (Hm _ _ _ E).
Qed.

Lemma get_self_frame : preserves get_self.
Proof.
  intros s r s' H. inversion H. subst.
  split; [apply dir_preserving_refl | apply keeps_temp_refl].
Qed.

Lemma get_disk_frame : preserves get_disk.
Proof.
  intros s r s' H. inversion H. subst.
  split; [apply dir_preserving_refl | apply keeps_temp_refl].
Qed.

Lemma write_f_stdout_frame (text : string) : preserves (write_f_stdout text).
Proof.
  unfold write_f_stdout. apply bind_frame; [apply get_self_frame|].
  intros e. destruct (f_stdout e) as [p|]; [|apply raise_frame].
  apply fs_call_frame. intros f f' H. apply (write_text_preserving _ _ _ _ H).
Qed.

Lemma fail_frame {A} : preserves (@fail A).
Proof.
  unfold fail. apply bind_frame; [apply get_self_frame|]. intros e.
  apply bind_frame.
  - destruct (catch_truthy (catch_out e));
      [apply write_f_stdout_frame | apply ret_frame].
  - intros _. destruct (error e) as [[|x]|]; try apply raise_frame.
    + destruct (failed_message e) as [[|a m]|]; apply raise_frame.
    + destruct (message_truthy (failed_message e)); apply raise_frame.
Qed.

Lemma Executor_finish_frame : preserves Executor_finish.
Proof.
  unfold Executor_finish. apply bind_frame; [apply get_self_frame|].
  intros e. destruct (completed_process e) as [c|]; [|apply raise_frame].
  apply bind_frame; [|intros _; apply ret_frame].
  destruct (catch_truthy (catch_out e));
    [apply write_f_stdout_frame | apply ret_frame].
Qed.

Lemma IbexRun_finish_frame : preserves IbexRun_finish.
Proof.
  unfold IbexRun_finish. apply bind_frame; [apply get_self_frame|].
  intros e. destruct (completed_process e) as [c|]; [|apply raise_frame].
  destruct (re_search_digits (cp_stdout c)); [apply ret_frame|apply raise_frame].
Qed.

(** After its first half, [prepare] has lost no directory, and the
    instance names a temporary directory; one created here is there. *)
Lemma prepare_tempdir_spec (cls : string) (w : world) s r s' :
  prepare_tempdir cls w s = (r, s') ->
  dir_preserving (disk s) (disk s') /\ keeps_temp (self s) (self s') /\
  forall t, created_by_lifecycle cls w (self s) (disk s) t ->
    r = Ok tt /\ tempdir (self s') = Some t /\ is_dir (disk s') t = true.
Proof.
  unfold prepare_tempdir, mbind at 1 2, get_self, get_disk.
  destruct (tempdir (self s)) as [t0|] eqn:Et.
  - destruct (exists_ (disk s) t0) eqn:Ex.
    + intros H. inversion H. subst.
      split; [apply dir_preserving_refl|]. split; [apply keeps_temp_refl|].
      intros t [[Hn _]|(Ht & Hex & _)]; congruence.
    + unfold fs_call. destruct (mkdir (disk s) t0) as [f|e] eqn:Em;
        intros H; inversion H; subst; simpl.
      * destruct (mkdir_preserving _ _ _ Em) as [Hd Hi].
        split; [exact Hd|]. split; [apply keeps_temp_refl|].
        intros t [[Hn _]|(Ht & _)]; [congruence|].
        assert (t = t0) by congruence. subst t. auto.
      * split; [apply dir_preserving_refl|]. split; [apply keeps_temp_refl|].
        intros t [[Hn _]|(Ht & Hex & Hpar)]; [congruence|].
        assert (t = t0) by congruence. subst t. exfalso.
        unfold mkdir, exists_, is_dir in *.
        destruct (lookup _ t0); [discriminate|].
        destruct (lookup _ (parent t0)) as [[|]|]; discriminate.
  - unfold mbind, fs_call, put_self. simpl.
    intros H. inversion H. subst. simpl.
    split; [intros q Hq; apply is_dir_update_dir; exact Hq|].
    split; [split; [reflexivity | intros t Ht; congruence]|].
    intros t [[_ ->]|(Ht & _)]; [|congruence].
    split; [reflexivity|]. split; [reflexivity|].
    unfold is_dir, mkdtemp. rewrite lookup_update_same; [reflexivity|].
    intros Hnil. apply app_eq_nil in Hnil. destruct Hnil. discriminate.
Qed.

Lemma prepare_dir_out_frame : preserves prepare_dir_out.
Proof.
  unfold prepare_dir_out. apply bind_frame; [apply get_self_frame|].
  intros e. apply bind_frame; [apply get_disk_frame|]. intros d.
  destruct (dir_out e) as [o|]; [|apply ret_frame].
  destruct (exists_ d o); [apply ret_frame|].
  apply fs_call_frame. intros f f' Hm. apply (mkdir_from_preserving _ _ _ _ Hm).
Qed.

Lemma Executor_prepare_frame (cls : string) (w : world) :
  preserves (Executor_prepare cls w).
Proof.
  intros s r s'. unfold Executor_prepare, mbind.
  destruct (prepare_tempdir cls w s) as [[[]|e] s1] eqn:E1; intros H.
  - destruct (prepare_tempdir_spec _ _ _ _ _ E1) as (D1 & K1 & _).
    destruct (prepare_dir_out_frame _ _ _ H) as [D2 K2].
    split; [eapply dir_preserving_trans | eapply keeps_temp_trans]; eauto.
  - inversion H. subst.
    destruct (prepare_tempdir_spec _ _ _ _ _ E1) as (D1 & K1 & _). auto.
Qed.

(** A temporary directory created by [prepare] is a directory of the disk
    [prepare] leaves, whether its second half raised or not. *)
Lemma Executor_prepare_created (cls : string) (w : world) s r s' t :
  Executor_prepare cls w s = (r, s') ->
  created_by_lifecycle cls w (self s) (disk s) t ->
  tempdir (self s') = Some t /\ is_dir (disk s') t = true.
Proof.
  unfold Executor_prepare, mbind.
  destruct (prepare_tempdir cls w s) as [[[]|e] s1] eqn:E1; intros H Hc;
    destruct (prepare_tempdir_spec _ _ _ _ _ E1) as (_ & _ & Hs);
    destruct (Hs t Hc) as (Hr & Ht & Hd); [|discriminate].
  destruct (prepare_dir_out_frame _ _ _ H) as [D2 [_ K2]]. auto.
Qed.

Lemma IbexRun_prepare_frame (ib : IbexRun) (w : world) :
  preserves (IbexRun_prepare ib w).
Proof.
  unfold IbexRun_prepare. apply bind_frame; [apply get_disk_frame|].
  intros d. apply bind_frame.
  - destruct (exists_ d (out_ibex ib)); [apply ret_frame|].
    apply fs_call_frame. intros f f' Hm.
    apply (mkdir_from_preserving _ _ _ _ Hm).
  - intros _. apply fs_call_frame. intros f f' Hw.
    apply (write_text_preserving _ _ _ _ Hw).
Qed.

Lemma predicate_frame (predicate : Executor -> option string) :
  preserves (e <~ get_self ;; ret (predicate e)).
Proof.
  apply bind_frame; [apply get_self_frame|]. intros e. apply ret_frame.
Qed.

Lemma set_tempdir_id (e : Executor) : e = set_tempdir e (tempdir e).
Proof. destruct e. reflexivity. Qed.

Lemma stable_same {A} (m : M A) :
  (forall s r s', m s = (r, s') -> self s' = self s) -> instance_stable m.
Proof.
  intros H s r s' E. rewrite (H _ _ _ E). apply set_tempdir_id.
Qed.

Lemma bind_stable {A B} (m : M A) (k : A -> M B) :
  instance_stable m -> (forall a, instance_stable (k a)) ->
  instance_stable (mbind m k).
Proof.
  intros Hm Hk s r s'. unfold mbind.
  destruct (m s) as [[a|e] s1] eqn:E; intros H.
  - rewrite (Hk a _ _ _ H), (Hm _ _ _ E). reflexivity.
  - inversion H. subst. apply (Hm _ _ _ E).
Qed.

Lemma ret_stable {A} (a : A) : instance_stable (@ret state A a).
Proof. apply stable_same. intros s r s' H. inversion H. reflexivity. Qed.

Lemma raise_stable {A} (e : exn) : instance_stable (@raise state A e).
Proof. apply stable_same. intros s r s' H. inversion H. reflexivity. Qed.

Lemma get_self_stable : instance_stable get_self.
Proof. apply stable_same. intros s r s' H. inversion H. reflexivity. Qed.

Lemma get_disk_stable : instance_stable get_disk.
Proof. apply stable_same. intros s r s' H. inversion H. reflexivity. Qed.

Lemma fs_call_stable (op : fs -> result fs) : instance_stable (fs_call op).
Proof.
  apply stable_same. intros s r s'. unfold fs_call.
  destruct (op (disk s)); intros H; inversion H; reflexivity.
Qed.

Lemma write_f_stdout_stable (text : string) :
  instance_stable (write_f_stdout text).
Proof.
  unfold write_f_stdout. apply bind_stable; [apply get_self_stable|].
  intros e. destruct (f_stdout e); [apply fs_call_stable|apply raise_stable].
Qed.

Lemma Executor_finish_stable : instance_stable Executor_finish.
Proof.
  unfold Executor_finish. apply bind_stable; [apply get_self_stable|].
  intros e. destruct (completed_process e) as [c|]; [|apply raise_stable].
  apply bind_stable; [|intros _; apply ret_stable].
  destruct (catch_truthy (catch_out e));
    [apply write_f_stdout_stable | apply ret_stable].
Qed.

Lemma IbexRun_finish_stable : instance_stable IbexRun_finish.
Proof.
  unfold IbexRun_finish. apply bind_stable; [apply get_self_stable|].
  intros e. destruct (completed_process e) as [c|]; [|apply raise_stable].
  destruct (re_search_digits (cp_stdout c));
    [apply ret_stable|apply raise_stable].
Qed.

Lemma predicate_stable (predicate : Executor -> option string) :
  instance_stable (e <~ get_self ;; ret (predicate e)).
Proof.
  apply bind_stable; [apply get_self_stable|]. intros e. apply ret_stable.
Qed.

Lemma prepare_dir_out_stable : instance_stable prepare_dir_out.
Proof.
  unfold prepare_dir_out. apply bind_stable; [apply get_self_stable|].
  intros e. apply bind_stable; [apply get_disk_stable|]. intros d.
  destruct (dir_out e) as [o|]; [|apply ret_stable].
  destruct (exists_ d o); [apply ret_stable|apply fs_call_stable].
Qed.

Lemma prepare_tempdir_stable cls w : instance_stable (prepare_tempdir cls w).
Proof.
  intros s r s'. unfold prepare_tempdir, mbind at 1 2, get_self, get_disk.
  destruct (tempdir (self s)) as [t0|] eqn:Et.
  - destruct (exists_ (disk s) t0).
    + intros H. inversion H. apply set_tempdir_id.
    + intros H. rewrite (fs_call_stable _ _ _ _ H). reflexivity.
  - unfold mbind, fs_call, put_self. simpl.
    intros H. inversion H. reflexivity.
Qed.

Lemma Executor_prepare_stable cls w : instance_stable (Executor_prepare cls w).
Proof.
  unfold Executor_prepare. apply bind_stable;
    [apply prepare_tempdir_stable | intros _; apply prepare_dir_out_stable].
Qed.

Lemma IbexRun_prepare_stable ib w : instance_stable (IbexRun_prepare ib w).
Proof.
  unfold IbexRun_prepare. apply bind_stable; [apply get_disk_stable|].
  intros d. apply bind_stable; [|intros _; apply fs_call_stable].
  destruct (exists_ d (out_ibex ib)); [apply ret_stable|apply fs_call_stable].
Qed.

#[export] Instance Executor_hooks_with_framed cls predicate w :
  Framed (Executor_hooks_with cls predicate) w.
Proof.
  split; simpl.
  - apply Executor_prepare_frame.
  - apply predicate_frame.
  - apply Executor_finish_frame.
  - apply Executor_prepare_stable.
  - apply predicate_stable.
  - apply Executor_finish_stable.
Qed.

#[export] Instance Executor_hooks_framed w : Framed Executor_hooks w.
Proof.
  split; simpl.
  - apply Executor_prepare_frame.
  - apply ret_frame.
  - apply Executor_finish_frame.
  - apply Executor_prepare_stable.
  - apply ret_stable.
  - apply Executor_finish_stable.
Qed.

#[export] Instance IbexRun_hooks_framed ib w : Framed (IbexRun_hooks ib) w.
Proof.
  split; simpl.
  - apply IbexRun_prepare_frame.
  - apply ret_frame.
  - apply IbexRun_finish_frame.
  - apply IbexRun_prepare_stable.
  - apply ret_stable.
  - apply IbexRun_finish_stable.
Qed.

Lemma frame_trans (s1 s2 s3 : state) :
  dir_preserving (disk s1) (disk s2) /\ keeps_temp (self s1) (self s2) ->
  dir_preserving (disk s2) (disk s3) /\ keeps_temp (self s2) (self s3) ->
  dir_preserving (disk s1) (disk s3) /\ keeps_temp (self s1) (self s3).
Proof.
  intros [D1 K1] [D2 K2].
  split; [eapply dir_preserving_trans | eapply keeps_temp_trans]; eauto.
Qed.

Lemma frame_refl (s : state) :
  dir_preserving (disk s) (disk s) /\ keeps_temp (self s) (self s).
Proof. split; [apply dir_preserving_refl | apply keeps_temp_refl]. Qed.

Lemma set_cp_frame c s :
  dir_preserving (disk s) (disk (set_cp c s)) /\
  keeps_temp (self s) (self (set_cp c s)).
Proof. split; [apply dir_preserving_refl | split; simpl; auto]. Qed.

Lemma set_fm_frame m s :
  dir_preserving (disk s) (disk (set_fm m s)) /\
  keeps_temp (self s) (self (set_fm m s)).
Proof. split; [apply dir_preserving_refl | split; simpl; auto]. Qed.

Lemma set_err_frame x s :
  dir_preserving (disk s) (disk (set_err x s)) /\
  keeps_temp (self s) (self (set_err x s)).
Proof. split; [apply dir_preserving_refl | split; simpl; auto]. Qed.

Lemma reset_frame s :
  dir_preserving (disk s) (disk (with_self reset s)) /\
  keeps_temp (self s) (self (with_self reset s)).
Proof. split; [apply dir_preserving_refl | split; simpl; auto]. Qed.

Lemma handled_frame {R} (r : result R) (s : state) (tr : list step) :
  dir_preserving (disk s) (disk (fst (snd (handled (r, (s, tr)))))) /\
  keeps_temp (self s) (self (fst (snd (handled (r, (s, tr)))))).
Proof.
  destruct r as [a|e]; [apply frame_refl|].
  destruct e; try apply frame_refl; cbn -[fail];
    destruct (fail _) as [r' s'] eqn:Ef; simpl;
    (eapply frame_trans; [apply set_err_frame | apply (fail_frame _ _ _ Ef)]).
Qed.

(** From the state [prepare] leaves to the state [cleanup] finds, no
    directory is lost and the temporary-directory settings stay. *)
Lemma before_cleanup {R} (h : hooks R) (w : world) (F : Framed h w)
    s tr rp s1 :
  prepare h w s = (rp, s1) ->
  dir_preserving (disk s1)
    (disk (fst (snd (handled (run_body h w (s, tr)))))) /\
  keeps_temp (self s1)
    (self (fst (snd (handled (run_body h w (s, tr)))))).
Proof.
  intros Hp0.
  run_body_cases h w s tr; inversion Hp0; subst.
  - destruct (fail _) as [r s3] eqn:Ef.
    eapply frame_trans; [apply (set_cp_frame c)|].
    eapply frame_trans; [apply (isFailed_frame _ _ _ Hpred)|].
    eapply frame_trans; [apply (set_fm_frame m)|].
    eapply frame_trans; [apply (set_err_frame ErrRunErrorClass)|].
    eapply frame_trans; [apply (fail_frame _ _ _ Ef)|].
    apply handled_frame.
  - destruct (finish h _) as [r s3] eqn:Ef.
    eapply frame_trans; [apply (set_cp_frame c)|].
    eapply frame_trans; [apply (isFailed_frame _ _ _ Hpred)|].
    eapply frame_trans; [apply (set_fm_frame m)|].
    eapply frame_trans; [apply (finish_frame _ _ _ Ef)|].
    apply handled_frame.
  - eapply frame_trans; [apply (set_cp_frame c)|].
    eapply frame_trans; [apply (isFailed_frame _ _ _ Hpred)|].
    apply handled_frame.
  - eapply frame_trans; [apply (set_cp_frame c)|].
    apply handled_frame.
  - apply handled_frame.
  - apply handled_frame.
Qed.

(** ** What [cleanup] does to the temporary directory *)

Lemma cleaned_tempdir {R} (r : result R) (s : state) (tr : list step) t :
  tempdir (self s) = Some t -> is_dir (disk s) t = true ->
  fst (cleaned (r, (s, tr))) = r /\
  disk (fst (snd (cleaned (r, (s, tr))))) =
    (if keep_tempdir (self s) then disk s
     else fun q => if is_prefix t q then None else disk s q).
Proof.
  intros Ht Hd. unfold cleaned. rewrite cleanup_eq, Ht.
  rewrite (is_dir_exists _ _ Hd).
  destruct (keep_tempdir (self s)); [auto|].
  rewrite (rmtree_ok _ _ Hd). auto.
Qed.

(** When [run] reaches [cleanup] with a temporary directory that is a
    directory, the directory is there afterwards exactly when it is kept,
    and nothing is left below it when it is not. *)
Lemma run_tempdir {R} (h : hooks R) (w : world) (F : Framed h w) e d rp s1 t :
  prepare h w (with_self reset {| self := e; disk := d |}) = (rp, s1) ->
  tempdir (self s1) = Some t -> is_dir (disk s1) t = true -> t <> [] ->
  keep_tempdir (self s1) = keep_tempdir e ->
  exists_ (final_disk (run_on h w e d)) t = keep_tempdir e /\
  (keep_tempdir e = false ->
   forall q, is_prefix t q = true -> final_disk (run_on h w e d) q = None).
Proof.
  intros Hp Ht Hd Hnil Hk. unfold run_on, final_disk. rewrite run_eq.
  destruct (before_cleanup h w F _ [] _ _ Hp) as [D [K T]].
  destruct (handled _) as [r [s3 tr3]]. simpl in D, K, T.
  destruct (cleaned_tempdir r s3 tr3 t (T _ Ht) (D _ Hd)) as [_ Hdisk].
  rewrite Hdisk, K, Hk.
  destruct (keep_tempdir e).
  - split; [apply is_dir_exists, D, Hd | discriminate].
  - split; [apply exists_after_rmtree, Hnil|].
    intros _ q Hq. rewrite Hq. reflexivity.
Qed.



Example caller_file_gone :
  exists_ disk_mine ["tmp"; "mine"; "notes.txt"] = true /\
  exists_ (final_disk (run_on Executor_hooks (world_exit 0 "a.txt")
             (ls_executor (Some ["tmp"; "mine"]) false) disk_mine))
          ["tmp"; "mine"; "notes.txt"] = false.
Proof. split; reflexivity. Qed.

Lemma count_occ_not_in_app (l : list step) :
  ~ In StepCleanup l ->
  count_occ step_eq_dec (l ++ [StepCleanup]) StepCleanup = 1%nat.
Proof.
  intros Hn. rewrite count_occ_app.
  rewrite (proj1 (count_occ_not_In step_eq_dec l StepCleanup) Hn).
  simpl. destruct (step_eq_dec StepCleanup StepCleanup); [reflexivity|contradiction].
Qed.

(** C5.  Whatever the override points do and whichever step raises, [run]
    enters [cleanup] exactly once, as its last step; and a temporary
    directory created by the lifecycle itself (by [Executor.prepare], under
    override points that respect the frame) exists after [run] if and only
    if [keep_tempdir] is true. *)
Theorem C5_cleanup_once_tempdir_iff_keep {R} (h : hooks R) (w : world)
    (e : Executor) (d : fs) :
  count_occ step_eq_dec (steps (run_on h w e d)) StepCleanup = 1%nat /\
  last (steps (run_on h w e d)) StepPrepare = StepCleanup /\
  forall cls t,
    Framed h w ->
    prepare h w = Executor_prepare cls w ->
    created_by_lifecycle cls w e d t ->
    (exists_ (final_disk (run_on h w e d)) t = true <-> keep_tempdir e = true).
Proof.
  unfold steps, run_on.
  destruct (run_trace h w {| self := e; disk := d |}) as (ext & Hext & Hn).
  rewrite Hext. split; [apply count_occ_not_in_app, Hn|].
  split; [apply last_last|].
  intros cls t F Hprep Hc.
  destruct (prepare h w (with_self reset {| self := e; disk := d |}))
    as [rp s1] eqn:Hp.
  assert (Hp' := Hp). rewrite Hprep in Hp'.
  destruct (Executor_prepare_created cls w _ _ _ t Hp' Hc) as [Ht Hd].
  destruct (prepare_frame _ _ _ Hp) as [_ [K _]]. simpl in K.
  assert (Hnil : t <> []).
  { destruct Hc as [[_ ->]|(_ & Hex & _)].
    - unfold mkdtemp. intros Hnil. apply app_eq_nil in Hnil.
      destruct Hnil. discriminate.
    - apply (exists_nonroot _ _ Hex). }
  destruct (run_tempdir h w F e d rp s1 t Hp Ht Hd Hnil K) as [Hx _].
  unfold run_on in Hx. rewrite Hx. tauto.
Qed.

Lemma C5_cleanup_once_tempdir_iff_keep_witness :
  created_by_lifecycle "executor" (world_exit 2 "no such file")
    (ls_executor None false) disk0 ["tmp"; "ls_executor_k3x9"] /\
  (exists_ (final_disk (run_on Executor_hooks (world_exit 2 "no such file")
              (ls_executor None false) disk0))
           ["tmp"; "ls_executor_k3x9"] = true <->
   keep_tempdir (ls_executor None false) = true).
Proof.
  assert (Hc : created_by_lifecycle "executor" (world_exit 2 "no such file")
                 (ls_executor None false) disk0 ["tmp"; "ls_executor_k3x9"]).
  { left. split; reflexivity. }
  split; [exact Hc|].
  apply (proj2 (proj2 (C5_cleanup_once_tempdir_iff_keep Executor_hooks
                         (world_exit 2 "no such file")
                         (ls_executor None false) disk0))
           "executor" ["tmp"; "ls_executor_k3x9"]
           (Executor_hooks_framed _) eq_refl Hc).
Defined.

Example tempdir_kept :
  exists_ (final_disk (run_on Executor_hooks (world_exit 0 "a.txt")
             (ls_executor None true) disk0))
          ["tmp"; "ls_executor_k3x9"] = true /\
  steps (run_on Executor_hooks (world_exit 0 "a.txt")
           (ls_executor None true) disk0)
    = [StepPrepare; StepExecute; StepFinish; StepCleanup].
Proof. split; reflexivity. Qed.

Example tempdir_dropped_after_failure :
  exists_ (final_disk (run_on Executor_hooks (world_exit 2 "no such file")
             (ls_executor None false) disk0))
          ["tmp"; "ls_executor_k3x9"] = false /\
  steps (run_on Executor_hooks (world_exit 2 "no such file")
           (ls_executor None false) disk0)
    = [StepPrepare; StepExecute; StepFail; StepCleanup] /\
  outcome (run_on Executor_hooks (world_exit 2 "no such file")
             (ls_executor None false) disk0)
    = Raise (CalledProcessError 2 ["ls"; "."] "no such file").
Proof. repeat split; reflexivity. Qed.

(** ** The three kinds of failure *)

Lemma cleaned_outcome {R} (r : result R) (s : state) (tr : list step) :
  fst (cleaned (r, (s, tr))) =
  match fst (cleanup s) with
  | Ok _ => r
  | Raise e => Raise e
  end.
Proof. unfold cleaned. destruct (cleanup s) as [[[]|e] s']; reflexivity. Qed.

Lemma write_text_raises (f : fs) (p : path) (t : string) (e : exn) :
  write_text f p t = Raise e -> exists msg, e = OSError msg.
Proof.
  unfold write_text.
  destruct (lookup f p) as [[|]|]; destruct (lookup f (parent p)) as [[|]|];
    intros H; inversion H; eauto.
Qed.

Lemma cleanup_raises (s : state) (e : exn) :
  fst (cleanup s) = Raise e -> exists msg, e = OSError msg.
Proof.
  rewrite cleanup_eq. destruct (tempdir (self s)) as [t|]; [|discriminate].
  destruct (exists_ (disk s) t); [|discriminate].
  destruct (keep_tempdir (self s)); [discriminate|].
  unfold rmtree. destruct (lookup (disk s) t) as [[|]|]; simpl;
    intros H; inversion H; eauto.
Qed.

Lemma after_fail_eq {A} (s : state) : snd (@fail A s) = after_fail s.
Proof.
  unfold after_fail. rewrite !fail_eq.
  destruct (catch_truthy (catch_out (self s))); [|reflexivity].
  destruct (f_stdout (self s)) as [p|]; [|reflexivity].
  destruct (write_text (disk s) p (error_string (self s))); reflexivity.
Qed.

(** What [fail] raises: its own exception when the report is writable, the
    error of the write otherwise. *)
Lemma fail_outcome {A} (s : state) :
  (report_writable s = true /\ fst (@fail A s) = Raise (fail_exn (self s))) \/
  (report_writable s = false /\
   ((exists msg, fst (@fail A s) = Raise (OSError msg)) \/
    (exists msg, fst (@fail A s) = Raise (AttributeError msg)))).
Proof.
  rewrite fail_eq. unfold report_writable.
  destruct (catch_truthy (catch_out (self s))); [|left; split; reflexivity].
  destruct (f_stdout (self s)) as [p|];
    [|right; split; [reflexivity | right; eexists; reflexivity]].
  destruct (write_text (disk s) p (error_string (self s))) as [d|x] eqn:E;
    [left; split; reflexivity|].
  destruct (write_text_raises _ _ _ _ E) as [msg ->].
  right. split; [reflexivity | left; eexists; reflexivity].
Qed.

(** The state [prepare] leaves still has the instance [run] started from,
    up to [tempdir]. *)
Lemma prepared_instance {R} (h : hooks R) (w : world) (F : Framed h w)
    e d r s1 :
  prepare h w (with_self reset {| self := e; disk := d |}) = (r, s1) ->
  self s1 = set_tempdir (reset e) (tempdir (self s1)).
Proof. intros Hp. apply (prepare_stable _ _ _ Hp). Qed.

(** [fail] followed by [cleanup]: the exception of [fail] comes out when
    the report is writable and [cleanup] succeeds; otherwise the error of
    the write or of [cleanup] does. *)
Lemma fail_then_cleanup {R} (s2 : state) (tr : list step) :
  exists e,
    fst (cleaned (let (r, s3) := @fail R s2 in (r, (s3, tr)))) = Raise e /\
    ((e = fail_exn (self s2) /\ report_writable s2 = true /\
      cleanup_succeeds (after_fail s2) = true) \/
     (exists msg, e = OSError msg /\
        (report_writable s2 = false \/
         cleanup_succeeds (after_fail s2) = false)) \/
     (exists msg, e = AttributeError msg /\ report_writable s2 = false)).
Proof.
  pose proof (@after_fail_eq R s2) as Hs.
  destruct (@fail R s2) as [r s3] eqn:Ef. simpl in Hs. subst s3.
  rewrite cleaned_outcome. unfold cleanup_succeeds.
  destruct (fst (cleanup (after_fail s2))) as [[]|x] eqn:Ec.
  - destruct (@fail_outcome R s2) as [[Hw Hr]|[Hw [[msg Hr]|[msg Hr]]]];
      rewrite Ef in Hr; simpl in Hr; subst r; eexists; (split; [reflexivity|]).
    + left. auto.
    + right. left. eauto.
    + right. right. eauto.
  - destruct (cleanup_raises _ _ Ec) as [msg ->].
    eexists. split; [reflexivity|]. right. left. eauto.
Qed.

(** C3 (amended).  When [prepare] has succeeded and the program is launched
    and exits with a non-zero code [c], [run] raises
    [CalledProcessError] with exactly [c] and the captured output, provided
    that writing the failure report (when output capture is on) and
    [cleanup] do not raise themselves -- and only then; in no case is the
    error wrapped into [RunError]. *)
Theorem C3_nonzero_exit {R} (h : hooks R) (w : world) (F : Framed h w)
    (e : Executor) (d : fs) (s1 : state) (c : Z) (out : string) :
  prepare h w (with_self reset {| self := e; disk := d |}) = (Ok tt, s1) ->
  is_dir (disk s1) (cwd e) = true ->
  subprocess_run w (disk s1) (args e) (cwd e) = Exited c out ->
  c <> 0 ->
  let err := CalledProcessError c (args e) out in
  let s2 := set_err (ErrInstance err)
              (set_cp {| cp_args := args e; cp_returncode := c;
                         cp_stdout := out |} s1) in
  (outcome (run_on h w e d) = Raise err <->
   report_writable s2 = true /\ cleanup_succeeds (after_fail s2) = true) /\
  (forall p, outcome (run_on h w e d) <> Raise (RunError p)).
Proof.
  intros Hp Hcwd Hrun Hc err s2.
  pose proof (prepared_instance h w F e d _ _ Hp) as Hself.
  assert (Hexec : execute w s1 =
            (Ok {| cp_args := args e; cp_returncode := c; cp_stdout := out |}, s1)).
  { rewrite execute_eq, Hself. simpl. rewrite Hcwd, Hrun. reflexivity. }
  unfold outcome, run_on. rewrite run_eq.
  rewrite (run_body_nonzero h w _ [] s1 _ Hp Hexec Hc).
  cbn [handled cp_returncode cp_args cp_stdout]. fold err. fold s2.
  destruct (@fail_then_cleanup R s2
              (([] ++ [StepPrepare; StepExecute]) ++ [StepFail])%list)
    as (x & Hx & Hcases).
  assert (Hexn : fail_exn (self s2) = err).
  { unfold s2, fail_exn. simpl. rewrite Hself. reflexivity. }
  rewrite Hx. rewrite Hexn in Hcases. split; [split|].
  - intros H. inversion H. subst x.
    destruct Hcases as [(_ & Hw & Hcl) | [(msg & Hm & _) | (msg & Hm & _)]];
      [auto | discriminate | discriminate].
  - intros [Hw Hcl].
    destruct Hcases as [(-> & _) | [(msg & _ & [Hf|Hf]) | (msg & _ & Hf)]];
      [reflexivity | congruence | congruence | congruence].
  - intros p H. inversion H. subst x.
    destruct Hcases as [(Hm & _) | [(msg & Hm & _) | (msg & Hm & _)]];
      discriminate.
Qed.

Lemma C3_nonzero_exit_witness :
  outcome (run_on Executor_hooks (world_exit 2 "no such file")
             (ls_executor None false) disk0)
    = Raise (CalledProcessError 2 ["ls"; "."] "no such file") /\
  (forall p, outcome (run_on Executor_hooks (world_exit 2 "no such file")
                        (ls_executor None false) disk0)
             <> Raise (RunError p)).
Proof.
  destruct (C3_nonzero_exit Executor_hooks (world_exit 2 "no such file")
              (Executor_hooks_framed _) (ls_executor None false) disk0
              (snd (prepare Executor_hooks (world_exit 2 "no such file")
                      (with_self reset
                         {| self := ls_executor None false; disk := disk0 |})))
              2 "no such file" eq_refl eq_refl eq_refl)
    as [Hiff Hno].
  - discriminate.
  - split; [apply Hiff; split; reflexivity | exact Hno].
Defined.

(** C3 as stated fails: [Executor(['ls', 'hello'], cwd=/work)] with output
    capture on, where [/work/ls.out] is a directory.  The program is
    launched and exits with 2; writing the report raises, and that error,
    not [CalledProcessError], comes out of [run]. *)
Lemma C3_counterexample :
  exists e,
    Executor_init ["ls"; "hello"] (CatchBool true) None None false ["work"] false
      = Ok e /\
    execute (world_exit 2 "cannot access")
      (snd (prepare Executor_hooks (world_exit 2 "cannot access")
              (with_self reset {| self := e; disk := disk_capture_taken |})))
      = (Ok {| cp_args := ["ls"; "hello"]; cp_returncode := 2;
               cp_stdout := "cannot access" |},
         snd (prepare Executor_hooks (world_exit 2 "cannot access")
                (with_self reset {| self := e; disk := disk_capture_taken |}))) /\
    outcome (run_on Executor_hooks (world_exit 2 "cannot access") e
               disk_capture_taken)
      = Raise (OSError "Is a directory") /\
    outcome (run_on Executor_hooks (world_exit 2 "cannot access") e
               disk_capture_taken)
      <> Raise (CalledProcessError 2 ["ls"; "hello"] "cannot access").
Proof.
  eexists. split; [reflexivity|]. split; [reflexivity|].
  split; [reflexivity | discriminate].
Qed.

Lemma mkdir_raises (f : fs) (p : path) (e : exn) :
  mkdir f p = Raise e -> exists msg, e = OSError msg.
Proof.
  unfold mkdir. destruct (lookup f p); [intros H; inversion H; eauto|].
  destruct (lookup f (parent p)) as [[|]|]; intros H; inversion H; eauto.
Qed.

Lemma mkdir_from_raises (rest : list string) :
  forall f base e, mkdir_from f base rest = Raise e -> exists msg, e = OSError msg.
Proof.
  induction rest as [|c rest IH]; intros f base e; simpl.
  - intros H. inversion H. eauto.
  - destruct rest as [|c' rest'].
    + destruct (lookup f (base ++ [c])%list); intros H; inversion H; eauto.
    + destruct (lookup f (base ++ [c])%list) as [[|]|].
      * apply IH.
      * intros H. inversion H. eauto.
      * apply IH.
Qed.

Lemma Executor_prepare_raises cls w s e s' :
  Executor_prepare cls w s = (Raise e, s') -> exists msg, e = OSError msg.
Proof.
  unfold Executor_prepare, mbind at 1.
  destruct (prepare_tempdir cls w s) as [[[]|x] s1] eqn:E1.
  - unfold prepare_dir_out, mbind, get_self, get_disk, ret, fs_call.
    destruct (dir_out (self s1)) as [o|]; [|discriminate].
    destruct (exists_ (disk s1) o); [discriminate|].
    destruct (mkdir_parents (disk s1) o) as [f|y] eqn:Em; [discriminate|].
    intros H. inversion H. subst. apply (mkdir_from_raises _ _ _ _ Em).
  - intros H. inversion H. subst. clear H. revert E1.
    unfold prepare_tempdir, mbind, get_self, get_disk, ret, fs_call, put_self.
    destruct (tempdir (self s)) as [t|]; [|discriminate].
    destruct (exists_ (disk s) t); [discriminate|].
    destruct (mkdir (disk s) t) as [f|y] eqn:Em; [discriminate|].
    intros H. inversion H. subst. apply (mkdir_raises _ _ _ Em).
Qed.

Lemma Executor_finish_raises s e s' :
  Executor_finish s = (Raise e, s') ->
  (exists msg, e = OSError msg) \/ (exists msg, e = AttributeError msg).
Proof.
  unfold Executor_finish, mbind at 1, get_self.
  destruct (completed_process (self s)) as [c|];
    [|intros H; inversion H; eauto].
  unfold mbind. destruct (catch_truthy (catch_out (self s)));
    [|discriminate].
  rewrite write_f_stdout_eq.
  destruct (f_stdout (self s)) as [p|]; [|intros H; inversion H; eauto].
  destruct (write_text (disk s) p (cp_stdout c)) as [f|y] eqn:Ew;
    [discriminate|].
  intros H. inversion H. subst. left. apply (write_text_raises _ _ _ _ Ew).
Qed.

(** [RunError] leaves [run] only as the wrapping of an [OSError] of the
    [try] body, or because the body itself raised it. *)
Lemma cleaned_handled_runerror {R} (rb : result R) s tr p :
  fst (cleaned (handled (rb, (s, tr)))) = Raise (RunError p) ->
  (exists msg, rb = Raise (OSError msg) /\ p = launch_failure_text msg) \/
  rb = Raise (RunError p).
Proof.
  destruct (handled (rb, (s, tr))) as [r' [s' tr']] eqn:Eh.
  rewrite cleaned_outcome.
  destruct (fst (cleanup s')) as [[]|x] eqn:Ec.
  2:{ destruct (cleanup_raises _ _ Ec) as [msg ->]. discriminate. }
  intros ->. destruct rb as [a|e]; [discriminate|].
  destruct e; simpl in Eh; try (inversion Eh; fail).
  - destruct (fail _) as [r2 s2] eqn:Ef. inversion Eh. subst.
    destruct (@fail_outcome R (set_err (ErrInstance MemoryError) s))
      as [[_ Hr]|[_ [[msg Hr]|[msg Hr]]]];
      rewrite Ef in Hr; simpl in Hr; try discriminate.
    unfold fail_exn in Hr. simpl in Hr.
    destruct (message_truthy (failed_message (self s))); discriminate.
  - inversion Eh. subst. left. eauto.
  - inversion Eh. subst. right. reflexivity.
  - destruct (fail _) as [r2 s2] eqn:Ef. inversion Eh. subst.
    destruct (@fail_outcome R
                (set_err (ErrInstance (CalledProcessError returncode cmd output)) s))
      as [[_ Hr]|[_ [[msg Hr]|[msg Hr]]]];
      rewrite Ef in Hr; simpl in Hr; try discriminate.
    unfold fail_exn in Hr. simpl in Hr.
    destruct (message_truthy (failed_message (self s))); discriminate.
Qed.

(** C4 (amended).  For an [Executor] whose [isFailed] is a predicate:
    [run] raises [RunError] only (i) as the wrapping of an OS error raised
    inside the [try] statement -- by [prepare], by the launch, or by
    writing the capture file -- with the OS error text in the payload, or
    (ii) when the exit code is 0 and the predicate returns a non-empty
    message [M], with payload exactly [M].  Conversely (a) a launch that
    fails at the OS level raises [RunError] wrapping the OS text once
    [cleanup] succeeds, and never [CalledProcessError]; (b) exit code 0
    with a non-empty [M] raises [RunError M] once the report is writable
    and [cleanup] succeeds. *)
Theorem C4_run_error cls (predicate : Executor -> option string)
    (w : world) (e : Executor) (d : fs) :
  let h := Executor_hooks_with cls predicate in
  let s0 := with_self reset {| self := e; disk := d |} in
  (forall p, outcome (run_on h w e d) = Raise (RunError p) ->
     (exists msg, fst (run_body h w (s0, [])) = Raise (OSError msg) /\
                  p = launch_failure_text msg) \/
     (exists s1 c M,
        prepare h w s0 = (Ok tt, s1) /\ execute w s1 = (Ok c, s1) /\
        cp_returncode c = 0 /\ predicate (self (set_cp c s1)) = Some M /\
        M <> EmptyString /\ p = M)) /\
  (forall s1 msg,
     prepare h w s0 = (Ok tt, s1) ->
     execute w s1 = (Raise (OSError msg), s1) ->
     (cleanup_succeeds s1 = true ->
      outcome (run_on h w e d) = Raise (RunError (launch_failure_text msg))) /\
     (forall c a o, outcome (run_on h w e d) <> Raise (CalledProcessError c a o))) /\
  (forall s1 c M,
     prepare h w s0 = (Ok tt, s1) -> execute w s1 = (Ok c, s1) ->
     cp_returncode c = 0 -> predicate (self (set_cp c s1)) = Some M ->
     M <> EmptyString ->
     report_writable (set_err ErrRunErrorClass (set_fm (Some M) (set_cp c s1)))
       = true ->
     cleanup_succeeds
       (after_fail (set_err ErrRunErrorClass (set_fm (Some M) (set_cp c s1))))
       = true ->
     outcome (run_on h w e d) = Raise (RunError M)).
Proof.
  intros h s0. unfold outcome, run_on. rewrite run_eq. fold s0.
  split; [|split].
  - intros p Hout.
    destruct (run_body h w (s0, [])) as [rb [sb trb]] eqn:Eb.
    destruct (cleaned_handled_runerror rb sb trb p Hout) as [(msg & -> & ->)|Hrb].
    + left. exists msg. auto.
    + right. subst rb. revert Eb. clear Hout.
      run_body_cases h w s0 (@nil step).
      * assert (Hpv : isFailed h (set_cp c s1) =
                        (Ok (predicate (self (set_cp c s1))), set_cp c s1))
          by reflexivity.
        rewrite Hpv in Hpred. inversion Hpred. subst m s2. clear Hpred Hpv.
        destruct (fail _) as [r s3] eqn:Ef. intros Eb. inversion Eb. subst.
        match type of Ef with
        | fail ?s = _ =>
            destruct (@fail_outcome (list string * Z * string) s)
              as [[_ Hr]|[_ [[msg Hr]|[msg Hr]]]]
        end; rewrite Ef in Hr; simpl fst in Hr; try discriminate.
        unfold fail_exn in Hr. cbn [self set_err set_fm with_self error
          failed_message set_error set_failed_message] in Hr.
        destruct (predicate _) as [[|a M]|] eqn:EM;
          simpl in Hmsg; try discriminate.
        exists s1, c, (String a M). inversion Hr.
        repeat split; auto. discriminate.
      * destruct (finish h _) as [r s3] eqn:Ef. intros Eb. inversion Eb. subst.
        destruct (Executor_finish_raises _ _ _ Ef) as [[msg Hm]|[msg Hm]];
          discriminate.
      * simpl in Hpred. discriminate.
      * intros Eb. inversion Eb.
      * intros Eb. inversion Eb. subst. rewrite execute_eq in Hexec.
        destruct (is_dir _ _); [|inversion Hexec].
        destruct (subprocess_run _ _ _ _); inversion Hexec.
      * intros Eb. inversion Eb. subst.
        destruct (Executor_prepare_raises _ _ _ _ _ Hprep) as [msg Hm].
        discriminate.
  - intros s1 msg Hp He.
    rewrite (run_body_execute_raises h w s0 [] s1 _ Hp He).
    cbn [handled]. rewrite cleaned_outcome. unfold cleanup_succeeds.
    destruct (fst (cleanup s1)) as [[]|x] eqn:Ec.
    + split; [reflexivity | discriminate].
    + destruct (cleanup_raises _ _ Ec) as [m ->].
      split; [discriminate | discriminate].
  - intros s1 c M Hp He Hc HM Hne Hw Hcl.
    assert (Hm : message_truthy (Some M) = true).
    { destruct M; [contradiction | reflexivity]. }
    assert (Hf : isFailed h (set_cp c s1) = (Ok (Some M), set_cp c s1)).
    { simpl. unfold mbind, get_self, ret. rewrite HM. reflexivity. }
    rewrite (run_body_domain_failure h w s0 [] s1 c _ _ Hp He Hc Hf Hm).
    pose proof (@after_fail_eq (list string * Z * string)
                  (set_err ErrRunErrorClass (set_fm (Some M) (set_cp c s1))))
      as Hs.
    destruct (@fail_outcome (list string * Z * string)
                (set_err ErrRunErrorClass (set_fm (Some M) (set_cp c s1))))
      as [[_ Hr]|[Hnw _]]; [|congruence].
    destruct (fail _) as [r s3]. cbn [fst snd] in Hs, Hr. subst s3 r.
    assert (Hexn : fail_exn
              (self (set_err ErrRunErrorClass (set_fm (Some M) (set_cp c s1))))
            = RunError M).
    { unfold fail_exn. simpl. destruct M; [contradiction | reflexivity]. }
    rewrite Hexn. cbn [handled]. rewrite cleaned_outcome.
    unfold cleanup_succeeds in Hcl.
    destruct (fst (cleanup _)); [reflexivity | discriminate].
Qed.

Lemma C4_run_error_witness :
  outcome (run_on (Executor_hooks_with "failingprogram"
                     (fun _ => Some "The output is not as expected"))
             (world_exit 0 "a.txt") (ls_executor None false) disk0)
    = Raise (RunError "The output is not as expected").
Proof.
  apply (proj2 (proj2 (C4_run_error "failingprogram"
                         (fun _ => Some "The output is not as expected")
                         (world_exit 0 "a.txt") (ls_executor None false) disk0))
           (snd (prepare (Executor_hooks_with "failingprogram"
                            (fun _ => Some "The output is not as expected"))
                   (world_exit 0 "a.txt")
                   (with_self reset
                      {| self := ls_executor None false; disk := disk0 |})))
           {| cp_args := ["ls"; "."]; cp_returncode := 0; cp_stdout := "a.txt" |}
           "The output is not as expected");
    try reflexivity.
  discriminate.
Defined.

(** C4 as stated fails: a temporary directory [/tmp/a/b] whose parent is
    missing.  The program would launch and exit with 0 and the predicate
    reports nothing, yet [prepare] raises an OS error, [run] never reaches
    the launch and raises [RunError]. *)
Lemma C4_counterexample :
  (forall f a c, subprocess_run (world_exit 0 "a.txt") f a c = Exited 0 "a.txt") /\
  is_dir disk0 (cwd (ls_executor (Some ["tmp"; "a"; "b"]) false)) = true /\
  Executor_isFailed {| self := ls_executor (Some ["tmp"; "a"; "b"]) false;
                       disk := disk0 |}
    = (Ok None, {| self := ls_executor (Some ["tmp"; "a"; "b"]) false;
                   disk := disk0 |}) /\
  outcome (run_on Executor_hooks (world_exit 0 "a.txt")
             (ls_executor (Some ["tmp"; "a"; "b"]) false) disk0)
    = Raise (RunError (launch_failure_text "No such file or directory")) /\
  steps (run_on Executor_hooks (world_exit 0 "a.txt")
           (ls_executor (Some ["tmp"; "a"; "b"]) false) disk0)
    = [StepPrepare; StepCleanup].
Proof. repeat split; reflexivity. Qed.


(** ** A run that returns *)

Lemma handled_ok_inv {R} (rb : result R) s tr (r : R) :
  fst (handled (rb, (s, tr))) = Ok r ->
  rb = Ok r /\ handled (rb, (s, tr)) = (Ok r, (s, tr)).
Proof.
  destruct rb as [a|e]; simpl.
  - intros H. inversion H. auto.
  - destruct e; simpl; try discriminate.
    + destruct (@fail_raises R (set_err (ErrInstance MemoryError) s))
        as (x & s' & Hf & _). rewrite Hf. discriminate.
    + destruct (@fail_raises R
                  (set_err (ErrInstance
                              (CalledProcessError returncode cmd output)) s))
        as (x & s' & Hf & _). rewrite Hf. discriminate.
Qed.

(** A run that returns went through every step without an exception. *)
Lemma run_ok_inv {R} (h : hooks R) (w : world) s (r : R) :
  fst (run h w (s, [])) = Ok r ->
  exists s1 c m s2 s3,
    prepare h w (with_self reset s) = (Ok tt, s1) /\
    execute w s1 = (Ok c, s1) /\
    cp_returncode c = 0 /\
    isFailed h (set_cp c s1) = (Ok m, s2) /\
    message_truthy m = false /\
    finish h (set_fm m s2) = (Ok r, s3) /\
    fst (cleanup s3) = Ok tt /\
    fst (snd (run h w (s, []))) = snd (cleanup s3).
Proof.
  rewrite run_eq.
  destruct (run_body h w (with_self reset s, [])) as [rb [sb trb]] eqn:Eb.
  intros Hout.
  assert (Hh : fst (handled (rb, (sb, trb))) = Ok r /\
               fst (cleanup (fst (snd (handled (rb, (sb, trb)))))) = Ok tt).
  { destruct (handled (rb, (sb, trb))) as [r' [s' tr']].
    rewrite cleaned_outcome in Hout. simpl.
    destruct (fst (cleanup s')) as [[]|x]; [auto | discriminate]. }
  destruct Hh as [Hh Hc].
  destruct (handled_ok_inv _ _ _ _ Hh) as [-> Hheq].
  rewrite Hheq in *. simpl in Hc.
  assert (Hfin : fst (snd (cleaned (Ok r, (sb, trb)))) = snd (cleanup sb)).
  { unfold cleaned. destruct (cleanup sb) as [[[]|x] s4]; reflexivity. }
  rewrite Hfin. clear Hfin Hheq Hh Hout.
  revert Eb. run_body_cases h w (with_self reset s) (@nil step).
  - destruct (@fail_raises R (set_err ErrRunErrorClass (set_fm m s2)))
      as (x & s' & Hf & _). rewrite Hf. discriminate.
  - destruct (finish h (set_fm m s2)) as [rf s3] eqn:Ef.
    intros Eb. inversion Eb. subst.
    exists s1, c, m, s2, sb. auto 10.
  - discriminate.
  - discriminate.
  - discriminate.
  - discriminate.
Qed.

Lemma Executor_finish_ok s r s3 :
  Executor_finish s = (Ok r, s3) ->
  exists c,
    completed_process (self s) = Some c /\
    r = (cp_args c, cp_returncode c, cp_stdout c) /\
    self s3 = self s /\
    (if catch_truthy (catch_out (self s))
     then exists p, f_stdout (self s) = Some p /\
                    disk s3 = update (disk s) p (File (cp_stdout c))
     else disk s3 = disk s).
Proof.
  unfold Executor_finish, mbind at 1, get_self.
  destruct (completed_process (self s)) as [c|]; [|discriminate].
  unfold mbind, ret. destruct (catch_truthy (catch_out (self s))).
  - rewrite write_f_stdout_eq.
    destruct (f_stdout (self s)) as [p|]; [|discriminate].
    destruct (write_text (disk s) p (cp_stdout c)) as [f|x] eqn:Ew;
      [|discriminate].
    intros H. inversion H. subst. exists c. simpl.
    destruct (write_text_preserving _ _ _ _ Ew) as [_ ->]. eauto 10.
  - intros H. inversion H. subst. exists c. auto.
Qed.

Lemma cleanup_ok_disk (s : state) :
  fst (cleanup s) = Ok tt ->
  self (snd (cleanup s)) = self s /\
  (disk (snd (cleanup s)) = disk s \/
   exists t, tempdir (self s) = Some t /\ keep_tempdir (self s) = false /\
             disk (snd (cleanup s)) =
               (fun q => if is_prefix t q then None else disk s q)).
Proof.
  rewrite cleanup_eq. destruct (tempdir (self s)) as [t|] eqn:Et; [|auto].
  destruct (exists_ (disk s) t); [|auto].
  destruct (keep_tempdir (self s)) eqn:Ek; [auto|].
  unfold rmtree. destruct (lookup (disk s) t) as [[|]|]; simpl;
    try discriminate.
  intros _. split; [reflexivity|]. right. exists t. auto.
Qed.

Lemma Executor_init_inv args0 co dout tdir keep cw verb e :
  Executor_init args0 co dout tdir keep cw verb = Ok e ->
  args e = args0 /\ catch_out e = co /\ keep_tempdir e = keep /\
  cwd e = cw /\ tempdir e = tdir /\ dir_out e = dout /\
  hd_error args0 = Some (program e) /\
  (catch_truthy co = true ->
   f_stdout e = Some (path_join cw (capture_name co (program e)))).
Proof.
  unfold Executor_init. destruct args0 as [|prog rest]; [discriminate|].
  intros H. inversion H. subst. simpl. repeat split.
  destruct co as [[|]|name]; simpl; try discriminate; reflexivity.
Qed.

Lemma split_slash_no_slash (s : string) :
  no_slash s = true -> forall cur, split_slash cur s = [cur ++ s].
Proof.
  induction s as [|c s IH]; simpl; intros Hs cur.
  - replace (cur ++ "") with cur
      by (clear; induction cur as [|x cur IH]; simpl; congruence).
    reflexivity.
  - apply andb_true_iff in Hs as [Hc Hs]. apply negb_true_iff in Hc.
    rewrite Hc, (IH Hs).
    replace ((cur ++ String c "") ++ s) with (cur ++ String c s)
      by (clear; induction cur as [|x cur IH]; simpl; congruence).
    reflexivity.
Qed.

(** Joining a file name appends one component. *)
Lemma path_join_file_name (p : path) (name : string) :
  file_name name = true -> path_join p name = (p ++ [name])%list.
Proof.
  unfold file_name. intros H. apply andb_true_iff in H as [Hs Hn].
  apply negb_true_iff in Hn.
  apply orb_false_iff in Hn as [Hn _]. apply orb_false_iff in Hn as [He Hd].
  unfold path_join, path_components.
  rewrite (split_slash_no_slash name Hs). cbn [append filter].
  rewrite He, Hd. cbn [orb negb].
  destruct name as [|c name]; [discriminate|].
  cbn [is_absolute]. cbn [no_slash] in Hs.
  apply andb_true_iff in Hs as [Hc _]. apply negb_true_iff in Hc.
  rewrite Hc. reflexivity.
Qed.

Lemma path_join_script (p : path) :
  path_join p "script.sh" = (p ++ ["script.sh"])%list.
Proof. reflexivity. Qed.

Lemma app_one_nonroot (p : path) (name : string) : (p ++ [name])%list <> [].
Proof. intros H. apply app_eq_nil in H. destruct H. discriminate. Qed.

(** C9 (amended).  With output capture on and a capture name that is a
    plain file name, when the program exits with 0, the predicate reports
    nothing and [run] returns, the file [<cwd>/<program>.out] (or
    [<cwd>/<name>]) holds exactly the captured output -- provided [cleanup]
    does not remove it, that is, the temporary directory is kept or the
    file does not lie below it. *)
Theorem C9_capture_file cls (predicate : Executor -> option string)
    (w : world) args0 co dout tdir keep cw verb e d r :
  Executor_init args0 co dout tdir keep cw verb = Ok e ->
  catch_truthy co = true ->
  file_name (capture_name co (program e)) = true ->
  outcome (run_on (Executor_hooks_with cls predicate) w e d) = Ok r ->
  (keep = true \/
   forall t,
     tempdir (final_self (run_on (Executor_hooks_with cls predicate) w e d))
       = Some t ->
     is_prefix t (cw ++ [capture_name co (program e)])%list = false) ->
  exists out,
    r = (args0, 0, out) /\
    lookup (final_disk (run_on (Executor_hooks_with cls predicate) w e d))
           (cw ++ [capture_name co (program e)])%list
      = Some (File out).
Proof.
  intros Hinit Hco Hname Hout Hkeep.
  destruct (Executor_init_inv _ _ _ _ _ _ _ _ Hinit)
    as (Hargs & Hcatch & Hk & Hcwd & _ & _ & _ & Hf).
  specialize (Hf Hco). rewrite (path_join_file_name _ _ Hname) in Hf.
  unfold outcome, run_on in Hout.
  destruct (run_ok_inv _ _ _ _ Hout)
    as (s1 & c & m & s2 & s3 & Hp & He & Hc & Hpred & Hm & Hfin & Hcl & Hst).
  pose proof (prepared_instance _ w (Executor_hooks_with_framed cls predicate w)
                e d _ _ Hp) as Hself.
  assert (Hs2 : s2 = set_cp c s1).
  { simpl in Hpred. unfold mbind, get_self, ret in Hpred. inversion Hpred.
    reflexivity. }
  subst s2.
  destruct (Executor_finish_ok _ _ _ Hfin) as (c' & Hcp & Hr & Hs3 & Hdisk).
  simpl in Hcp. inversion Hcp. subst c'. clear Hcp.
  assert (Hco3 : catch_out (self s1) = co) by (rewrite Hself; exact Hcatch).
  assert (Hf3 : f_stdout (self s1) =
                Some (cw ++ [capture_name co (program e)])%list)
    by (rewrite Hself; exact Hf).
  simpl in Hdisk. rewrite Hco3, Hco in Hdisk.
  destruct Hdisk as (p & Hp3 & Hd3). rewrite Hf3 in Hp3. inversion Hp3.
  subst p. clear Hp3.
  assert (Hca : cp_args c = args0).
  { rewrite execute_eq in He. destruct (is_dir _ _); [|inversion He].
    destruct (subprocess_run _ _ _ _); inversion He. simpl.
    rewrite Hself. simpl. exact Hargs. }
  exists (cp_stdout c). split; [rewrite Hr, Hca, Hc; reflexivity|].
  unfold final_disk, final_self, run_on in *. rewrite Hst in *.
  destruct (cleanup_ok_disk _ Hcl) as [Hsf [Hd|(t & Ht & Hkf & Hd)]];
    rewrite Hd.
  - rewrite Hd3. apply lookup_update_same. apply app_one_nonroot.
  - assert (Hpre : is_prefix t (cw ++ [capture_name co (program e)])%list = false).
    { destruct Hkeep as [Hkt|Hno].
      - rewrite Hs3 in Hkf. simpl in Hkf. rewrite Hself in Hkf. simpl in Hkf.
        congruence.
      - apply Hno. rewrite Hsf. exact Ht. }
    pose proof (app_one_nonroot cw (capture_name co (program e))) as Hnr.
    unfold lookup. destruct (cw ++ [capture_name co (program e)])%list
      as [|a q] eqn:Ep; [contradiction|].
    rewrite Hpre, Hd3. unfold update. rewrite path_eqb_refl. reflexivity.
Qed.

Lemma C9_capture_file_witness :
  Executor_init ["ls"; "."] (CatchBool true) None (Some ["work"]) true
    ["work"] false = Ok (ls_capture (Some ["work"]) true) /\
  exists out,
    outcome (run_on (Executor_hooks_with "executor" (fun _ => None))
               (world_exit 0 "test1.txt") (ls_capture (Some ["work"]) true)
               disk0)
      = Ok (["ls"; "."], 0, out) /\
    lookup (final_disk (run_on (Executor_hooks_with "executor" (fun _ => None))
                          (world_exit 0 "test1.txt")
                          (ls_capture (Some ["work"]) true) disk0))
           ["work"; "ls.out"]
      = Some (File out).
Proof.
  split; [reflexivity|].
  destruct (C9_capture_file "executor" (fun _ => None)
              (world_exit 0 "test1.txt")
              ["ls"; "."] (CatchBool true) None (Some ["work"]) true ["work"]
              false (ls_capture (Some ["work"]) true) disk0
              (["ls"; "."], 0, "test1.txt")
              eq_refl eq_refl eq_refl eq_refl (or_introl eq_refl))
    as (out & Hr & Hl).
  exists out. split; [rewrite <- Hr; reflexivity | exact Hl].
Defined.

(** C9 as stated fails: the working directory is the temporary directory
    and it is not kept.  [run] returns the output, and [cleanup] has
    removed the capture file with the directory. *)
Lemma C9_counterexample :
  Executor_init ["ls"; "."] (CatchBool true) None (Some ["work"]) false
    ["work"] false = Ok (ls_capture (Some ["work"]) false) /\
  outcome (run_on Executor_hooks (world_exit 0 "test1.txt")
             (ls_capture (Some ["work"]) false) disk0)
    = Ok (["ls"; "."], 0, "test1.txt") /\
  exists_ (final_disk (run_on Executor_hooks (world_exit 0 "test1.txt")
                         (ls_capture (Some ["work"]) false) disk0))
          ["work"; "ls.out"] = false.
Proof. repeat split; reflexivity. Qed.

(** A program named by an absolute path takes the capture file with it:
    [Executor(['/tmp/vtools/hello'], tempdir=/tmp/mine, keep_tempdir=True,
    cwd=/work)] writes [/tmp/vtools/hello.out], and nothing under the
    working directory. *)
Example capture_file_follows_program :
  exists e,
    Executor_init ["/tmp/vtools/hello"] (CatchBool true) None
      (Some ["tmp"; "mine"]) true ["work"] false = Ok e /\
    f_stdout e = Some ["tmp"; "vtools"; "hello.out"] /\
    outcome (run_on Executor_hooks (world_exit 0 "hi") e disk_vtools)
      = Ok (["/tmp/vtools/hello"], 0, "hi") /\
    lookup (final_disk (run_on Executor_hooks (world_exit 0 "hi") e disk_vtools))
           ["tmp"; "vtools"; "hello.out"] = Some (File "hi") /\
    lookup (final_disk (run_on Executor_hooks (world_exit 0 "hi") e disk_vtools))
           ["work"; "hello.out"] = None.
Proof.
  eexists. split; [vm_compute; reflexivity|].
  repeat split; vm_compute; reflexivity.
Qed.

(** A relative name with a directory part is appended component by
    component, and a name given as [catch_out] is parsed the same way. *)
Example capture_path_relative :
  path_join ["work"] "logs/./run.out" = ["work"; "logs"; "run.out"] /\
  path_join ["work"] "/var/log/run.out" = ["var"; "log"; "run.out"] /\
  path_join ["work"] "ls.out" = ["work"; "ls.out"].
Proof. repeat split. Qed.

(** ** The job identifier *)

Lemma is_digit_nonempty (ch : string) : is_digit ch = true -> ch <> EmptyString.
Proof. intros H ->. discriminate. Qed.

Lemma take_digits_split (cs : list string) :
  exists run post,
    cs = (run ++ post)%list /\
    take_digits cs = join_chars run /\
    forallb is_digit run = true /\
    match post with
    | [] => True
    | ch :: _ => is_digit ch = false
    end.
Proof.
  induction cs as [|ch cs IH]; simpl.
  - exists [], []. auto.
  - destruct (is_digit ch) eqn:Ec.
    + destruct IH as (run & post & Hs & Ht & Ha & Hp).
      exists (ch :: run), post. simpl. rewrite Ec, <- Hs, Ht. auto.
    + exists [], (ch :: cs). simpl. auto.
Qed.

Lemma take_digits_app (run post : list string) :
  forallb is_digit run = true ->
  match post with
  | [] => True
  | ch :: _ => is_digit ch = false
  end ->
  take_digits (run ++ post) = join_chars run.
Proof.
  intros Hd Hp. induction run as [|ch run IH]; simpl in *.
  - destruct post as [|ch p]; [reflexivity|]. simpl. rewrite Hp. reflexivity.
  - apply andb_true_iff in Hd as [Hc Hd]. rewrite Hc, (IH Hd). reflexivity.
Qed.

Lemma search_digits_sound (cs : list string) (d : string) :
  search_digits cs = Some d ->
  exists pre run post,
    cs = (pre ++ run ++ post)%list /\
    forallb (fun ch => negb (is_digit ch)) pre = true /\
    run <> [] /\
    forallb is_digit run = true /\
    d = join_chars run /\
    match post with
    | [] => True
    | ch :: _ => is_digit ch = false
    end.
Proof.
  induction cs as [|ch cs IH]; simpl; [discriminate|].
  destruct (is_digit ch) eqn:Ec.
  - intros H. inversion H. subst d. clear H.
    destruct (take_digits_split cs) as (run & post & Hs & Ht & Ha & Hp).
    exists [], (ch :: run), post. simpl. rewrite Ec, <- Hs, Ht.
    repeat split; auto. discriminate.
  - intros H. destruct (IH H) as (pre & run & post & Hs & Hn & Hne & Ha & Hd & Hp).
    exists (ch :: pre), run, post. simpl. rewrite Ec, <- Hs. auto 10.
Qed.

Lemma re_search_digits_sound (s d : string) :
  re_search_digits s = Some d -> first_digit_run s d.
Proof. apply search_digits_sound. Qed.

Lemma re_search_digits_complete (s d : string) :
  first_digit_run s d -> re_search_digits s = Some d.
Proof.
  unfold re_search_digits.
  intros (pre & run & post & -> & Hn & Hne & Ha & -> & Hp).
  induction pre as [|ch pre IH]; simpl in *.
  - destruct run as [|ch run]; [contradiction|]. simpl in *.
    apply andb_true_iff in Ha as [Hc Ha]. rewrite Hc.
    rewrite (take_digits_app run post Ha Hp). reflexivity.
  - apply andb_true_iff in Hn as [Hc Hn].
    apply negb_true_iff in Hc. rewrite Hc. apply IH, Hn.
Qed.

Lemma re_search_digits_none (s : string) :
  re_search_digits s = None <-> no_digit s = true.
Proof.
  unfold re_search_digits, no_digit.
  induction (chars s) as [|ch cs IH]; simpl; [tauto|].
  destruct (is_digit ch); simpl; [split; discriminate | exact IH].
Qed.

Lemma first_digit_run_nonempty (s d : string) :
  first_digit_run s d -> d <> EmptyString.
Proof.
  intros (pre & run & post & _ & _ & Hne & Ha & -> & _).
  destruct run as [|ch run]; [contradiction|]. simpl in *.
  apply andb_true_iff in Ha as [Hc _].
  pose proof (is_digit_nonempty _ Hc) as Hch.
  destruct ch; [contradiction | discriminate].
Qed.

Lemma IbexRun_finish_eq (s : state) (c : CompletedProcess) :
  completed_process (self s) = Some c ->
  IbexRun_finish s =
  match re_search_digits (cp_stdout c) with
  | Some id => (Ok id, s)
  | None =>
      (Raise (AttributeError "'NoneType' object has no attribute 'group'"), s)
  end.
Proof.
  intros Hc. unfold IbexRun_finish, mbind, get_self. rewrite Hc.
  destruct (re_search_digits (cp_stdout c)); reflexivity.
Qed.

Lemma cleaned_self {R} (r : result R) (s : state) (tr : list step) :
  self (fst (snd (cleaned (r, (s, tr))))) = self s.
Proof.
  unfold cleaned. rewrite cleanup_eq.
  destruct (tempdir (self s)) as [t|]; [|reflexivity].
  destruct (exists_ (disk s) t); [|reflexivity].
  destruct (keep_tempdir (self s)); [reflexivity|].
  destruct (rmtree (disk s) t); reflexivity.
Qed.

(** The [except] clauses assign [error] and nothing else. *)
Lemma handled_completed_process {R} (r : result R) (s : state) (tr : list step) :
  completed_process (self (fst (snd (handled (r, (s, tr))))))
  = completed_process (self s).
Proof.
  destruct r as [a|e]; [reflexivity|].
  destruct e; try reflexivity; cbn -[fail];
    match goal with
    | |- context [@fail ?A ?st] =>
        destruct (@fail_raises A st) as (x & s' & -> & Hs)
    end;
    cbn [fst snd]; rewrite Hs; reflexivity.
Qed.

Lemma final_completed_process {R} (r : result R) (s : state) (tr : list step) :
  completed_process (self (fst (snd (cleaned (handled (r, (s, tr)))))))
  = completed_process (self s).
Proof.
  rewrite <- (handled_completed_process r s tr).
  destruct (handled (r, (s, tr))) as [r' [s' tr']]. cbn [fst snd].
  rewrite cleaned_self. reflexivity.
Qed.

(** The error that replaces the pending outcome when [cleanup] raises is
    an [OSError]. *)
Lemma cleaned_raise {R} (e : exn) (s : state) (tr : list step) :
  fst (@cleaned R (Raise e, (s, tr))) = Raise e \/
  exists msg, fst (@cleaned R (Raise e, (s, tr))) = Raise (OSError msg).
Proof.
  rewrite cleaned_outcome.
  destruct (fst (cleanup s)) as [u|x] eqn:Ec; [left; reflexivity|].
  destruct (cleanup_raises _ _ Ec) as (msg & ->). right. eauto.
Qed.

(** C7 (amended).  [IbexRun.finish] returns exactly the first contiguous
    run of decimal digits of the captured reply, and a reply without a
    digit makes it raise the [AttributeError] of calling [group] on
    [None].  Hence a value returned by [run] is a non-empty digit run of
    the reply of a submission that exited with 0; [run] never returns when
    the reply has no digit; and after an exit with 0 the error it raises
    then is that [AttributeError] -- not an error of the package -- unless
    [cleanup] raises in turn, whose [OSError] replaces it. *)
Theorem C7_job_identifier (ib : IbexRun) (w : world) (d : fs) :
  (forall s c, completed_process (self s) = Some c ->
     (forall id, first_digit_run (cp_stdout c) id <->
                 IbexRun_finish s = (Ok id, s)) /\
     (no_digit (cp_stdout c) = true ->
      IbexRun_finish s =
        (Raise (AttributeError "'NoneType' object has no attribute 'group'"),
         s))) /\
  (forall id, outcome (IbexRun_run ib w d) = Ok id ->
     exists c,
       completed_process (final_self (IbexRun_run ib w d)) = Some c /\
       cp_returncode c = 0 /\
       first_digit_run (cp_stdout c) id /\ id <> EmptyString) /\
  (forall c,
     completed_process (final_self (IbexRun_run ib w d)) = Some c ->
     no_digit (cp_stdout c) = true ->
     (exists e, outcome (IbexRun_run ib w d) = Raise e) /\
     (cp_returncode c = 0 ->
      outcome (IbexRun_run ib w d) =
        Raise (AttributeError "'NoneType' object has no attribute 'group'") \/
      exists msg, outcome (IbexRun_run ib w d) = Raise (OSError msg))).
Proof.
  assert (Hret : forall id, outcome (IbexRun_run ib w d) = Ok id ->
     exists c,
       completed_process (final_self (IbexRun_run ib w d)) = Some c /\
       cp_returncode c = 0 /\
       first_digit_run (cp_stdout c) id /\ id <> EmptyString).
  { intros id Hout. unfold outcome, IbexRun_run, run_on in Hout.
    destruct (run_ok_inv _ _ _ _ Hout)
      as (s1 & c & m & s2 & s3 & Hp & He & Hc & Hpred & Hm & Hfin & Hcl & Hst).
    simpl in Hpred. inversion Hpred. subst m s2. clear Hpred.
    simpl in Hfin.
    rewrite (IbexRun_finish_eq (set_fm None (set_cp c s1)) c) in Hfin
      by reflexivity.
    destruct (re_search_digits (cp_stdout c)) as [id'|] eqn:Es;
      inversion Hfin. subst id' s3.
    exists c. unfold final_self, IbexRun_run, run_on. rewrite Hst.
    destruct (cleanup_ok_disk _ Hcl) as [Hsf _]. rewrite Hsf.
    pose proof (re_search_digits_sound _ _ Es) as Hrun.
    repeat split; auto.
    apply (first_digit_run_nonempty _ _ Hrun). }
  split; [|split; [exact Hret|]].
  - intros s c Hc. rewrite (IbexRun_finish_eq s c Hc). split.
    + intros id. split.
      * intros Hrun. rewrite (re_search_digits_complete _ _ Hrun). reflexivity.
      * destruct (re_search_digits (cp_stdout c)) as [id'|] eqn:Es;
          intros H; inversion H. subst id'.
        apply re_search_digits_sound, Es.
    + intros Hn. apply re_search_digits_none in Hn. rewrite Hn. reflexivity.
  - intros c Hc Hn. split.
    + destruct (outcome (IbexRun_run ib w d)) as [id|e] eqn:Eo; [|eauto].
      destruct (Hret id eq_refl) as (c' & Hc' & _ & Hrun & _).
      rewrite Hc in Hc'. inversion Hc'. subst c'.
      apply re_search_digits_complete in Hrun.
      apply re_search_digits_none in Hn. congruence.
    + intros Hrc. revert Hc.
      unfold outcome, final_self, IbexRun_run, run_on. rewrite run_eq.
      pose proof (IbexRun_prepare_stable ib w) as Hst.
      run_body_cases (IbexRun_hooks ib) w
        (with_self reset {| self := base ib; disk := d |}) (@nil step);
        cbn [prepare IbexRun_hooks] in Hprep;
        pose proof (Hst _ _ _ Hprep) as Hs1.
      * simpl in Hpred. inversion Hpred. subst. discriminate.
      * simpl in Hpred. inversion Hpred. subst m s2. clear Hpred.
        cbn [finish IbexRun_hooks].
        rewrite (IbexRun_finish_eq (set_fm None (set_cp c0 s1)) c0)
          by reflexivity.
        destruct (re_search_digits (cp_stdout c0)) as [id|] eqn:Es.
        -- rewrite final_completed_process. cbn. intros H. inversion H.
           subst c0. apply re_search_digits_none in Hn. congruence.
        -- intros _. cbn [handled]. apply cleaned_raise.
      * simpl in Hpred. discriminate.
      * rewrite final_completed_process. cbn. intros H. inversion H.
        subst c0. contradiction.
      * rewrite final_completed_process, Hs1. cbn. discriminate.
      * rewrite final_completed_process, Hs1. cbn. discriminate.
Qed.

Lemma C7_job_identifier_witness :
  exists ib,
    ibex_unittest = Ok ib /\
    exists c,
      completed_process
        (final_self (IbexRun_run ib
                       (world_exit 0 "Submitted batch job 12345678") disk0))
        = Some c /\
      cp_returncode c = 0 /\
      first_digit_run (cp_stdout c) "12345678" /\
      "12345678" <> EmptyString.
Proof.
  eexists. split; [vm_compute; reflexivity|].
  apply (proj1 (proj2 (C7_job_identifier _
                         (world_exit 0 "Submitted batch job 12345678") disk0))
           "12345678").
  vm_compute. reflexivity.
Defined.

(** C7 as stated fails in its last part: for a reply without a digit the
    error that reaches the caller is the [AttributeError] of [None.group()],
    which names neither the reply nor the job; it is none of the errors of
    the package. *)
Lemma C7_counterexample :
  exists ib,
    ibex_unittest = Ok ib /\
    no_digit "sbatch: queued" = true /\
    outcome (IbexRun_run ib (world_exit 0 "sbatch: queued") disk0)
      = Raise (AttributeError "'NoneType' object has no attribute 'group'") /\
    (forall payload,
       outcome (IbexRun_run ib (world_exit 0 "sbatch: queued") disk0)
         <> Raise (RunError payload)) /\
    steps (IbexRun_run ib (world_exit 0 "sbatch: queued") disk0)
      = [StepPrepare; StepExecute; StepFinish; StepCleanup].
Proof.
  eexists. split; [vm_compute; reflexivity|].
  split; [vm_compute; reflexivity|].
  split; [vm_compute; reflexivity|]. split.
  - intros payload. vm_compute. discriminate.
  - vm_compute. reflexivity.
Qed.

Example job_id_first_run :
  re_search_digits "Submitted batch job 12345678 on cluster 42" = Some "12345678".
Proof. vm_compute. reflexivity. Qed.

(** The class [\d] is that of Unicode: a reply whose number is written in
    Arabic-Indic digits (here U+0663 U+0664, in UTF-8) has a job
    identifier, those two characters. *)
Example job_id_unicode_digits :
  re_search_digits
    ("job " ++ String "217" (String "163" (String "217" (String "164" " ok"))))
  = Some (String "217" (String "163" (String "217" (String "164" "")))).
Proof. vm_compute. reflexivity. Qed.

(** A superscript two (U+00B2) is no decimal digit. *)
Example superscript_is_no_digit :
  re_search_digits ("x" ++ String "194" (String "178" "")) = None.
Proof. vm_compute. reflexivity. Qed.

(** ** The submission script *)

Lemma str_app_assoc (a b c : string) : (a ++ b) ++ c = a ++ b ++ c.
Proof. induction a as [|x a IH]; simpl; [reflexivity | rewrite IH; reflexivity]. Qed.

Lemma IbexRun_init_fields tpc out n jn pt nt cpt mem m kw ib :
  IbexRun_init tpc out n jn pt nt cpt mem m kw = Ok ib ->
  jobname ib = jn /\ partition ib = pt /\ ntasks ib = nt /\
  cpus_per_task ib = cpt /\ mem_per_cpu ib = mem /\
  time_per_command ib = tpc.
Proof.
  unfold IbexRun_init.
  destruct (np_ceil_div n m) as [cpj|] eqn:E1; [|discriminate]. cbn [bind].
  destruct (np_ceil_div n cpj) as [nj|] eqn:E2; [|discriminate]. cbn [bind].
  destruct (time_str cpj tpc) as [tpj|] eqn:E3; [|discriminate]. cbn [bind].
  rewrite split_ws_sbatch. cbn [Executor_init bind].
  intros H. inversion H. simpl. auto 10.
Qed.

Lemma IbexRun_prepare_ok ib w s s' :
  IbexRun_prepare ib w s = (Ok tt, s') ->
  self s' = self s /\
  exists d1, disk s' = update d1 (script_file ib) (File (script ib)).
Proof.
  unfold IbexRun_prepare, mbind at 1, get_disk. unfold mbind.
  assert (Hfirst : forall r s1,
            (if exists_ (disk s) (out_ibex ib) then ret tt
             else fs_call (fun f => mkdir_parents f (out_ibex ib))) s = (r, s1) ->
            self s1 = self s).
  { intros r s1. destruct (exists_ (disk s) (out_ibex ib)).
    - intros H. inversion H. reflexivity.
    - unfold fs_call. destruct (mkdir_parents (disk s) (out_ibex ib));
        intros H; inversion H; reflexivity. }
  destruct ((if exists_ (disk s) (out_ibex ib) then ret tt
             else fs_call (fun f => mkdir_parents f (out_ibex ib))) s)
    as [[[]|x] s1] eqn:E1; [|discriminate].
  specialize (Hfirst _ _ eq_refl).
  unfold fs_call.
  destruct (write_text (disk s1) (script_file ib) (script ib)) as [f|x] eqn:Ew;
    [|discriminate].
  intros H. inversion H. subst s'. simpl.
  destruct (write_text_preserving _ _ _ _ Ew) as [_ ->]. eauto.
Qed.

Lemma IbexRun_prepare_returns ib w s :
  script_file ib = path_join (out_ibex ib) "script.sh" ->
  is_dir (disk s) (out_ibex ib) = true ->
  lookup (disk s) (script_file ib) <> Some Dir ->
  exists s', IbexRun_prepare ib w s = (Ok tt, s').
Proof.
  intros Hsf Hd Hn.
  unfold IbexRun_prepare, mbind at 1, get_disk. unfold mbind.
  rewrite (is_dir_exists _ _ Hd). unfold ret, fs_call, write_text.
  assert (Hpar : lookup (disk s) (parent (script_file ib)) = Some Dir).
  { rewrite Hsf, path_join_script. unfold parent. rewrite removelast_last.
    unfold is_dir in Hd. destruct (lookup (disk s) (out_ibex ib)) as [[|]|];
      try discriminate. reflexivity. }
  rewrite Hpar.
  destruct (lookup (disk s) (script_file ib)) as [[|]|]; eauto.
  contradiction.
Qed.

(** C8.  For every constructed [IbexRun], the script is the interpreter
    line, then the directives job name, partition, output path template
    (with the [%J] token), time budget (what [time_str] returned for the
    plan), task count, cpus per task, memory per cpu with suffix [G], and
    the array range [0-<njobs - 1>], in this order, then a blank line and
    the body.  When [prepare] returns, the file [<out_ibex>/script.sh]
    holds this script and the instance is unchanged; and [prepare] does
    return when [out_ibex] is a directory and the place of the script is
    not taken by a directory. *)
Theorem C8_script_written tpc out n jn pt nt cpt mem m kw ib w :
  IbexRun_init tpc out n jn pt nt cpt mem m kw = Ok ib ->
  time_str (commands_per_job ib) tpc = Ok (time_per_job ib) /\
  script ib =
    "#!/bin/bash" ++ nl ++
    unlines (script_header jn pt out (time_per_job ib)
               nt cpt mem (njobs ib)) ++
    nl ++ script_body /\
  (forall s s',
     IbexRun_prepare ib w s = (Ok tt, s') ->
     lookup (disk s') (path_join out "script.sh") = Some (File (script ib)) /\
     self s' = self s) /\
  (forall s,
     is_dir (disk s) out = true ->
     lookup (disk s) (path_join out "script.sh") <> Some Dir ->
     exists s', IbexRun_prepare ib w s = (Ok tt, s')).
Proof.
  intros Hinit.
  destruct (IbexRun_init_inv _ _ _ _ _ _ _ _ _ _ _ Hinit)
    as (_ & _ & Ht & Hsf & Hout & _).
  destruct (IbexRun_init_fields _ _ _ _ _ _ _ _ _ _ _ Hinit)
    as (Hjn & Hpt & Hnt & Hcpt & Hmem & _).
  split; [exact Ht|]. split; [|split].
  - unfold script, script_header, unlines.
    rewrite Hjn, Hpt, Hnt, Hcpt, Hmem, Hout.
    repeat rewrite str_app_assoc. reflexivity.
  - intros s s' Hprep.
    destruct (IbexRun_prepare_ok _ _ _ _ Hprep) as [Hself (d1 & Hd)].
    split; [|exact Hself].
    rewrite Hd, <- Hsf. apply lookup_update_same.
    rewrite Hsf, path_join_script. apply app_one_nonroot.
  - intros s Hd Hn. apply IbexRun_prepare_returns.
    + rewrite Hsf, Hout. reflexivity.
    + rewrite Hout. exact Hd.
    + rewrite Hsf. exact Hn.
Qed.

Lemma C8_script_written_witness :
  exists ib s',
    ibex_unittest = Ok ib /\
    IbexRun_prepare ib (world_exit 0 "Submitted batch job 1")
      {| self := base ib; disk := disk0 |} = (Ok tt, s') /\
    lookup (disk s') (path_join ["tmp"; "ibextest"] "script.sh")
      = Some (File (script ib)) /\
    self s' = base ib.
Proof.
  eexists. eexists. split; [vm_compute; reflexivity|].
  split; [vm_compute; reflexivity|].
  apply (proj1 (proj2 (proj2 (C8_script_written 1 ["tmp"; "ibextest"] 1
                         "ibex_unittest" "debug" 1 1 2 1990
                         {| kw_catch_out := CatchBool true; kw_dir_out := None;
                            kw_tempdir := None; kw_keep_tempdir := false;
                            kw_cwd := ["work"]; kw_verbose := false |}
                         _ (world_exit 0 "Submitted batch job 1")
                         ltac:(vm_compute; reflexivity))))
           {| self := _; disk := disk0 |}).
  vm_compute. reflexivity.
Defined.

(** The script of the unit test [test_script_created]. *)
Example script_of_unittest :
  exists ib,
    ibex_unittest = Ok ib /\
    script ib =
      "#!/bin/bash" ++ nl ++
      "#SBATCH --job-name=ibex_unittest" ++ nl ++
      "#SBATCH --partition=debug" ++ nl ++
      "#SBATCH --output=/tmp/ibextest/%J.out" ++ nl ++
      "#SBATCH --time=00:01:00" ++ nl ++
      "#SBATCH --ntasks=1" ++ nl ++
      "#SBATCH --cpus-per-task=1" ++ nl ++
      "#SBATCH --mem-per-cpu=2G" ++ nl ++
      "#SBATCH --array=0-0" ++ nl ++
      nl ++
      "echo 'Hello world!'" ++ nl /\
    args (base ib) = ["sbatch"; "/tmp/ibextest/script.sh"].
Proof. eexists. split; [vm_compute; reflexivity|]. split; reflexivity. Qed.

(* ================================================================== *)
(** * Further properties of the two modules *)

(** ** The plan *)

(** [IbexRun.__init__] raises nothing but [ZeroDivisionError] and
    [OverflowError].  On arguments within 53 bits it raises
    [ZeroDivisionError] alone, and raises it exactly when [max_jobs] is 0
    or the quotient [ncommands / max_jobs] lies in the interval (-1, 0],
    whose ceiling is 0. *)
Theorem IbexRun_init_raises_iff tpc out n jn pt nt cpt mem m kw :
  (forall e, IbexRun_init tpc out n jn pt nt cpt mem m kw = Raise e ->
             e = ZeroDivisionError \/ e = OverflowError) /\
  (fits53 n -> fits53 m -> fits53 (n * tpc) ->
   (forall e, IbexRun_init tpc out n jn pt nt cpt mem m kw = Raise e ->
              e = ZeroDivisionError) /\
   ((exists e, IbexRun_init tpc out n jn pt nt cpt mem m kw = Raise e) <->
    m = 0 \/ (0 < m /\ - m < n <= 0) \/ (m < 0 /\ 0 <= n < - m))).
Proof.
  split.
  - intros e. unfold IbexRun_init.
    destruct (np_ceil_div n m) as [cpj|e1] eqn:E1; cbn [bind].
    + destruct (np_ceil_div n cpj) as [nj|e2] eqn:E2; cbn [bind].
      * destruct (time_str cpj tpc) as [tpj|e3] eqn:E3; cbn [bind].
        -- rewrite split_ws_sbatch. cbn [Executor_init bind]. discriminate.
        -- intros H. inversion H. subst e3. right.
           apply (time_str_raises _ _ _ E3).
      * intros H. inversion H. subst e2.
        destruct (np_ceil_div_raises _ _ _ E2) as [[_ ->]|[_ ->]]; auto.
    + intros H. inversion H. subst e1.
      destruct (np_ceil_div_raises _ _ _ E1) as [[_ ->]|[_ ->]]; auto.
  - intros Fn Fm Ft.
    assert (Hzero : m <> 0 ->
              (- (- n / m) = 0 <->
               (0 < m /\ - m < n <= 0) \/ (m < 0 /\ 0 <= n < - m))).
    { intros Hm. pose proof (ceil_div_is_ceil n m Hm) as Hc.
      unfold is_ceil in Hc. split.
      - intros Hq. rewrite Hq in Hc. lia.
      - intros Hr. destruct Hc as [[? ?]|[? ?]]; nia. }
    unfold IbexRun_init.
    destruct (Z.eq_dec m 0) as [Hm|Hm].
    { subst m. rewrite np_ceil_div_zero. cbn [bind].
      split; [intros e H; inversion H; reflexivity|].
      split; [auto | eauto]. }
    rewrite (np_ceil_div_small n m Fn Fm Hm). cbn [bind].
    set (cpj := - (- n / m)) in *.
    assert (Fc : fits53 cpj) by (apply ceil_fits53; assumption).
    destruct (Z.eq_dec cpj 0) as [Hq|Hq].
    { rewrite Hq, np_ceil_div_zero. cbn [bind].
      split; [intros e H; inversion H; reflexivity|].
      split; [intros _; right; apply Hzero; assumption | eauto]. }
    rewrite (np_ceil_div_small n cpj Fn Fc Hq). cbn [bind].
    assert (Fct : fits53 (cpj * tpc)).
    { unfold fits53 in *. rewrite Z.abs_mul in *.
      assert (Z.abs cpj <= Z.abs n).
      { pose proof (ceil_div_is_ceil n m Hm) as Hcl. fold cpj in Hcl.
        destruct Hcl as [[? ?]|[? ?]]; nia. }
      pose proof (Z.abs_nonneg tpc). nia. }
    rewrite (time_str_small cpj tpc Fct). cbn [bind].
    rewrite split_ws_sbatch. cbn [Executor_init bind].
    split; [discriminate|]. split.
    + intros [e H]. discriminate.
    + intros [H0|Hr]; [contradiction|]. apply Hzero in Hr; [|assumption].
      contradiction.
Qed.

(** The bound matters: the quotient of [-(2^60 - 1)] by [2^60] lies in
    (-1, 0], but binary64 rounds it to [-1.0], and the instance is
    constructed, with [-1] commands per job. *)
Example plan_rounded_to_minus_one :
  exists ib,
    IbexRun_init 1 ["out"] (- (2 ^ 60 - 1)) "IbexRun" "batch" 1 1 2 (2 ^ 60)
      default_kw = Ok ib /\
    commands_per_job ib = -1 /\ njobs ib = 2 ^ 60 /\
    time_per_job ib = "-1:59:00".
Proof. eexists. split; [vm_compute; reflexivity|]. repeat split. Qed.

Lemma IbexRun_init_raises_iff_witness :
  fits53 0 /\ fits53 1990 /\ fits53 (0 * 1) /\
  (exists e, IbexRun_init 1 ["out"] 0 "IbexRun" "batch" 1 1 2 1990 default_kw
             = Raise e).
Proof.
  assert (F0 : fits53 0) by (unfold fits53; vm_compute; reflexivity).
  assert (F1 : fits53 1990) by (unfold fits53; vm_compute; reflexivity).
  assert (F2 : fits53 (0 * 1)) by (unfold fits53; vm_compute; reflexivity).
  split; [exact F0|]. split; [exact F1|]. split; [exact F2|].
  apply (proj2 (proj2 (IbexRun_init_raises_iff 1 ["out"] 0 "IbexRun" "batch"
                         1 1 2 1990 default_kw) F0 F1 F2)).
  right. left. lia.
Defined.

(** With at least one command and one slot, both within 53 bits, there is
    at least one job, the last job is not empty, every command gets its own
    job when they fit in [max_jobs], and a total that is a multiple of
    [max_jobs] fills exactly [max_jobs] jobs. *)
Theorem plan_uses_slots_fully tpc out n jn pt nt cpt mem m kw ib :
  1 <= n < 2 ^ 53 -> 1 <= m < 2 ^ 53 ->
  IbexRun_init tpc out n jn pt nt cpt mem m kw = Ok ib ->
  1 <= njobs ib /\
  commands_per_job ib * (njobs ib - 1) < n /\
  (n <= m -> commands_per_job ib = 1 /\ njobs ib = n) /\
  (forall k, n = k * m -> commands_per_job ib = k /\ njobs ib = m).
Proof.
  intros Hn Hm Hinit.
  assert (Fn : fits53 n) by (unfold fits53; lia).
  assert (Fm : fits53 m) by (unfold fits53; lia).
  destruct (IbexRun_init_inv _ _ _ _ _ _ _ _ _ _ _ Hinit) as (H1 & H2 & _).
  apply (np_ceil_div_ok _ _ _ Fn Fm) in H1 as [Hm0 Hc].
  assert (Fc : fits53 (commands_per_job ib))
    by (rewrite Hc; apply ceil_fits53; assumption).
  apply (np_ceil_div_ok _ _ _ Fn Fc) in H2 as [Hc0 Hj].
  pose proof (ceil_div_is_ceil n m Hm0) as C1. rewrite <- Hc in C1.
  pose proof (ceil_div_is_ceil n _ Hc0) as C2. rewrite <- Hj in C2.
  destruct C1 as [[_ C1]|[C1 _]]; [|lia].
  assert (Hpos : 1 <= commands_per_job ib) by nia.
  destruct C2 as [[_ C2]|[C2 _]]; [|lia].
  split; [nia|]. split; [nia|]. split.
  - intros Hle. assert (commands_per_job ib = 1) by nia. split; [assumption|nia].
  - intros k Hk. assert (commands_per_job ib = k) by nia. split; [assumption|nia].
Qed.

Lemma plan_uses_slots_fully_witness :
  exists ib,
    IbexRun_init 3 ["out"] 5970 "IbexRun" "batch" 1 1 2 1990 default_kw = Ok ib /\
    (1 <= njobs ib /\
     commands_per_job ib * (njobs ib - 1) < 5970 /\
     (5970 <= 1990 -> commands_per_job ib = 1 /\ njobs ib = 5970) /\
     (forall k, 5970 = k * 1990 -> commands_per_job ib = k /\ njobs ib = 1990)).
Proof.
  eexists. split.
  - vm_compute. reflexivity.
  - apply (plan_uses_slots_fully 3 ["out"] 5970 "IbexRun" "batch" 1 1 2 1990
             default_kw); [lia | lia | vm_compute; reflexivity].
Defined.

(** ** The rendering of the time budget *)

Lemma py_str_three_digits (n : Z) :
  100 <= n -> (3 <= String.length (py_str n))%nat.
Proof.
  intros Hn. destruct n as [|p|p]; try lia.
  unfold py_str. simpl.
  pose proof (Unsigned.of_to p) as Hp.
  destruct (Pos.to_uint p) as [|d|d|d|d|d|d|d|d|d|d] eqn:E;
    try (destruct d as [|d|d|d|d|d|d|d|d|d|d];
         try (simpl in Hp; vm_compute in Hp; lia);
         destruct d; simpl; try lia; simpl in Hp; vm_compute in Hp; lia).
  simpl in Hp. discriminate.
Qed.

Lemma pad2_length_small (n : Z) :
  0 <= n < 100 -> String.length (pad2 n) = 2%nat.
Proof.
  intros Hn. rewrite <- (Z2Nat.id n) by lia.
  assert (Hk : (Z.to_nat n < 100)%nat) by lia.
  revert Hk. generalize (Z.to_nat n). intros k Hk.
  do 100 (destruct k as [|k]; [reflexivity|]). lia.
Qed.

Lemma pad2_length_large (n : Z) :
  100 <= n -> (3 <= String.length (pad2 n))%nat.
Proof.
  intros Hn. unfold pad2. destruct (Z.ltb_spec n 10); [lia|].
  apply py_str_three_digits, Hn.
Qed.

Lemma str_length_app (a b : string) :
  String.length (a ++ b) = (String.length a + String.length b)%nat.
Proof. induction a as [|x a IH]; simpl; [reflexivity | rewrite IH; reflexivity]. Qed.

(** The format [:02] is a minimum width: for non-negative arguments whose
    product stays within 53 bits, [time_str] returns, and the budget has
    the eight characters of [HH:MM:00] exactly when it stays below 100
    hours (6000 minutes); from 100 hours on the hour field grows and the
    string is longer. *)
Theorem time_str_length (c t : Z) :
  0 <= c -> 0 <= t -> c * t < 2 ^ 53 ->
  exists s,
    time_str c t = Ok s /\
    (String.length s = 8%nat <-> c * t < 6000) /\
    (8 <= String.length s)%nat.
Proof.
  intros Hc Ht Hb. assert (Hm : 0 <= c * t) by nia.
  rewrite time_str_small by (unfold fits53; lia).
  eexists. split; [reflexivity|].
  rewrite !py_format_0_pad2
    by (first [apply Z.mod_pos_bound; lia | apply Z.div_pos; lia]).
  rewrite !str_length_app.
  pose proof (Z.mod_pos_bound (c * t) 60 ltac:(lia)) as Hmod.
  rewrite (pad2_length_small ((c * t) mod 60)) by lia.
  cbn [String.length].
  destruct (Z_lt_ge_dec (c * t) 6000) as [Hlt|Hge].
  - assert (Hh : 0 <= c * t / 60 < 100).
    { split; [apply Z.div_pos; lia|]. apply Z.div_lt_upper_bound; lia. }
    rewrite (pad2_length_small _ Hh). split; [split; [lia|reflexivity] | lia].
  - assert (Hh : 100 <= c * t / 60) by (apply Z.div_le_lower_bound; lia).
    pose proof (pad2_length_large _ Hh). split; [split; lia | lia].
Qed.

Lemma time_str_length_witness :
  exists s,
    time_str 100 61 = Ok s /\
    (String.length s = 8%nat <-> 100 * 61 < 6000) /\
    (8 <= String.length s)%nat.
Proof. apply (time_str_length 100 61); lia. Defined.

(** ** The command line of the submission *)

Lemma is_space_nonempty (ch : string) : is_space ch = true -> ch <> EmptyString.
Proof. intros H ->. discriminate. Qed.

Lemma str_app_empty (a : string) : a ++ "" = a.
Proof. induction a as [|x a IH]; simpl; congruence. Qed.

(** Without white space the characters make one word. *)
Lemma split_go_no_space (cs : list string) :
  forall cur,
    forallb (fun ch => negb (is_space ch)) cs = true ->
    split_go cur cs =
    match cur ++ join_chars cs with
    | EmptyString => []
    | word => [word]
    end.
Proof.
  induction cs as [|ch cs IH]; intros cur Hs; simpl in *.
  - rewrite str_app_empty. destruct cur; reflexivity.
  - apply andb_true_iff in Hs as [Hc Hs]. apply negb_true_iff in Hc.
    rewrite Hc, (IH _ Hs), str_app_assoc. reflexivity.
Qed.

(** The words of a split hold the bytes of the characters that are not
    white space: every white space character is lost. *)
Lemma split_go_length (cs : list string) :
  forall cur,
    (total_length (split_go cur cs) +
     bytes_of (filter is_space cs) =
     String.length cur + bytes_of cs)%nat.
Proof.
  induction cs as [|ch cs IH]; intros cur; simpl.
  - destruct cur; simpl; lia.
  - destruct (is_space ch) eqn:Ec; simpl.
    + pose proof (IH EmptyString) as H0. simpl in H0.
      destruct cur as [|x cur]; simpl; lia.
    + pose proof (IH (cur ++ ch)) as H0. rewrite str_length_app in H0. lia.
Qed.

Lemma bytes_of_chars (s : string) : bytes_of (chars s) = String.length s.
Proof.
  rewrite <- (join_chars_chars s) at 2.
  induction (chars s) as [|ch cs IH]; simpl; [reflexivity|].
  rewrite str_length_app, IH. reflexivity.
Qed.

Lemma space_bytes (cs : list string) :
  forallb (fun ch => negb (is_space ch)) cs = false ->
  (0 < bytes_of (filter is_space cs))%nat.
Proof.
  induction cs as [|ch cs IH]; simpl; [discriminate|].
  destruct (is_space ch) eqn:Ec; simpl.
  - intros _. pose proof (is_space_nonempty _ Ec).
    destruct ch; [contradiction | simpl; lia].
  - exact IH.
Qed.

Lemma path_str_nonempty (p : path) : path_str p <> EmptyString.
Proof. destruct p; discriminate. Qed.

Lemma split_ws_single (p : string) :
  p <> EmptyString -> (split_ws p = [p] <-> no_space p = true).
Proof.
  intros Hne. unfold split_ws, no_space. split.
  - intros Hs.
    destruct (forallb (fun ch => negb (is_space ch)) (chars p)) eqn:En;
      [reflexivity|].
    pose proof (space_bytes _ En) as Hb.
    pose proof (split_go_length (chars p) EmptyString) as Hl.
    rewrite Hs, bytes_of_chars in Hl. simpl in Hl. lia.
  - intros Hp. rewrite (split_go_no_space _ _ Hp). simpl.
    rewrite join_chars_chars. destruct p; [contradiction | reflexivity].
Qed.

(** The command line of an [IbexRun] is [sbatch] followed by the words of
    the script path: the program is [sbatch], and the path is passed as one
    argument exactly when none of its characters is white space -- a path
    with a blank, or with a no-break space, is cut into several
    arguments. *)
Theorem IbexRun_command_line tpc out n jn pt nt cpt mem m kw ib :
  IbexRun_init tpc out n jn pt nt cpt mem m kw = Ok ib ->
  program (base ib) = "sbatch" /\
  args (base ib) = "sbatch" :: split_ws (path_str (path_join out "script.sh")) /\
  (args (base ib) = ["sbatch"; path_str (path_join out "script.sh")] <->
   no_space (path_str (path_join out "script.sh")) = true).
Proof.
  unfold IbexRun_init.
  destruct (np_ceil_div n m) as [cpj|] eqn:E1; [|discriminate]. cbn [bind].
  destruct (np_ceil_div n cpj) as [nj|] eqn:E2; [|discriminate]. cbn [bind].
  destruct (time_str cpj tpc) as [tpj|] eqn:E3; [|discriminate]. cbn [bind].
  rewrite split_ws_sbatch. cbn [Executor_init bind].
  intros H. inversion H. subst ib. clear H. cbn [base program args].
  split; [reflexivity|]. split; [reflexivity|].
  rewrite <- (split_ws_single _ (path_str_nonempty (path_join out "script.sh"))).
  split; intros Heq; [injection Heq as Hs; exact Hs | f_equal; exact Heq].
Qed.

Lemma IbexRun_command_line_witness :
  exists ib,
    IbexRun_init 1 ["my jobs"] 1 "IbexRun" "batch" 1 1 2 1990 default_kw = Ok ib /\
    program (base ib) = "sbatch" /\
    args (base ib) = ["sbatch"; "/my"; "jobs/script.sh"] /\
    (args (base ib) = ["sbatch"; path_str (path_join ["my jobs"] "script.sh")] <->
     no_space (path_str (path_join ["my jobs"] "script.sh")) = true).
Proof.
  eexists. split; [vm_compute; reflexivity|].
  destruct (IbexRun_command_line 1 ["my jobs"] 1 "IbexRun" "batch" 1 1 2 1990
              default_kw _ ltac:(vm_compute; reflexivity)) as (Hp & Ha & Hiff).
  split; [exact Hp|]. split; [exact Ha | exact Hiff].
Defined.

(** A no-break space (U+00A0, in UTF-8) cuts the path as a blank does. *)
Example command_line_no_break_space :
  split_ws ("sbatch /tmp/a" ++ String "194" (String "160" "b/script.sh"))
  = ["sbatch"; "/tmp/a"; "b/script.sh"].
Proof. vm_compute. reflexivity. Qed.

(** ** Directory creation *)

Lemma lookup_update_none (f : fs) (p q : path) (n n' : node) :
  lookup f p = None -> lookup f q = Some n' ->
  lookup (update f p n) q = Some n'.
Proof.
  intros Hp Hq. destruct (list_eq_dec string_dec p q) as [->|Hne];
    [congruence|]. rewrite lookup_update_other by assumption. exact Hq.
Qed.

Lemma mkdir_nodes (f f' : fs) (p : path) :
  mkdir f p = Ok f' -> nodes_kept f f'.
Proof.
  unfold mkdir. destruct (lookup f p) eqn:E; [discriminate|].
  destruct (lookup f (parent p)) as [[|]|]; try discriminate.
  intros H. inversion H. intros q n Hq. apply lookup_update_none; assumption.
Qed.

Lemma nodes_kept_trans (a b c : fs) :
  nodes_kept a b -> nodes_kept b c -> nodes_kept a c.
Proof. intros H1 H2 q n Hq. apply H2, H1, Hq. Qed.

Lemma mkdir_from_nodes (rest : list string) :
  forall f base f', mkdir_from f base rest = Ok f' -> nodes_kept f f'.
Proof.
  induction rest as [|c rest IH]; intros f base f'; simpl; [discriminate|].
  destruct rest as [|c' rest'].
  - destruct (lookup f (base ++ [c])%list) eqn:E; [discriminate|].
    intros H. inversion H. intros q n Hq. apply lookup_update_none; assumption.
  - destruct (lookup f (base ++ [c])%list) as [[|]|] eqn:E; try discriminate.
    + apply IH.
    + intros H. apply IH in H. intros q n Hq. apply H.
      apply lookup_update_none; assumption.
Qed.

(** [mkdir(parents=True)], when it returns, has made the target and every
    directory on the way to it. *)
Lemma mkdir_from_dirs (rest : list string) :
  forall f base f', mkdir_from f base rest = Ok f' ->
    forall k, (1 <= k <= length rest)%nat ->
      is_dir f' (base ++ firstn k rest)%list = true.
Proof.
  induction rest as [|c rest IH]; intros f base f'; simpl; [discriminate|].
  assert (Hhere : forall g, nodes_kept g f' ->
            is_dir g (base ++ [c])%list = true ->
            forall k, (1 <= k <= S (length rest))%nat ->
              (forall j, (1 <= j <= length rest)%nat ->
                 is_dir f' ((base ++ [c]) ++ firstn j rest)%list = true) ->
              is_dir f' (base ++ firstn k (c :: rest))%list = true).
  { intros g Hg Hd k Hk Hdeep. destruct k as [|k]; [lia|]. simpl.
    destruct k as [|k].
    - simpl. unfold is_dir in *.
      destruct (lookup g (base ++ [c])%list) as [[|]|] eqn:E; try discriminate.
      rewrite (Hg _ _ E). reflexivity.
    - replace (base ++ c :: firstn (S k) rest)%list
        with ((base ++ [c]) ++ firstn (S k) rest)%list
        by (rewrite <- app_assoc; reflexivity).
      apply Hdeep. lia. }
  destruct rest as [|c' rest'].
  - destruct (lookup f (base ++ [c])%list) eqn:E; [discriminate|].
    intros H. inversion H. subst f'. intros k Hk.
    apply (Hhere (update f (base ++ [c])%list Dir)); auto.
    + intros q n Hq. exact Hq.
    + unfold is_dir. rewrite lookup_update_same; [reflexivity|].
      intros Hnil. apply app_eq_nil in Hnil. destruct Hnil. discriminate.
    + intros j Hj. simpl in Hj. lia.
  - destruct (lookup f (base ++ [c])%list) as [[|]|] eqn:E; try discriminate.
    + intros H k Hk. apply (Hhere f); auto.
      * apply (mkdir_from_nodes _ _ _ _ H).
      * unfold is_dir. rewrite E. reflexivity.
      * apply (IH _ _ _ H).
    + intros H k Hk. apply (Hhere (update f (base ++ [c])%list Dir)); auto.
      * apply (mkdir_from_nodes _ _ _ _ H).
      * unfold is_dir. rewrite lookup_update_same; [reflexivity|].
        intros Hnil. apply app_eq_nil in Hnil. destruct Hnil. discriminate.
      * apply (IH _ _ _ H).
Qed.

Lemma nodes_kept_refl (d : fs) : nodes_kept d d.
Proof. intros q n H. exact H. Qed.

Lemma nodes_kept_exists (d d' : fs) (q : path) :
  nodes_kept d d' -> exists_ d q = true -> exists_ d' q = true.
Proof.
  unfold exists_. intros H. destruct (lookup d q) as [n|] eqn:E;
    [|discriminate]. rewrite (H _ _ E). reflexivity.
Qed.

Lemma prepare_dir_out_spec s r s' :
  prepare_dir_out s = (r, s') ->
  self s' = self s /\ nodes_kept (disk s) (disk s') /\
  forall o, dir_out (self s) = Some o ->
    r = Ok tt ->
    exists_ (disk s') o = true /\
    (exists_ (disk s) o = false ->
     forall k, is_dir (disk s') (firstn k o) = true).
Proof.
  unfold prepare_dir_out, mbind, get_self, get_disk, ret, fs_call.
  destruct (dir_out (self s)) as [o|].
  - destruct (exists_ (disk s) o) eqn:Ex.
    + intros H. inversion H. subst. split; [reflexivity|].
      split; [apply nodes_kept_refl|]. intros o' Ho _. inversion Ho. subst o'.
      split; [exact Ex | intros Hx; congruence].
    + destruct (mkdir_parents (disk s) o) as [f|x] eqn:Em;
        intros H; inversion H; subst; simpl.
      * split; [reflexivity|].
        split; [apply (mkdir_from_nodes _ _ _ _ Em)|].
        intros o' Ho _. inversion Ho. subst o'.
        assert (Hdirs : forall k, is_dir f (firstn k o) = true).
        { intros k. destruct k as [|k]; [reflexivity|].
          destruct (Nat.le_gt_cases (S k) (length o)) as [Hle|Hgt].
          - apply (mkdir_from_dirs _ _ _ _ Em (S k)). lia.
          - rewrite firstn_all2 by lia.
            destruct o as [|c o]; [reflexivity|].
            rewrite <- (firstn_all (c :: o)).
            apply (mkdir_from_dirs _ _ _ _ Em (length (c :: o))).
            simpl. lia. }
        split; [|intros _; exact Hdirs].
        apply is_dir_exists. rewrite <- (firstn_all o). apply Hdirs.
      * split; [reflexivity|]. split; [apply nodes_kept_refl|].
        intros o' _ Hr. discriminate.
  - intros H. inversion H. subst. split; [reflexivity|].
    split; [apply nodes_kept_refl|]. intros o Ho. discriminate.
Qed.

Lemma prepare_tempdir_nodes cls w s r s' :
  prepare_tempdir cls w s = (r, s') ->
  (tempdir (self s) = None ->
   lookup (disk s) (mkdtemp w (disk s) (program (self s) ++ "_" ++ cls ++ "_"))
     = None) ->
  nodes_kept (disk s) (disk s') /\
  dir_out (self s') = dir_out (self s) /\
  (r = Ok tt ->
   exists t, tempdir (self s') = Some t /\ exists_ (disk s') t = true) /\
  (forall t, tempdir (self s) = Some t -> exists_ (disk s) t = true ->
     s' = s).
Proof.
  unfold prepare_tempdir, mbind at 1 2, get_self, get_disk.
  destruct (tempdir (self s)) as [t0|] eqn:Et.
  - destruct (exists_ (disk s) t0) eqn:Ex.
    + intros H _. inversion H. subst.
      split; [apply nodes_kept_refl|]. split; [reflexivity|].
      split; [intros _; exists t0; auto | auto].
    + unfold fs_call. destruct (mkdir (disk s) t0) as [f|x] eqn:Em;
        intros H _; inversion H; subst; simpl.
      * split; [apply (mkdir_nodes _ _ _ Em)|]. split; [reflexivity|].
        split; [|intros t Ht Hx; congruence].
        intros _. exists t0. split; [exact Et|].
        apply is_dir_exists, (mkdir_preserving _ _ _ Em).
      * split; [apply nodes_kept_refl|]. split; [reflexivity|].
        split; [discriminate | intros t Ht Hx; congruence].
  - unfold mbind, fs_call, put_self. simpl.
    intros H Hfresh. inversion H. subst. simpl.
    specialize (Hfresh eq_refl).
    split; [intros q n Hq; apply lookup_update_none; assumption|].
    split; [reflexivity|]. split; [|discriminate].
    intros _. eexists. split; [reflexivity|].
    unfold exists_, mkdtemp. rewrite lookup_update_same; [reflexivity|].
    intros Hnil. apply app_eq_nil in Hnil. destruct Hnil. discriminate.
Qed.

(** [Executor.prepare] only adds directories: provided the name [mkdtemp]
    picks is fresh, every file and directory that was there is still there,
    unchanged, whether [prepare] returns or raises. *)
Theorem Executor_prepare_only_adds cls w s r s' :
  Executor_prepare cls w s = (r, s') ->
  (tempdir (self s) = None ->
   lookup (disk s) (mkdtemp w (disk s) (program (self s) ++ "_" ++ cls ++ "_"))
     = None) ->
  nodes_kept (disk s) (disk s').
Proof.
  unfold Executor_prepare, mbind.
  destruct (prepare_tempdir cls w s) as [[[]|x] s1] eqn:E1; intros H Hfresh.
  - destruct (prepare_tempdir_nodes _ _ _ _ _ E1 Hfresh) as (N1 & _).
    destruct (prepare_dir_out_spec _ _ _ H) as (_ & N2 & _).
    intros q n Hq. apply N2, N1, Hq.
  - inversion H. subst r s'.
    apply (prepare_tempdir_nodes _ _ _ _ _ E1 Hfresh).
Qed.

Lemma Executor_prepare_only_adds_witness :
  nodes_kept disk_mine
    (disk (snd (Executor_prepare "executor" (world_exit 0 "a.txt")
                  {| self := ls_executor None false; disk := disk_mine |}))).
Proof.
  apply (Executor_prepare_only_adds "executor" (world_exit 0 "a.txt")
           {| self := ls_executor None false; disk := disk_mine |}
           (fst (Executor_prepare "executor" (world_exit 0 "a.txt")
                   {| self := ls_executor None false; disk := disk_mine |}))
           _ eq_refl).
  reflexivity.
Defined.

Lemma prepare_tempdir_noop cls w s t :
  tempdir (self s) = Some t -> exists_ (disk s) t = true ->
  prepare_tempdir cls w s = (Ok tt, s).
Proof.
  intros Ht Hx. unfold prepare_tempdir, mbind, get_self, get_disk.
  rewrite Ht, Hx. reflexivity.
Qed.

Lemma prepare_dir_out_noop s :
  (forall o, dir_out (self s) = Some o -> exists_ (disk s) o = true) ->
  prepare_dir_out s = (Ok tt, s).
Proof.
  intros H. unfold prepare_dir_out, mbind, get_self, get_disk.
  destruct (dir_out (self s)) as [o|]; [|reflexivity].
  rewrite (H o eq_refl). reflexivity.
Qed.

Lemma prepare_tempdir_post cls w s s1 :
  prepare_tempdir cls w s = (Ok tt, s1) ->
  dir_out (self s1) = dir_out (self s) /\
  (exists t, tempdir (self s1) = Some t /\ exists_ (disk s1) t = true) /\
  (forall o, exists_ (disk s) o = false -> tempdir (self s1) <> Some o ->
     exists_ (disk s1) o = false).
Proof.
  unfold prepare_tempdir, mbind at 1 2, get_self, get_disk.
  destruct (tempdir (self s)) as [t0|] eqn:Et.
  - destruct (exists_ (disk s) t0) eqn:Ex.
    + intros H. inversion H. subst. split; [reflexivity|].
      split; [exists t0; auto | auto].
    + unfold fs_call. destruct (mkdir (disk s) t0) as [f|x] eqn:Em;
        intros H; inversion H; subst; simpl.
      split; [reflexivity|]. split.
      * exists t0. split; [exact Et|].
        apply is_dir_exists, (mkdir_preserving _ _ _ Em).
      * intros o Ho Hne. unfold mkdir in Em.
        destruct (lookup (disk s) t0); [discriminate|].
        destruct (lookup (disk s) (parent t0)) as [[|]|]; try discriminate.
        inversion Em. unfold exists_ in *.
        rewrite lookup_update_other; [exact Ho | congruence].
  - unfold mbind, fs_call, put_self. simpl.
    intros H. inversion H. subst. simpl.
    split; [reflexivity|]. split.
    + eexists. split; [reflexivity|].
      unfold exists_, mkdtemp. rewrite lookup_update_same; [reflexivity|].
      intros Hnil. apply app_eq_nil in Hnil. destruct Hnil. discriminate.
    + intros o Ho Hne. unfold exists_ in *.
      rewrite lookup_update_other; [exact Ho | congruence].
Qed.

(** After a [prepare] that returns, the instance names a temporary
    directory that exists and the output directory exists; an output
    directory that was missing has been made with all its parents (unless
    it is the temporary directory itself); and a second [prepare] changes
    nothing. *)
Theorem Executor_prepare_establishes cls w s s' :
  Executor_prepare cls w s = (Ok tt, s') ->
  (exists t, tempdir (self s') = Some t /\ exists_ (disk s') t = true) /\
  (forall o, dir_out (self s) = Some o ->
     exists_ (disk s') o = true /\
     (exists_ (disk s) o = false -> tempdir (self s') <> Some o ->
      forall k, is_dir (disk s') (firstn k o) = true)) /\
  Executor_prepare cls w s' = (Ok tt, s').
Proof.
  unfold Executor_prepare at 1, mbind.
  destruct (prepare_tempdir cls w s) as [[[]|x] s1] eqn:E1; [|discriminate].
  intros H2.
  destruct (prepare_dir_out_spec _ _ _ H2) as (Hself & N2 & Hout).
  destruct (prepare_tempdir_post _ _ _ _ E1) as (Hdo & (t & Ht & Hx) & Hnew).
  assert (Htemp : exists t, tempdir (self s') = Some t /\
                            exists_ (disk s') t = true).
  { exists t. rewrite Hself. split; [exact Ht|].
    apply (nodes_kept_exists _ _ _ N2 Hx). }
  assert (Houtdir : forall o, dir_out (self s) = Some o ->
            exists_ (disk s') o = true /\
            (exists_ (disk s) o = false -> tempdir (self s') <> Some o ->
             forall k, is_dir (disk s') (firstn k o) = true)).
  { intros o Ho. rewrite <- Hdo in Ho.
    destruct (Hout o Ho eq_refl) as [He Hd]. split; [exact He|].
    intros Hmiss Hne. apply Hd. apply Hnew; [exact Hmiss|].
    rewrite <- Hself. exact Hne. }
  split; [exact Htemp|]. split; [exact Houtdir|].
  destruct Htemp as (t' & Ht' & Hx').
  unfold Executor_prepare, mbind.
  rewrite (prepare_tempdir_noop cls w s' t' Ht' Hx').
  apply prepare_dir_out_noop. intros o Ho.
  apply (Houtdir o). rewrite <- Hdo, <- Hself. exact Ho.
Qed.

Lemma Executor_prepare_establishes_witness :
  exists s',
    Executor_prepare "executor" (world_exit 0 "a.txt")
      {| self := set_tempdir (ls_executor None false) None; disk := disk0 |}
      = (Ok tt, s') /\
    (exists t, tempdir (self s') = Some t /\ exists_ (disk s') t = true) /\
    Executor_prepare "executor" (world_exit 0 "a.txt") s' = (Ok tt, s').
Proof.
  eexists. split; [reflexivity|].
  destruct (Executor_prepare_establishes "executor" (world_exit 0 "a.txt")
              {| self := set_tempdir (ls_executor None false) None;
                 disk := disk0 |} _ eq_refl) as (Ht & _ & Hidem).
  split; [exact Ht | exact Hidem].
Defined.

(** ** A temporary directory that cannot be made *)

Lemma Executor_prepare_missing_parent cls w s t :
  tempdir (self s) = Some t -> exists_ (disk s) t = false ->
  is_dir (disk s) (parent t) = false ->
  exists msg, Executor_prepare cls w s = (Raise (OSError msg), s).
Proof.
  intros Ht Hx Hpar.
  unfold Executor_prepare, mbind.
  unfold prepare_tempdir, mbind, get_self, get_disk, fs_call.
  rewrite Ht, Hx. unfold mkdir, exists_, is_dir in *.
  destruct (lookup (disk s) t); [discriminate|].
  destruct (lookup (disk s) (parent t)) as [[|]|];
    [discriminate | eexists; reflexivity | eexists; reflexivity].
Qed.

(** [tempdir.mkdir()] is called without [parents=True]: when the caller
    names a temporary directory that does not exist and whose parent is not
    a directory, [run] raises [RunError] wrapping the OS error of [mkdir],
    goes from [prepare] straight to [cleanup] without launching the
    program, and leaves the disk as it was. *)
Theorem missing_parent_never_launches {R} (h : hooks R) (w : world) cls
    (e : Executor) (d : fs) (t : path) :
  prepare h w = Executor_prepare cls w ->
  tempdir e = Some t -> exists_ d t = false -> is_dir d (parent t) = false ->
  (exists msg,
     outcome (run_on h w e d) = Raise (RunError (launch_failure_text msg))) /\
  steps (run_on h w e d) = [StepPrepare; StepCleanup] /\
  final_disk (run_on h w e d) = d.
Proof.
  intros Hprep Ht Hx Hpar.
  destruct (Executor_prepare_missing_parent cls w
              (with_self reset {| self := e; disk := d |}) t Ht Hx Hpar)
    as [msg Hp].
  rewrite <- Hprep in Hp.
  assert (Hc : cleanup (with_self reset {| self := e; disk := d |}) =
               (Ok tt, with_self reset {| self := e; disk := d |})).
  { rewrite cleanup_eq. simpl. rewrite Ht, Hx. reflexivity. }
  unfold outcome, steps, final_disk, run_on. rewrite run_eq.
  rewrite (run_body_prepare_raises h w _ [] _ _ Hp).
  cbn [handled]. unfold cleaned. rewrite Hc. simpl.
  split; [eauto | split; reflexivity].
Qed.

Lemma missing_parent_never_launches_witness :
  (exists msg,
     outcome (run_on (IbexRun_hooks_base_prepare) (world_exit 0 "a.txt")
                (ls_executor (Some ["tmp"; "a"; "b"]) true) disk0)
       = Raise (RunError (launch_failure_text msg))) /\
  steps (run_on (IbexRun_hooks_base_prepare) (world_exit 0 "a.txt")
           (ls_executor (Some ["tmp"; "a"; "b"]) true) disk0)
    = [StepPrepare; StepCleanup] /\
  final_disk (run_on (IbexRun_hooks_base_prepare) (world_exit 0 "a.txt")
                (ls_executor (Some ["tmp"; "a"; "b"]) true) disk0)
    = disk0.
Proof.
  apply (missing_parent_never_launches IbexRun_hooks_base_prepare
           (world_exit 0 "a.txt") "jobid"
           (ls_executor (Some ["tmp"; "a"; "b"]) true) disk0
           ["tmp"; "a"; "b"]); reflexivity.
Defined.

(** ** What [cleanup] and [fail] touch *)

Lemma update_other_raw (f : fs) (p q : path) (n : node) :
  p <> q -> update f p n q = f q.
Proof.
  intros Hne. unfold update. destruct (path_eqb p q) eqn:E; [|reflexivity].
  apply path_eqb_eq in E. contradiction.
Qed.



(** [fail] never returns; it leaves the instance as it is and changes the
    disk at most at the capture file -- nowhere when capture is off or when
    the write raises. *)
Theorem fail_only_writes_report {A} (s : state) (r : result A) (s' : state) :
  @fail A s = (r, s') ->
  (exists e, r = Raise e) /\
  self s' = self s /\
  (forall q, Some q <> f_stdout (self s) -> disk s' q = disk s q) /\
  (catch_truthy (catch_out (self s)) = false -> s' = s) /\
  (report_writable s = false -> s' = s).
Proof.
  rewrite fail_eq. unfold report_writable.
  destruct (catch_truthy (catch_out (self s))).
  - destruct (f_stdout (self s)) as [p|] eqn:Ef.
    + destruct (write_text (disk s) p (error_string (self s))) as [d|x] eqn:Ew;
        intros H; inversion H; subst; simpl.
      * destruct (write_text_preserving _ _ _ _ Ew) as [_ ->].
        split; [eauto|]. split; [reflexivity|].
        split; [|split; discriminate].
        intros q Hq. apply update_other_raw. congruence.
      * split; [eauto|]. repeat split; auto.
    + intros H. inversion H. subst. split; [eauto|]. repeat split; auto.
  - intros H. inversion H. subst. split; [eauto|]. repeat split; auto.
Qed.

Lemma fail_only_writes_report_witness :
  exists r s',
    @fail unit {| self := set_error (ls_capture None false)
                            (Some ErrRunErrorClass);
                  disk := disk_mine |} = (r, s') /\
    (exists e, r = Raise e) /\
    disk s' ["tmp"; "mine"; "notes.txt"] = Some (File "keep me").
Proof.
  eexists. eexists. split; [reflexivity|].
  destruct (@fail_only_writes_report unit
              {| self := set_error (ls_capture None false)
                           (Some ErrRunErrorClass);
                 disk := disk_mine |} _ _ eq_refl) as (Hr & _ & Hd & _).
  split; [exact Hr|].
  rewrite Hd; [reflexivity | discriminate].
Defined.

(** ** The shape of a run *)

Lemma steps_after_body {R} (rb : result R) (s : state) (tr : list step) :
  snd (snd (cleaned (handled (rb, (s, tr))))) =
  (tr ++
   match rb with
   | Raise MemoryError | Raise (CalledProcessError _ _ _) => [StepFail]
   | _ => []
   end ++ [StepCleanup])%list.
Proof.
  rewrite cleaned_trace.
  destruct rb as [a|e]; [reflexivity|].
  destruct e; simpl; try reflexivity;
    destruct (fail _) as [r s']; simpl; rewrite <- app_assoc; reflexivity.
Qed.

Lemma fail_with_class_not_reraised {A} (s : state) :
  error (self s) = Some ErrRunErrorClass ->
  match fst (@fail A s) with
  | Raise MemoryError | Raise (CalledProcessError _ _ _) | Ok _ => False
  | _ => True
  end.
Proof.
  intros He.
  destruct (@fail_outcome A s) as [[_ Hr]|[_ [[msg Hr]|[msg Hr]]]];
    rewrite Hr; [|exact I|exact I].
  unfold fail_exn. rewrite He.
  destruct (failed_message (self s)) as [[|a m]|]; exact I.
Qed.

(** Whatever the override points do, [run] goes through its steps in one
    of six orders: [prepare] first, [cleanup] last, the launch only after
    [prepare], [finish] only after the launch, and [fail] at most once.  A
    run that returns went through [prepare], the launch, [finish] and
    [cleanup], in this order. *)
Theorem run_steps_shape {R} (h : hooks R) (w : world) (e : Executor) (d : fs) :
  In (steps (run_on h w e d)) run_traces /\
  (forall r, outcome (run_on h w e d) = Ok r ->
     steps (run_on h w e d) =
       [StepPrepare; StepExecute; StepFinish; StepCleanup]).
Proof.
  unfold steps, outcome, run_on. rewrite run_eq.
  set (s0 := with_self reset {| self := e; disk := d |}).
  assert (Hok : forall (rb : result R) s tr r,
            fst (cleaned (handled (rb, (s, tr)))) = Ok r -> rb = Ok r).
  { intros rb s tr r H.
    destruct (handled (rb, (s, tr))) as [r' [s' tr']] eqn:Eh.
    rewrite cleaned_outcome in H.
    destruct (fst (cleanup s')) as [[]|x]; [|discriminate]. subst r'.
    apply (handled_ok_inv rb s tr r). rewrite Eh. reflexivity. }
  run_body_cases h w s0 (@nil step).
  - pose proof (@fail_with_class_not_reraised R
                  (set_err ErrRunErrorClass (set_fm m s2)) eq_refl) as Hnr.
    destruct (fail _) as [rb s3]. rewrite steps_after_body. simpl in Hnr.
    split.
    + destruct rb as [a|x]; [contradiction|].
      destruct x; try contradiction; simpl; auto 10.
    + intros r H. apply Hok in H. subst rb. contradiction.
  - destruct (finish h _) as [rb s3]. rewrite steps_after_body. split.
    + destruct rb as [a|x]; [simpl; auto 10|].
      destruct x; simpl; auto 10.
    + intros r H. apply Hok in H. subst rb. reflexivity.
  - rewrite steps_after_body. split.
    + destruct e0; simpl; auto 10.
    + intros r H. apply Hok in H. discriminate.
  - rewrite steps_after_body. split; [simpl; auto 10|].
    intros r H. apply Hok in H. discriminate.
  - rewrite steps_after_body. split.
    + destruct e0; simpl; auto 10.
    + intros r H. apply Hok in H. discriminate.
  - rewrite steps_after_body. split.
    + destruct e0; simpl; auto 10.
    + intros r H. apply Hok in H. discriminate.
Qed.

(** ** A run that succeeds *)

Lemma Executor_finish_eq (s : state) (c : CompletedProcess) :
  completed_process (self s) = Some c ->
  Executor_finish s =
  if catch_truthy (catch_out (self s))
  then match f_stdout (self s) with
       | None => (Raise (AttributeError "f_stdout"), s)
       | Some p =>
           match write_text (disk s) p (cp_stdout c) with
           | Ok d' => (Ok (cp_args c, cp_returncode c, cp_stdout c),
                       {| self := self s; disk := d' |})
           | Raise x => (Raise x, s)
           end
       end
  else (Ok (cp_args c, cp_returncode c, cp_stdout c), s).
Proof.
  intros Hc. unfold Executor_finish, mbind at 1, get_self. rewrite Hc.
  unfold mbind, ret. destruct (catch_truthy (catch_out (self s)));
    [|reflexivity].
  rewrite write_f_stdout_eq. destruct (f_stdout (self s)) as [p|];
    [|reflexivity].
  destruct (write_text (disk s) p (cp_stdout c)); reflexivity.
Qed.

(** When [prepare] has succeeded, the program has exited with 0 and the
    predicate reports nothing, [run] returns the triple of the argument
    list, the exit code 0 and the captured output exactly when the capture
    file takes the output (or capture is off) and [cleanup] succeeds; and
    it can return nothing else. *)
Theorem run_returns_the_outcome cls (predicate : Executor -> option string)
    (w : world) (e : Executor) (d : fs) (s1 : state) (c : CompletedProcess) :
  prepare (Executor_hooks_with cls predicate) w
    (with_self reset {| self := e; disk := d |}) = (Ok tt, s1) ->
  execute w s1 = (Ok c, s1) ->
  cp_returncode c = 0 ->
  message_truthy (predicate (self (set_cp c s1))) = false ->
  let s2 := set_fm (predicate (self (set_cp c s1))) (set_cp c s1) in
  (outcome (run_on (Executor_hooks_with cls predicate) w e d)
     = Ok (cp_args c, 0, cp_stdout c) <->
   capture_writable s2 (cp_stdout c) = true /\
   cleanup_succeeds (snd (Executor_finish s2)) = true) /\
  (forall r, outcome (run_on (Executor_hooks_with cls predicate) w e d) = Ok r ->
             r = (cp_args c, 0, cp_stdout c)).
Proof.
  intros Hp He Hc Hm s2.
  assert (Hf : isFailed (Executor_hooks_with cls predicate) (set_cp c s1) =
               (Ok (predicate (self (set_cp c s1))), set_cp c s1))
    by reflexivity.
  unfold outcome, run_on. rewrite run_eq.
  rewrite (run_body_finish _ w _ [] s1 c _ _ Hp He Hc Hf Hm).
  change (finish (Executor_hooks_with cls predicate)) with Executor_finish.
  fold s2.
  assert (Hcp : completed_process (self s2) = Some c) by reflexivity.
  rewrite (Executor_finish_eq s2 c Hcp). unfold capture_writable.
  rewrite Hc.
  destruct (catch_truthy (catch_out (self s2))).
  - destruct (f_stdout (self s2)) as [p|].
    + destruct (write_text (disk s2) p (cp_stdout c)) as [d'|x] eqn:Ew.
      * cbn [handled snd]. rewrite cleaned_outcome. unfold cleanup_succeeds.
        destruct (fst (cleanup _)) as [[]|y] eqn:Ec.
        -- split; [tauto|]. intros r H. inversion H. reflexivity.
        -- split; [split; [discriminate | intros [_ H]; discriminate]|].
           discriminate.
      * destruct (write_text_raises _ _ _ _ Ew) as [msg ->].
        cbn [handled snd]. rewrite cleaned_outcome.
        split; [split; [|intros [H _]; discriminate]|];
          destruct (fst (cleanup s2)); discriminate.
    + cbn [handled snd]. rewrite cleaned_outcome.
      split; [split; [|intros [H _]; discriminate]|];
        destruct (fst (cleanup s2)); discriminate.
  - cbn [handled snd]. rewrite cleaned_outcome. unfold cleanup_succeeds.
    destruct (fst (cleanup s2)) as [[]|y] eqn:Ec.
    + split; [tauto|]. intros r H. inversion H. reflexivity.
    + split; [split; [discriminate | intros [_ H]; discriminate]|].
      discriminate.
Qed.

Lemma run_returns_the_outcome_witness :
  outcome (run_on (Executor_hooks_with "executor" (fun _ => None))
             (world_exit 0 "test1.txt") (ls_capture (Some ["work"]) true) disk0)
    = Ok (["ls"; "."], 0, "test1.txt").
Proof.
  apply (proj1 (run_returns_the_outcome "executor" (fun _ => None)
                  (world_exit 0 "test1.txt") (ls_capture (Some ["work"]) true)
                  disk0
                  (snd (prepare (Executor_hooks_with "executor" (fun _ => None))
                          (world_exit 0 "test1.txt")
                          (with_self reset
                             {| self := ls_capture (Some ["work"]) true;
                                disk := disk0 |})))
                  {| cp_args := ["ls"; "."]; cp_returncode := 0;
                     cp_stdout := "test1.txt" |}
                  eq_refl eq_refl eq_refl eq_refl)).
  split; reflexivity.
Defined.

(** ** The report of a failure *)

(** A path that is not below a temporary directory to be removed is left
    alone by the [finally] clause. *)
Lemma cleaned_lookup {R} (r : result R) (s : state) (tr : list step) (p : path) :
  (keep_tempdir (self s) = true \/
   forall t, tempdir (self s) = Some t -> is_prefix t p = false) ->
  lookup (disk (fst (snd (cleaned (r, (s, tr)))))) p = lookup (disk s) p.
Proof.
  intros Hkeep. unfold cleaned. rewrite cleanup_eq.
  destruct (tempdir (self s)) as [t|] eqn:Et; [|reflexivity].
  destruct (exists_ (disk s) t); [|reflexivity].
  destruct (keep_tempdir (self s)) eqn:Ek; [reflexivity|].
  unfold rmtree. destruct (lookup (disk s) t) as [[|]|]; try reflexivity.
  simpl. destruct Hkeep as [Hk|Hout]; [discriminate|].
  destruct p as [|a p]; [reflexivity|].
  unfold lookup. rewrite (Hout t eq_refl). reflexivity.
Qed.

(** When the program exits with a non-zero code and output capture is on,
    the capture file does not hold the output alone: [fail] writes the
    report there -- program, command line, exit code, then the captured
    output -- and the file holds it after [run], unless [cleanup] removes
    it with the temporary directory. *)
Theorem failure_report_in_capture_file {R} (h : hooks R) (w : world)
    (e : Executor) (d : fs) (s1 : state) (c : CompletedProcess) (p : path) :
  prepare h w (with_self reset {| self := e; disk := d |}) = (Ok tt, s1) ->
  execute w s1 = (Ok c, s1) ->
  cp_returncode c <> 0 ->
  catch_truthy (catch_out (self s1)) = true ->
  f_stdout (self s1) = Some p -> p <> [] ->
  (exists d', write_text (disk s1) p
                (error_string (set_completed_process (self s1) (Some c)))
              = Ok d') ->
  (keep_tempdir (self s1) = true \/
   forall t, tempdir (self s1) = Some t -> is_prefix t p = false) ->
  lookup (final_disk (run_on h w e d)) p =
    Some (File (nl ++ program (self s1) ++ " EXECUTION FAILED." ++ nl ++
                "Command: " ++ join_space (args (self s1)) ++ nl ++
                "Returncode: " ++ py_str (cp_returncode c) ++ nl ++
                "stdout: " ++ nl ++ cp_stdout c)).
Proof.
  intros Hp He Hc Hcatch Hf Hnil [d' Hw] Hkeep.
  unfold final_disk, run_on. rewrite run_eq.
  rewrite (run_body_nonzero h w _ [] s1 c Hp He Hc).
  cbn [handled]. rewrite fail_eq.
  cbn [self set_err set_cp with_self catch_out f_stdout set_error
       set_completed_process disk].
  rewrite Hcatch, Hf.
  assert (Hes : error_string
                  (set_error (set_completed_process (self s1) (Some c))
                     (Some (ErrInstance
                        (CalledProcessError (cp_returncode c) (cp_args c)
                           (cp_stdout c)))))
                = error_string (set_completed_process (self s1) (Some c)))
    by reflexivity.
  rewrite Hes, Hw.
  rewrite cleaned_lookup by exact Hkeep.
  cbn [disk]. destruct (write_text_preserving _ _ _ _ Hw) as [_ ->].
  rewrite lookup_update_same by exact Hnil.
  unfold error_string. cbn [program args completed_process
    set_completed_process].
  repeat rewrite str_app_assoc. reflexivity.
Qed.

Lemma failure_report_in_capture_file_witness :
  lookup (final_disk (run_on Executor_hooks (world_exit 2 "no such file")
                        (ls_capture None false) disk0))
         ["work"; "ls.out"]
    = Some (File (nl ++ "ls" ++ " EXECUTION FAILED." ++ nl ++
                  "Command: " ++ join_space ["ls"; "."] ++ nl ++
                  "Returncode: " ++ py_str 2 ++ nl ++
                  "stdout: " ++ nl ++ "no such file")).
Proof.
  apply (failure_report_in_capture_file Executor_hooks
           (world_exit 2 "no such file") (ls_capture None false) disk0
           (snd (prepare Executor_hooks (world_exit 2 "no such file")
                   (with_self reset
                      {| self := ls_capture None false; disk := disk0 |})))
           {| cp_args := ["ls"; "."]; cp_returncode := 2;
              cp_stdout := "no such file" |}
           ["work"; "ls.out"]); try reflexivity.
  - discriminate.
  - discriminate.
  - eexists. reflexivity.
  - right. intros t Ht. inversion Ht. reflexivity.
Defined.

(** ** Writing the script again *)

Lemma write_text_ok_inv (f f' : fs) (p : path) (t : string) :
  write_text f p t = Ok f' ->
  lookup f (parent p) = Some Dir /\ lookup f p <> Some Dir /\
  f' = update f p (File t).
Proof.
  unfold write_text.
  destruct (lookup f p) as [[|]|]; try discriminate;
    destruct (lookup f (parent p)) as [[|]|]; try discriminate;
    intros H; inversion H; repeat split; congruence.
Qed.

Lemma write_text_ok (f : fs) (p : path) (t : string) :
  lookup f (parent p) = Some Dir -> lookup f p <> Some Dir ->
  write_text f p t = Ok (update f p (File t)).
Proof.
  intros Hpar Hp. unfold write_text. rewrite Hpar.
  destruct (lookup f p) as [[|]|]; [contradiction | reflexivity | reflexivity].
Qed.

Lemma IbexRun_prepare_inv ib w s s1 :
  IbexRun_prepare ib w s = (Ok tt, s1) ->
  exists d1,
    nodes_kept (disk s) d1 /\
    lookup d1 (parent (script_file ib)) = Some Dir /\
    lookup d1 (script_file ib) <> Some Dir /\
    s1 = {| self := self s;
            disk := update d1 (script_file ib) (File (script ib)) |}.
Proof.
  unfold IbexRun_prepare, mbind at 1, get_disk. unfold mbind.
  assert (Hfirst : forall r sa,
            (if exists_ (disk s) (out_ibex ib) then ret tt
             else fs_call (fun f => mkdir_parents f (out_ibex ib))) s = (r, sa) ->
            self sa = self s /\ nodes_kept (disk s) (disk sa)).
  { intros r sa. destruct (exists_ (disk s) (out_ibex ib)).
    - intros H. inversion H. split; [reflexivity | apply nodes_kept_refl].
    - unfold fs_call.
      destruct (mkdir_parents (disk s) (out_ibex ib)) as [f|x] eqn:Em;
        intros H; inversion H; simpl.
      + split; [reflexivity | apply (mkdir_from_nodes _ _ _ _ Em)].
      + split; [reflexivity | apply nodes_kept_refl]. }
  destruct ((if exists_ (disk s) (out_ibex ib) then ret tt
             else fs_call (fun f => mkdir_parents f (out_ibex ib))) s)
    as [[[]|x] sa] eqn:E1; [|discriminate].
  destruct (Hfirst _ _ eq_refl) as [Hself Hnodes].
  unfold fs_call.
  destruct (write_text (disk sa) (script_file ib) (script ib)) as [f|x] eqn:Ew;
    [|discriminate].
  intros H. inversion H. subst s1.
  destruct (write_text_ok_inv _ _ _ _ Ew) as (Hpar & Hnd & ->).
  exists (disk sa). rewrite Hself. auto.
Qed.

(** [IbexRun.prepare], when it returns, has made sure the output directory
    is a directory, has changed nothing on the disk but the script file,
    and can be run again: the second run returns as well and leaves every
    path as the first one left it. *)
Theorem IbexRun_prepare_rewrites_script tpc out n jn pt nt cpt mem m kw ib w
    (s s1 : state) :
  IbexRun_init tpc out n jn pt nt cpt mem m kw = Ok ib ->
  IbexRun_prepare ib w s = (Ok tt, s1) ->
  is_dir (disk s1) out = true /\
  nodes_kept_but (Some (path_join out "script.sh")) (disk s) (disk s1) /\
  exists s2,
    IbexRun_prepare ib w s1 = (Ok tt, s2) /\ self s2 = self s1 /\
    forall q, disk s2 q = disk s1 q.
Proof.
  intros Hinit Hprep.
  destruct (IbexRun_init_inv _ _ _ _ _ _ _ _ _ _ _ Hinit)
    as (_ & _ & _ & Hsf & Hout & _).
  destruct (IbexRun_prepare_inv _ _ _ _ Hprep)
    as (d1 & Hnodes & Hpar & Hnd & ->).
  assert (Hparent : parent (script_file ib) = out).
  { rewrite Hsf, path_join_script. unfold parent. apply removelast_last. }
  assert (Hne : script_file ib <> out).
  { rewrite Hsf, path_join_script. intros H.
    apply (f_equal (@length string)) in H. rewrite length_app in H.
    simpl in H. lia. }
  assert (Hnil : script_file ib <> []).
  { rewrite Hsf, path_join_script. apply app_one_nonroot. }
  rewrite Hparent in Hpar. rewrite <- Hsf. cbn [disk self].
  assert (Hdir : is_dir (update d1 (script_file ib) (File (script ib))) out
                 = true).
  { unfold is_dir. rewrite lookup_update_other by exact Hne.
    rewrite Hpar. reflexivity. }
  split; [exact Hdir|]. split.
  - intros q x Hq Hl. rewrite lookup_update_other by congruence.
    apply Hnodes, Hl.
  - unfold IbexRun_prepare, mbind at 1, get_disk. unfold mbind.
    cbn [disk]. rewrite Hout. rewrite (is_dir_exists _ _ Hdir).
    unfold ret, fs_call. cbn [disk self].
    rewrite write_text_ok.
    + eexists. split; [reflexivity|]. split; [reflexivity|].
      intros q. cbn [disk]. unfold update.
      destruct (path_eqb (script_file ib) q); reflexivity.
    + rewrite Hparent, lookup_update_other by exact Hne. exact Hpar.
    + rewrite lookup_update_same by exact Hnil. discriminate.
Qed.

Lemma IbexRun_prepare_rewrites_script_witness :
  exists ib s1,
    ibex_unittest = Ok ib /\
    IbexRun_prepare ib (world_exit 0 "Submitted batch job 1")
      {| self := base ib; disk := disk_mine |} = (Ok tt, s1) /\
    (is_dir (disk s1) ["tmp"; "ibextest"] = true /\
     nodes_kept_but (Some (path_join ["tmp"; "ibextest"] "script.sh"))
       disk_mine (disk s1) /\
     exists s2,
       IbexRun_prepare ib (world_exit 0 "Submitted batch job 1") s1
         = (Ok tt, s2) /\
       self s2 = self s1 /\ forall q, disk s2 q = disk s1 q).
Proof.
  eexists. eexists. split; [vm_compute; reflexivity|].
  split; [vm_compute; reflexivity|].
  match goal with
  | |- is_dir (disk ?s1) _ = true /\ _ /\
       (exists s2, IbexRun_prepare ?ib ?w _ = _ /\ _) =>
      apply (IbexRun_prepare_rewrites_script 1 ["tmp"; "ibextest"] 1
               "ibex_unittest" "debug" 1 1 2 1990
               {| kw_catch_out := CatchBool true; kw_dir_out := None;
                  kw_tempdir := None; kw_keep_tempdir := false;
                  kw_cwd := ["work"]; kw_verbose := false |}
               ib w {| self := base ib; disk := disk_mine |} s1);
        vm_compute; reflexivity
  end.
Defined.

(** ** A submission that succeeds *)

(** [IbexRun] overrides [finish] without writing the capture file: when no
    temporary directory is configured and [run] returns a job identifier,
    the disk is exactly the one [prepare] left -- the reply of the
    submission is written nowhere, although [catch_out] defaults to
    [True]. *)
Theorem IbexRun_success_leaves_prepared_disk (ib : IbexRun) (w : world)
    (d : fs) (id : string) :
  tempdir (base ib) = None ->
  outcome (IbexRun_run ib w d) = Ok id ->
  final_disk (IbexRun_run ib w d) =
    disk (snd (IbexRun_prepare ib w
                 (with_self reset {| self := base ib; disk := d |}))) /\
  tempdir (final_self (IbexRun_run ib w d)) = None.
Proof.
  intros Ht Hout. unfold outcome, IbexRun_run, run_on in Hout.
  destruct (run_ok_inv _ _ _ _ Hout)
    as (s1 & c & m & s2 & s3 & Hp & He & Hc & Hpred & Hm & Hfin & Hcl & Hst).
  simpl in Hpred. inversion Hpred. subst m s2. clear Hpred.
  change (prepare (IbexRun_hooks ib) w) with (IbexRun_prepare ib w) in Hp.
  change (finish (IbexRun_hooks ib)) with IbexRun_finish in Hfin.
  rewrite (IbexRun_finish_eq (set_fm None (set_cp c s1)) c) in Hfin
    by reflexivity.
  destruct (re_search_digits (cp_stdout c)); inversion Hfin. subst s3.
  destruct (IbexRun_prepare_ok _ _ _ _ Hp) as [Hself _].
  assert (Hclean : cleanup (set_fm None (set_cp c s1)) =
                   (Ok tt, set_fm None (set_cp c s1))).
  { rewrite cleanup_eq. simpl. rewrite Hself. simpl. rewrite Ht. reflexivity. }
  unfold final_disk, final_self, IbexRun_run, run_on.
  rewrite Hst, Hclean, Hp. simpl. rewrite Hself. simpl. auto.
Qed.

Lemma IbexRun_success_leaves_prepared_disk_witness :
  exists ib,
    ibex_unittest = Ok ib /\
    exists_ (final_disk (IbexRun_run ib
                           (world_exit 0 "Submitted batch job 12345678") disk0))
            ["work"; "sbatch.out"] = false /\
    tempdir (final_self (IbexRun_run ib
                           (world_exit 0 "Submitted batch job 12345678") disk0))
      = None.
Proof.
  eexists. split; [vm_compute; reflexivity|].
  match goal with
  | |- exists_ (final_disk (IbexRun_run ?ib ?w ?d)) _ = false /\ _ =>
      destruct (IbexRun_success_leaves_prepared_disk ib w d "12345678"
                  ltac:(vm_compute; reflexivity)
                  ltac:(vm_compute; reflexivity)) as [Hd Ht]
  end.
  split; [rewrite Hd; vm_compute; reflexivity | exact Ht].
Defined.

(** ** A negative time budget *)

(** Nothing checks the sign of the arguments: when the total is negative
    (and within 53 bits) the hour field carries a minus sign, and the
    minute field is still the non-negative remainder of the floor
    division. *)
Theorem time_str_negative (c t : Z) :
  - 2 ^ 53 < c * t < 0 ->
  time_str c t =
    Ok ("-" ++ py_str (- ((c * t) / 60)) ++ ":" ++
        pad2 ((c * t) mod 60) ++ ":00") /\
  60 * ((c * t) / 60) + (c * t) mod 60 = c * t /\
  0 <= (c * t) mod 60 < 60.
Proof.
  intros Hneg. rewrite time_str_small by (unfold fits53; lia).
  pose proof (Z.mod_pos_bound (c * t) 60 ltac:(lia)) as Hmod.
  assert (Hh : c * t / 60 < 0) by (apply Z.div_lt_upper_bound; lia).
  rewrite (py_format_0_pad2 ((c * t) mod 60)) by lia.
  unfold py_format_0. destruct (Z.ltb_spec (c * t / 60) 0); [|lia].
  split; [|split; [symmetry; apply Z.div_mod; lia | exact Hmod]].
  replace (Nat.pred 2 - String.length (py_str (- (c * t / 60))))%nat with 0%nat.
  - simpl. repeat rewrite str_app_assoc. reflexivity.
  - assert (Hlen : (1 <= String.length (py_str (- (c * t / 60))))%nat).
    { destruct (- (c * t / 60)) as [|p|p] eqn:E; try lia.
      unfold py_str. simpl.
      destruct (Pos.to_uint p); simpl; lia. }
    change (Nat.pred 2) with 1%nat. lia.
Qed.

Lemma time_str_negative_witness :
  time_str (-1) 1 =
    Ok ("-" ++ py_str (- ((-1 * 1) / 60)) ++ ":" ++
        pad2 ((-1 * 1) mod 60) ++ ":00") /\
  60 * ((-1 * 1) / 60) + (-1 * 1) mod 60 = -1 * 1 /\
  0 <= (-1 * 1) mod 60 < 60.
Proof. apply (time_str_negative (-1) 1). lia. Defined.

Example time_str_minus_one : time_str (-1) 1 = Ok "-1:59:00".
Proof. vm_compute. reflexivity. Qed.

(** Beyond 53 bits the hour field is the floor of the rounded quotient,
    and hours and minutes no longer add up to the total. *)
Example time_str_negative_rounded :
  time_str (-16888498602639361) 1 = Ok "-281474976710656:59:00" /\
  60 * (-281474976710656) + 59 <> -16888498602639361.
Proof. split; [vm_compute; reflexivity | lia]. Qed.

(** ** How a failed launch reaches the caller *)

Lemma run_after_failed_launch {R} (h : hooks R) (w : world) (e : Executor)
    (d : fs) (s1 : state) (x : exn) :
  prepare h w (with_self reset {| self := e; disk := d |}) = (Ok tt, s1) ->
  execute w s1 = (Raise x, s1) ->
  run_on h w e d =
    cleaned (handled (Raise x, (s1, [StepPrepare; StepExecute]))).
Proof.
  intros Hp He. unfold run_on. rewrite run_eq.
  rewrite (run_body_execute_raises h w _ [] s1 x Hp He). reflexivity.
Qed.

(** Of the ways a launch can fail, only an [OSError] is reported as
    [RunError].  Output that cannot be decoded leaves [run] as the
    [UnicodeDecodeError] it is, no [except] clause taking it.  A
    [MemoryError] goes through [fail]: no [RunError] reaches the caller,
    and when the report can be written and no failure message is set, the
    [MemoryError] is raised again.  Every one of them can be replaced by
    the [OSError] of a failing [cleanup]. *)
Theorem launch_failure_by_kind {R} (h : hooks R) (w : world) (e : Executor)
    (d : fs) (s1 : state) :
  prepare h w (with_self reset {| self := e; disk := d |}) = (Ok tt, s1) ->
  is_dir (disk s1) (cwd (self s1)) = true ->
  (forall msg,
     subprocess_run w (disk s1) (args (self s1)) (cwd (self s1))
       = LaunchError msg ->
     steps (run_on h w e d) = [StepPrepare; StepExecute; StepCleanup] /\
     (outcome (run_on h w e d) = Raise (RunError (launch_failure_text msg)) \/
      exists m, outcome (run_on h w e d) = Raise (OSError m))) /\
  (subprocess_run w (disk s1) (args (self s1)) (cwd (self s1))
     = LaunchUndecodable ->
   steps (run_on h w e d) = [StepPrepare; StepExecute; StepCleanup] /\
   (outcome (run_on h w e d) = Raise UnicodeDecodeError \/
    exists m, outcome (run_on h w e d) = Raise (OSError m))) /\
  (subprocess_run w (disk s1) (args (self s1)) (cwd (self s1))
     = LaunchOutOfMemory ->
   steps (run_on h w e d)
     = [StepPrepare; StepExecute; StepFail; StepCleanup] /\
   (forall payload, outcome (run_on h w e d) <> Raise (RunError payload)) /\
   (report_writable (set_err (ErrInstance MemoryError) s1) = true ->
    failed_message (self s1) = None ->
    outcome (run_on h w e d) = Raise MemoryError \/
    exists m, outcome (run_on h w e d) = Raise (OSError m))).
Proof.
  intros Hp Hcwd.
  assert (Hexec : forall x,
            (if is_dir (disk s1) (cwd (self s1))
             then match subprocess_run w (disk s1) (args (self s1))
                          (cwd (self s1)) with
                  | LaunchError msg => Raise (OSError msg)
                  | LaunchUndecodable => Raise UnicodeDecodeError
                  | LaunchOutOfMemory => Raise MemoryError
                  | Exited rc out =>
                      Ok {| cp_args := args (self s1); cp_returncode := rc;
                            cp_stdout := out |}
                  end
             else Raise (OSError (if exists_ (disk s1) (cwd (self s1))
                                  then "Not a directory"
                                  else "No such file or directory")))
            = Raise x ->
            execute w s1 = (Raise x, s1)).
  { intros x Hx. rewrite execute_eq, Hx. reflexivity. }
  rewrite Hcwd in Hexec.
  split; [|split].
  - intros msg Hl. rewrite Hl in Hexec.
    rewrite (run_after_failed_launch h w e d s1 _ Hp (Hexec _ eq_refl)).
    unfold steps, outcome. rewrite cleaned_trace. cbn [handled snd].
    split; [reflexivity|]. apply cleaned_raise.
  - intros Hl. rewrite Hl in Hexec.
    rewrite (run_after_failed_launch h w e d s1 _ Hp (Hexec _ eq_refl)).
    unfold steps, outcome. rewrite cleaned_trace. cbn [handled snd].
    split; [reflexivity|]. apply cleaned_raise.
  - intros Hl. rewrite Hl in Hexec.
    rewrite (run_after_failed_launch h w e d s1 _ Hp (Hexec _ eq_refl)).
    unfold steps, outcome. rewrite cleaned_trace. cbn -[fail cleaned].
    pose proof (@fail_outcome R (set_err (ErrInstance MemoryError) s1)) as Hf.
    destruct (@fail R (set_err (ErrInstance MemoryError) s1)) as [r s2] eqn:Ef.
    cbn [fst snd] in *. split; [reflexivity|].
    assert (Hr : r = Raise MemoryError \/ r = Raise TypeError \/
                 (exists m, r = Raise (OSError m)) \/
                 (exists m, r = Raise (AttributeError m))).
    { destruct Hf as [[_ Hf]|[_ [Hf|Hf]]]; [|auto|auto].
      rewrite Hf. unfold fail_exn. cbn.
      destruct (message_truthy (failed_message (self s1))); auto. }
    split.
    + intros payload.
      destruct Hr as [->|[->|[(m & ->)|(m & ->)]]];
        match goal with
        | |- fst (cleaned (Raise ?x, _)) <> _ =>
            destruct (@cleaned_raise R x s2
                        [StepPrepare; StepExecute; StepFail])
              as [Hc|(m' & Hc)]; rewrite Hc; discriminate
        end.
    + intros Hw Hm.
      destruct Hf as [[_ Hf]|[Hf _]]; [|congruence].
      assert (Hx : fail_exn (self (set_err (ErrInstance MemoryError) s1))
                   = MemoryError).
      { unfold fail_exn. cbn. rewrite Hm. reflexivity. }
      rewrite Hf, Hx. apply cleaned_raise.
Qed.

Lemma launch_failure_by_kind_witness :
  exists s1,
    prepare Executor_hooks (world_launch LaunchOutOfMemory)
      (with_self reset {| self := ls_capture None false; disk := disk0 |})
      = (Ok tt, s1) /\
    is_dir (disk s1) (cwd (self s1)) = true /\
    steps (run_on Executor_hooks (world_launch LaunchOutOfMemory)
             (ls_capture None false) disk0)
      = [StepPrepare; StepExecute; StepFail; StepCleanup] /\
    outcome (run_on Executor_hooks (world_launch LaunchOutOfMemory)
               (ls_capture None false) disk0)
      = Raise MemoryError.
Proof.
  eexists. split; [vm_compute; reflexivity|].
  split; [vm_compute; reflexivity|].
  match goal with
  | |- steps (run_on ?h ?w ?e ?d) = _ /\ _ =>
      destruct (proj2 (proj2 (launch_failure_by_kind h w e d _
                                ltac:(vm_compute; reflexivity)
                                ltac:(vm_compute; reflexivity)))
                  ltac:(vm_compute; reflexivity)) as (Hs & _ & _)
  end.
  split; [exact Hs | vm_compute; reflexivity].
Defined.

(** A launch whose output cannot be decoded: the caller sees the
    [UnicodeDecodeError], and the temporary directory is gone. *)
Example undecodable_output :
  outcome (run_on Executor_hooks (world_launch LaunchUndecodable)
             (ls_capture None false) disk0)
    = Raise UnicodeDecodeError /\
  exists_ (final_disk (run_on Executor_hooks (world_launch LaunchUndecodable)
                         (ls_capture None false) disk0))
          ["tmp"; "ls_executor_k3x9"] = false.
Proof. split; vm_compute; reflexivity. Qed.
